(** * sync_folder: one-way folder synchronisation

    A shallow embedding of [sync_folder.py] and the verification of its
    planning and execution phases.

    The host file system is a finite map from absolute paths to entries; a
    path is the list of its components, so that [os.path.join] is list
    concatenation, [os.path.dirname] drops the last component and
    [os.path.basename] returns it.  A relative path printed by Python as
    ["a/b/c"] is the list [["a"; "b"; "c"]]; its number of separators is its
    length minus one.

    Python code that reads or changes the file system, logs or raises lives in
    the monad [M]: a state monad over [world] whose result is either a value or
    a raised exception.  The world carries the file system, the clock and the
    trace of everything the program did (directory walks, file-system changes
    and logging calls), in program order.  The process pool and the thread
    pools run their tasks one after the other, in submission order. *)

From Stdlib Require Import ZArith Ascii String List Lia.
From stdpp Require Import gmap strings pretty list fin_maps sorting.

Open Scope string_scope.
Open Scope list_scope.
Open Scope nat_scope.

(** ** Paths *)

Abbreviation path := (list string).

(** [os.path.dirname] *)
Definition parent (p : path) : path := removelast p.

(** [os.path.basename] *)
Definition basename (p : path) : string := List.last p "".

(** [Path.relative_to] *)
Definition relative_to (abs base : path) : path := drop (length base) abs.

(** [rel_path.count(os.sep)] *)
Definition count_sep (rel : path) : nat := length rel - 1.

(** ** File-system entries *)

Inductive entry :=
| File (mtime : Z) (data : list Byte.byte)
| Dir (mtime : Z).

Abbreviation filesystem := (gmap path entry).

Definition is_file (e : entry) : bool :=
  match e with File _ _ => true | Dir _ => false end.

Definition entry_mtime (e : entry) : Z :=
  match e with File m _ => m | Dir m => m end.

(** ** Exceptions, log records and the trace *)

Inductive exn :=
| ValueError
| RecursionError
| FileNotFoundError
| FileExistsError
| NotADirectoryError
| IsADirectoryError
| DirectoryNotEmpty
| SameFileError.

(** [isinstance(e, OSError)] *)
Definition is_OSError (e : exn) : bool :=
  match e with ValueError | RecursionError => false | _ => true end.

Inductive level := DEBUG | INFO | WARNING | ERROR.

(** The f-strings passed to [logging], one constructor per call site. *)
Inductive message :=
| MsgSyncStart (src dst : path)      (* Sincronizzazione da .. a .. *)
| MsgDirCreated (rel : path)         (* Creata directory: .. *)
| MsgNoNewDir                        (* Nessuna nuova directory da creare *)
| MsgDirRemoved (rel : path)         (* Rimossa directory obsoleta: .. *)
| MsgDirNotEmpty (rel : path)        (* Directory non vuota, non rimossa: .. *)
| MsgDirError (p : path) (e : exn)   (* Errore nella rimozione della directory .. *)
| MsgDirsRemoved (n : nat)           (* Rimosse n directory obsolete *)
| MsgNoObsoleteDir                   (* Nessuna directory obsoleta da rimuovere *)
| MsgCopied (rel : path)             (* Copiato: .. *)
| MsgCopyError (p : path) (e : exn)  (* Errore nella copia di .. *)
| MsgRemoved (p : path)              (* Rimosso: .. *)
| MsgRemoveError (p : path) (e : exn)(* Errore nell'eliminazione di .. *)
| MsgFoundCopy (n : nat)             (* Trovati n file da copiare/aggiornare *)
| MsgFoundDelete (n : nat)           (* Trovati n file da rimuovere *)
| MsgCopyDone                        (* Sincronizzazione file completata *)
| MsgNoCopy                          (* Nessun file da copiare *)
| MsgDeleteDone                      (* Eliminazione file completata *)
| MsgNoDelete                        (* Nessun file da eliminare *)
| MsgCheckDirs.                      (* Controllo directory obsolete... *)

Inductive event :=
| Walk (top : path)                  (* os.walk(top) was started *)
| Mkdir (p : path)                   (* a directory was created *)
| CopyFile (src dst : path)          (* shutil.copy2 wrote dst *)
| Remove (p : path)                  (* os.remove deleted a file *)
| Rmdir (p : path)                   (* os.rmdir deleted a directory *)
| Pool (processes : Z)               (* a pool of worker processes was started *)
| Log (lvl : level) (msg : message).

(** ** The monad of effectful code *)

Inductive result (A : Type) :=
| Ok (a : A)
| Raise (e : exn).
Arguments Ok {A} a.
Arguments Raise {A} e.

Record world := World {
  files : gmap path entry;
  clock : Z;
  trace : list event
}.

Definition M (A : Type) : Type := world → result A * world.

Definition ret {A} (a : A) : M A := λ w, (Ok a, w).

Definition bind {A B} (m : M A) (k : A → M B) : M B :=
  λ w, match m w with
       | (Ok a, w') => k a w'
       | (Raise e, w') => (Raise e, w')
       end.

Definition raise {A} (e : exn) : M A := λ w, (Raise e, w).

(** [try: m  except Exception as e: h e] *)
Definition try_except {A} (m : M A) (h : exn → M A) : M A :=
  λ w, match m w with
       | (Ok a, w') => (Ok a, w')
       | (Raise e, w') => h e w'
       end.

Declare Scope M_scope.
Delimit Scope M_scope with M.
Bind Scope M_scope with M.
Notation "x <- m ;; k" := (bind m (λ x, k))
  (at level 100, m at next level, k at level 200, right associativity) : M_scope.
Notation "m ;; k" := (bind m (λ _, k))
  (at level 100, k at level 200, right associativity) : M_scope.
Open Scope M_scope.

(** Reading the file system, lifting a fallible read, writing the trace. *)
Definition gets {A} (f : gmap path entry → A) : M A := λ w, (Ok (f (files w)), w).

Definition lift {A} (f : gmap path entry → result A) : M A :=
  λ w, (f (files w), w).

Definition emit (e : event) : M unit :=
  λ w, (Ok tt, World (files w) (clock w) (trace w ++ [e])).

Definition log (lvl : level) (msg : message) : M unit := emit (Log lvl msg).

(** [for x in l: body x] *)
Fixpoint for_each {A} (l : list A) (body : A → M unit) : M unit :=
  match l with
  | [] => ret tt
  | x :: l' => body x ;; for_each l' body
  end.

(** A loop that updates a local variable of type [S]. *)
Fixpoint for_fold {A S} (l : list A) (body : A → S → M S) (s : S) : M S :=
  match l with
  | [] => ret s
  | x :: l' => s' <- body x s ;; for_fold l' body s'
  end.

(** ** The [os], [os.path] and [shutil] calls the program makes *)

(** [os.path.exists] *)
Definition path_exists (fs : gmap path entry) (p : path) : bool :=
  match fs !! p with Some _ => true | None => false end.

(** [os.path.isdir] *)
Definition isdir (fs : gmap path entry) (p : path) : bool :=
  match fs !! p with Some (Dir _) => true | _ => false end.

(** [os.path.getmtime] *)
Definition getmtime (fs : gmap path entry) (p : path) : result Z :=
  match fs !! p with
  | Some e => Ok (entry_mtime e)
  | None => Raise FileNotFoundError
  end.

(** [open(p, 'rb')] followed by reading the whole content. *)
Definition read_file (fs : gmap path entry) (p : path) : result (list Byte.byte) :=
  match fs !! p with
  | Some (File _ data) => Ok data
  | Some (Dir _) => Raise IsADirectoryError
  | None => Raise FileNotFoundError
  end.

(** The name of [p] when [p] is an entry of the directory [top]. *)
Definition child_name (top p : path) : option string :=
  if decide (p ≠ [] ∧ parent p = top) then Some (basename p) else None.

(** The names in the directory [top], in the order the host lists them. *)
Definition children (fs : gmap path entry) (top : path) : list string :=
  omap (λ kv, child_name top kv.1) (map_to_list fs).

(** [os.listdir] *)
Definition listdir (fs : gmap path entry) (p : path) : result (list string) :=
  match fs !! p with
  | Some (Dir _) => Ok (children fs p)
  | Some (File _ _) => Raise NotADirectoryError
  | None => Raise FileNotFoundError
  end.

(** Changing the entries of a directory sets its modification time. *)
Definition touch (now : Z) (p : path) (fs : gmap path entry) : gmap path entry :=
  match fs !! p with
  | Some (Dir _) => <[p := Dir now]> fs
  | _ => fs
  end.

(** [os.mkdir] *)
Definition mkdir (p : path) : M unit :=
  λ w, let fs := files w in
       match p, fs !! parent p with
       | [], _ => (Raise FileExistsError, w)
       | _, None => (Raise FileNotFoundError, w)
       | _, Some (File _ _) => (Raise NotADirectoryError, w)
       | _, Some (Dir _) =>
           match fs !! p with
           | Some _ => (Raise FileExistsError, w)
           | None =>
               (Ok tt, World (<[p := Dir (clock w)]> (touch (clock w) (parent p) fs))
                             (clock w) (trace w ++ [Mkdir p]))
           end
       end.

(** [os.makedirs(name, exist_ok=True)]: create the missing ancestors, then
    the directory; an existing directory is not an error. *)
Fixpoint makedirs_fuel (fuel : nat) (name : path) : M unit :=
  match fuel with
  | 0 => raise RecursionError
  | S k =>
      let head := parent name in
      head_exists <- gets (λ fs, path_exists fs head) ;;
      (if bool_decide (name ≠ []) && negb head_exists
       then try_except (makedirs_fuel k head)
              (λ e, match e with FileExistsError => ret tt | _ => raise e end)
       else ret tt) ;;
      try_except (mkdir name)
        (λ e, is_dir <- gets (λ fs, isdir fs name) ;;
              if is_OSError e && is_dir then ret tt else raise e)
  end.

Definition makedirs (name : path) : M unit :=
  makedirs_fuel (S (length name)) name.

(** [os.remove] *)
Definition remove (p : path) : M unit :=
  λ w, let fs := files w in
       match fs !! p with
       | None => (Raise FileNotFoundError, w)
       | Some (Dir _) => (Raise IsADirectoryError, w)
       | Some (File _ _) =>
           (Ok tt, World (touch (clock w) (parent p) (delete p fs))
                         (clock w) (trace w ++ [Remove p]))
       end.

(** [os.rmdir] *)
Definition rmdir (p : path) : M unit :=
  λ w, let fs := files w in
       match fs !! p with
       | None => (Raise FileNotFoundError, w)
       | Some (File _ _) => (Raise NotADirectoryError, w)
       | Some (Dir _) =>
           match p, children fs p with
           | _ :: _, [] =>
               (Ok tt, World (touch (clock w) (parent p) (delete p fs))
                             (clock w) (trace w ++ [Rmdir p]))
           | _, _ => (Raise DirectoryNotEmpty, w)
           end
       end.

(** [shutil.copy2]: copy the content, then the modification time.  A
    destination that is a directory receives the file under the source's
    name. *)
Definition copy2 (src dst : path) : M unit :=
  λ w, let fs := files w in
       let dst := if isdir fs dst then dst ++ [basename src] else dst in
       if bool_decide (src = dst) && path_exists fs src then (Raise SameFileError, w)
       else
         match fs !! src with
         | None => (Raise FileNotFoundError, w)
         | Some (Dir _) => (Raise IsADirectoryError, w)
         | Some (File mtime data) =>
             match fs !! dst with
             | Some (Dir _) => (Raise IsADirectoryError, w)
             | Some (File _ _) =>
                 (Ok tt, World (<[dst := File mtime data]> fs)
                               (clock w) (trace w ++ [CopyFile src dst]))
             | None =>
                 match fs !! parent dst with
                 | None => (Raise FileNotFoundError, w)
                 | Some (File _ _) => (Raise NotADirectoryError, w)
                 | Some (Dir _) =>
                     (Ok tt, World (<[dst := File mtime data]> (touch (clock w) (parent dst) fs))
                                   (clock w) (trace w ++ [CopyFile src dst]))
                 end
             end
         end.

(** [os.walk(top)]: the triples (directory, sub-directory names, file names),
    top-down; a directory that cannot be listed yields nothing.  The depth of
    the recursion is bounded by the longest path of the file system. *)
Fixpoint walk_fuel (fuel : nat) (fs : gmap path entry) (top : path)
  : list (path * list string * list string) :=
  match fuel with
  | 0 => []
  | S k =>
      match listdir fs top with
      | Raise _ => []
      | Ok names =>
          let dirs := List.filter (λ n, isdir fs (top ++ [n])) names in
          let nondirs := List.filter (λ n, negb (isdir fs (top ++ [n]))) names in
          (top, dirs, nondirs) :: flat_map (λ d, walk_fuel k fs (top ++ [d])) dirs
      end
  end.

Definition longest_path (fs : gmap path entry) : nat :=
  foldr Nat.max 0 (map (λ kv, length kv.1) (map_to_list fs)).

Definition walk (top : path) : M (list (path * list string * list string)) :=
  emit (Walk top) ;;
  gets (λ fs, walk_fuel (S (longest_path fs)) fs top).

(** ** [hashlib]: an incremental hash whose digest depends on the bytes fed,
    not on how they were split into updates. *)
Class Hasher := {
  hasher : Type;
  hash_new : hasher;
  hash_update : hasher → list Byte.byte → hasher;
  hexdigest : hasher → string;
  hash_update_nil : ∀ h, hash_update h [] = h;
  hash_update_app : ∀ h a b, hash_update (hash_update h a) b = hash_update h (a ++ b)
}.

(** The digest of a whole content, fed in one piece. *)
Definition digest `{Hasher} (data : list Byte.byte) : string :=
  hexdigest (hash_update hash_new data).

(** ** The program *)

(** [skip_files], the set literal of [should_skip_file]. *)
Definition skip_files : gset string :=
  {[ ".DS_Store"; "._.DS_Store"; "Thumbs.db"; "Desktop.ini"; ".localized"; "__MACOSX" ]}.

Definition should_skip_file (filename : string) : bool :=
  if String.prefix "._" filename then true
  else bool_decide (filename ∈ skip_files).

(** [list.sort(key=lambda x: x[1].count(os.sep), reverse=True)]: a stable sort
    by decreasing number of separators. *)
Fixpoint insert_by_depth (x : path * path) (l : list (path * path)) : list (path * path) :=
  match l with
  | [] => [x]
  | y :: l' =>
      if (count_sep x.2 <? count_sep y.2)%nat then y :: insert_by_depth x l'
      else x :: l
  end.

Definition sort_by_depth (l : list (path * path)) : list (path * path) :=
  foldr insert_by_depth [] l.

(** [range(start, stop, step)] for a positive step. *)
Fixpoint range_fuel (fuel : nat) (i stop step : Z) : list Z :=
  match fuel with
  | 0 => []
  | S k => if (i <? stop)%Z then i :: range_fuel k (i + step)%Z stop step else []
  end.

Definition py_range (start stop step : Z) : list Z :=
  range_fuel (Z.to_nat (stop - start)) start stop step.

(** [l[i:j]] for [0 <= i <= j]. *)
Definition slice {A} (l : list A) (i j : Z) : list A :=
  take (Z.to_nat (j - i)) (drop (Z.to_nat i) l).

(** [ThreadPoolExecutor(max_workers=n)] with one [submit] per task, left at
    the end of the [with] block, when all tasks are done. *)
Definition thread_pool {A} (max_workers : Z) (tasks : list A) (run : A → M unit) : M unit :=
  if (max_workers <=? 0)%Z then raise ValueError
  else for_each tasks run.

(** [Pool(processes=n)] with [pool.map(worker, args)], left at the end of the
    [with] block. *)
Definition process_pool {A} (processes : Z) (args : list A) (worker : A → M unit) : M unit :=
  if (processes <? 1)%Z then raise ValueError
  else emit (Pool processes) ;; for_each args worker.

Section Program.
Context `{Hasher}.

(** [multiprocessing.cpu_count()] *)
Variable cpu_count : positive.

Definition block_size : nat := Z.to_nat 8192.

(** [while chunk := afile.read(n): hasher.update(chunk)] *)
Fixpoint read_blocks (fuel n : nat) (h : hasher) (unread : list Byte.byte) : hasher :=
  match fuel with
  | 0 => h
  | S k =>
      match take n unread with
      | [] => h
      | chunk => read_blocks k n (hash_update h chunk) (drop n unread)
      end
  end.

Definition file_hash (p : path) : M string :=
  data <- lift (λ fs, read_file fs p) ;;
  ret (hexdigest (read_blocks (S (length data)) block_size hash_new data)).

Definition should_copy (src_file dst_file : path) : M bool :=
  dst_exists <- gets (λ fs, path_exists fs dst_file) ;;
  if negb dst_exists then ret true
  else
    src_mtime <- lift (λ fs, getmtime fs src_file) ;;
    dst_mtime <- lift (λ fs, getmtime fs dst_file) ;;
    if (src_mtime >? dst_mtime)%Z then
      src_hash <- file_hash src_file ;;
      dst_hash <- file_hash dst_file ;;
      ret (negb (String.eqb src_hash dst_hash))
    else ret false.

Definition copy_file (src_file dst_file : path) : M unit :=
  makedirs (parent dst_file) ;;
  copy2 src_file dst_file.

Definition delete_file (p : path) : M unit :=
  p_exists <- gets (λ fs, path_exists fs p) ;;
  if p_exists then remove p else ret tt.

Definition scan_files (base_dir : path) (apply_skip_filter : bool) : M (list (path * path)) :=
  triples <- walk base_dir ;;
  ret (flat_map (λ '(root, _, files),
         flat_map (λ f,
           if apply_skip_filter && should_skip_file f then []
           else let abs_path := root ++ [f] in
                [(abs_path, relative_to abs_path base_dir)]) files) triples).

Definition scan_directories (base_dir : path) : M (list (path * path)) :=
  triples <- walk base_dir ;;
  ret (flat_map (λ '(root, dirs, _),
         map (λ d, let abs_path := root ++ [d] in
                   (abs_path, relative_to abs_path base_dir)) dirs) triples).

Definition sync_directories (source_folder destination_folder : path) : M unit :=
  src_dirs <- scan_directories source_folder ;;
  created_count <- for_fold src_dirs (λ '(_, rel_path) created_count,
      let dst_dir := destination_folder ++ rel_path in
      dst_exists <- gets (λ fs, path_exists fs dst_dir) ;;
      if negb dst_exists then
        makedirs dst_dir ;;
        log INFO (MsgDirCreated rel_path) ;;
        ret (S created_count)
      else ret created_count) 0 ;;
  if (created_count =? 0)%nat then log INFO MsgNoNewDir else ret tt.

(** The body of the loop of [remove_obsolete_directories]. *)
Definition remove_if_obsolete (src_dirs : gset path) (d : path * path)
    (removed_count : nat) : M nat :=
  let '(abs_dst, rel_path) := d in
  if bool_decide (rel_path ∉ src_dirs) then
    try_except
      (names <- lift (λ fs, listdir fs abs_dst) ;;
       match names with
       | [] =>
           rmdir abs_dst ;;
           log INFO (MsgDirRemoved rel_path) ;;
           ret (S removed_count)
       | _ =>
           log WARNING (MsgDirNotEmpty rel_path) ;;
           ret removed_count
       end)
      (λ e, log ERROR (MsgDirError abs_dst e) ;; ret removed_count)
  else ret removed_count.

Definition remove_obsolete_directories (source_folder destination_folder : path) : M unit :=
  src_scan <- scan_directories source_folder ;;
  let src_dirs : gset path := list_to_set (map snd src_scan) in
  dst_scan <- scan_directories destination_folder ;;
  let dst_dirs := sort_by_depth dst_scan in
  removed_count <- for_fold dst_dirs (remove_if_obsolete src_dirs) 0 ;;
  if (0 <? removed_count)%nat then log INFO (MsgDirsRemoved removed_count)
  else log INFO MsgNoObsoleteDir.

Definition copy_worker (args : list (path * path) * path * Z) : M unit :=
  let '(chunk, destination_folder, threads_per_worker) := args in
  let thread_copy := λ '(src_file, rel_path),
    let dst_file := destination_folder ++ rel_path in
    try_except
      (copy_file src_file dst_file ;;
       log DEBUG (MsgCopied rel_path))
      (λ e, log ERROR (MsgCopyError src_file e)) in
  thread_pool threads_per_worker chunk thread_copy.

Definition delete_file_safe (p : path) : M unit :=
  try_except
    (delete_file p ;;
     log INFO (MsgRemoved p))
    (λ e, log ERROR (MsgRemoveError p e)).

(** The three numbers of the copy phase. *)
Definition num_processes (copy_count : Z) : Z :=
  Z.pos cpu_count `min` (1 `max` (copy_count / 100)).

Definition chunk_size (copy_count : Z) : Z :=
  copy_count / num_processes copy_count + 1.

Definition make_chunks {A} (tasks : list A) : list (list A) :=
  let n := Z.of_nat (length tasks) in
  map (λ i, slice tasks i (i + chunk_size n)) (py_range 0 n (chunk_size n)).

(** The copy set: lines 212 to 218 of [sync_folders]. *)
Definition copy_tasks_of (src_files : list (path * path)) (destination_folder : path)
  : M (list (path * path)) :=
  for_fold src_files (λ '(abs_src, rel_path) copy_tasks,
      let abs_dst := destination_folder ++ rel_path in
      needed <- should_copy abs_src abs_dst ;;
      if needed then ret (copy_tasks ++ [(abs_src, rel_path)])
      else ret copy_tasks) [].

(** The test of line 228 of [sync_folders]. *)
Definition to_delete (src_rel_paths : gset path) (d : path * path) : bool :=
  let filename := basename d.2 in
  should_skip_file filename || bool_decide (d.2 ∉ src_rel_paths).

(** The delete set: lines 225 to 229. *)
Definition delete_tasks_of (src_rel_paths : gset path) (dst_files : list (path * path))
  : list path :=
  map fst (List.filter (to_delete src_rel_paths) dst_files).

(** [sync_folders] up to line 231: the guard, the creation of the
    directories and the plan. *)
Definition sync_plan (source_folder destination_folder : path)
  : M (list (path * path) * list path) :=
  src_exists <- gets (λ fs, path_exists fs source_folder) ;;
  if negb src_exists then raise ValueError
  else
    log INFO (MsgSyncStart source_folder destination_folder) ;;
    makedirs destination_folder ;;
    sync_directories source_folder destination_folder ;;
    src_files <- scan_files source_folder true ;;
    copy_tasks <- copy_tasks_of src_files destination_folder ;;
    log INFO (MsgFoundCopy (length copy_tasks)) ;;
    let src_rel_paths : gset path := list_to_set (map snd src_files) in
    dst_files <- scan_files destination_folder false ;;
    let delete_tasks := delete_tasks_of src_rel_paths dst_files in
    log INFO (MsgFoundDelete (length delete_tasks)) ;;
    ret (copy_tasks, delete_tasks).

(** Lines 233 to 244: the copy phase. *)
Definition copy_phase (copy_tasks : list (path * path)) (destination_folder : path)
    (threads_per_worker : Z) : M unit :=
  match copy_tasks with
  | _ :: _ =>
      let chunks := make_chunks copy_tasks in
      let args := map (λ chunk, (chunk, destination_folder, threads_per_worker)) chunks in
      process_pool (num_processes (Z.of_nat (length copy_tasks))) args copy_worker ;;
      log INFO MsgCopyDone
  | [] => log INFO MsgNoCopy
  end.

(** Lines 246 to 252: the delete phase. *)
Definition delete_phase (delete_tasks : list path) (threads_per_worker : Z) : M unit :=
  match delete_tasks with
  | _ :: _ =>
      thread_pool threads_per_worker delete_tasks delete_file_safe ;;
      log INFO MsgDeleteDone
  | [] => log INFO MsgNoDelete
  end.

Definition sync_folders (source_folder destination_folder : path)
    (threads_per_worker : Z) : M unit :=
  plan <- sync_plan source_folder destination_folder ;;
  let '(copy_tasks, delete_tasks) := plan in
  copy_phase copy_tasks destination_folder threads_per_worker ;;
  delete_phase delete_tasks threads_per_worker ;;
  log INFO MsgCheckDirs ;;
  remove_obsolete_directories source_folder destination_folder.

End Program.

(** ** The functions that [sync_folders] does not call *)

(** [executor.submit(task)]: the task runs in the pool; an exception that it
    raises is kept in its future, which the program never reads.  The tasks
    of [copy_worker] and of the delete phase catch their exceptions
    themselves, so that for them [submit] changes nothing. *)
Definition submit (task : M unit) : M unit :=
  try_except task (λ _, ret tt).

(** [sync_worker], which no function of the file calls: as [copy_worker],
    but each task asks [should_copy] first, outside the [try]. *)
Definition sync_worker `{Hasher} (args : list (path * path) * path * Z) : M unit :=
  let '(chunk, destination_folder, threads_per_worker) := args in
  let thread_copy := λ '(src_file, rel_path),
    let dst_file := destination_folder ++ rel_path in
    needed <- should_copy src_file dst_file ;;
    if needed then
      try_except
        (copy_file src_file dst_file ;;
         log DEBUG (MsgCopied rel_path))
        (λ e, log ERROR (MsgCopyError src_file e))
    else ret tt in
  thread_pool threads_per_worker chunk (λ t, submit (thread_copy t)).

(** [remove_obsolete_files], which no function of the file calls.  Its log
    records have texts of their own; they are left as parameters. *)
Section Files.
Variables (msg_system_removed msg_obsolete_removed : path → message).
Variables (msg_system_error msg_obsolete_error : path → exn → message).
Variable msg_files_removed : nat → message.
Variable msg_no_obsolete_file : message.

(** The body of the loop of [remove_obsolete_files]. *)
Definition remove_if_obsolete_file (src_files : gset path) (d : path * path)
    (removed_count : nat) : M nat :=
  let '(abs_dst, rel_path) := d in
  let filename := basename rel_path in
  if should_skip_file filename then
    try_except
      (delete_file abs_dst ;;
       log INFO (msg_system_removed rel_path) ;;
       ret (S removed_count))
      (λ e, log ERROR (msg_system_error abs_dst e) ;; ret removed_count)
  else if bool_decide (rel_path ∉ src_files) then
    try_except
      (delete_file abs_dst ;;
       log INFO (msg_obsolete_removed rel_path) ;;
       ret (S removed_count))
      (λ e, log ERROR (msg_obsolete_error abs_dst e) ;; ret removed_count)
  else ret removed_count.

Definition remove_obsolete_files (source_folder destination_folder : path) : M unit :=
  src_scan <- scan_files source_folder true ;;
  let src_files : gset path := list_to_set (map snd src_scan) in
  dst_files <- scan_files destination_folder false ;;
  removed_count <- for_fold dst_files (remove_if_obsolete_file src_files) 0 ;;
  if (0 <? removed_count)%nat then log INFO (msg_files_removed removed_count)
  else log INFO msg_no_obsolete_file.

End Files.

(** A second skip predicate, for comparison: the set literal without the
    entry ["._.DS_Store"], everything else as in [should_skip_file]. *)
Definition skip_files_reduced : gset string :=
  {[ ".DS_Store"; "Thumbs.db"; "Desktop.ini"; ".localized"; "__MACOSX" ]}.

Definition should_skip_file_reduced (filename : string) : bool :=
  if String.prefix "._" filename then true
  else bool_decide (filename ∈ skip_files_reduced).

(** A hasher for running the program on examples: the state is the list of
    bytes fed so far, the digest is that list read as a string. *)
#[refine] Instance list_hasher : Hasher := {|
  hasher := list Byte.byte;
  hash_new := [];
  hash_update := λ h block, h ++ block;
  hexdigest := string_of_list_byte
|}.
Proof.
  - intros h. apply app_nil_r.
  - intros h a b. symmetry. apply app_assoc.
Defined.

(** A Hoare triple: from a world that satisfies [P], the result and the final
    world of [m] satisfy [Q]. *)
Definition hoare {A} (P : world → Prop) (m : M A) (Q : result A → world → Prop) : Prop :=
  ∀ w, P w → Q (m w).1 (m w).2.

(** The answer of [should_copy], as a function of the file system. *)
Definition verdict `{Hasher} (fs : gmap path entry) (src dst : path) : result bool :=
  match fs !! dst with
  | None => Ok true
  | Some d =>
      match fs !! src with
      | None => Raise FileNotFoundError
      | Some s =>
          if (entry_mtime s >? entry_mtime d)%Z then
            match s, d with
            | File _ src_data, File _ dst_data =>
                Ok (bool_decide (digest src_data ≠ digest dst_data))
            | File _ _, Dir _ => Raise IsADirectoryError
            | Dir _, _ => Raise IsADirectoryError
            end
          else Ok false
      end
  end.

Definition example_classifier_world : world :=
  World (list_to_map
           [ ([], Dir 0);
             (["src"], Dir 1); (["dst"], Dir 1);
             (["src"; "new.txt"], File 7 [Byte.x61]);
             (["src"; "a.txt"], File 9 [Byte.x61]);
             (["dst"; "a.txt"], File 5 [Byte.x62]);
             (["src"; "b.txt"], File 5 [Byte.x61]);
             (["dst"; "b.txt"], File 5 [Byte.x62]) ]) 10 [].

Definition example_tasks : list (path * path) :=
  map (λ i, (["src"; pretty i], [pretty i])) (seq 0 250).

(** Every directory from [top] down to [top ++ q] is a directory: the walk
    that starts at [top] visits [top ++ q]. *)
Definition reachable (fs : gmap path entry) (top q : path) : Prop :=
  ∀ q', q' `prefix_of` q → isdir fs (top ++ q') = true.

(** The lists the two scans return on a file system. *)
Definition file_listing (fs : gmap path entry) (base_dir : path) (apply_skip_filter : bool)
  : list (path * path) :=
  flat_map (λ '(root, _, files),
     flat_map (λ f,
       if apply_skip_filter && should_skip_file f then []
       else let abs_path := root ++ [f] in
            [(abs_path, relative_to abs_path base_dir)]) files)
    (walk_fuel (S (longest_path fs)) fs base_dir).

Definition dir_listing (fs : gmap path entry) (base_dir : path) : list (path * path) :=
  flat_map (λ '(root, dirs, _),
     map (λ d, let abs_path := root ++ [d] in
               (abs_path, relative_to abs_path base_dir)) dirs)
    (walk_fuel (S (longest_path fs)) fs base_dir).

(** A file below [base]: an entry that is not a directory, in a directory the
    walk reaches. *)
Definition file_under (fs : gmap path entry) (base rel : path) : Prop :=
  rel ≠ [] ∧ reachable fs base (parent rel) ∧
  is_Some (fs !! (base ++ rel)) ∧ isdir fs (base ++ rel) = false.

(** A directory below [base]. *)
Definition dir_under (fs : gmap path entry) (base rel : path) : Prop :=
  rel ≠ [] ∧ reachable fs base rel.

Definition shape (e : entry) : entry :=
  match e with File m d => File m d | Dir _ => Dir 0 end.

Definition shape_at (fs : gmap path entry) (p : path) : option entry :=
  shape <$> fs !! p.

(** Two file systems of the same shape. *)
Definition same_shape (fs fs' : gmap path entry) : Prop :=
  ∀ q, shape_at fs' q = shape_at fs q.

(** ** Well-formed file systems: the root is a directory and every entry
    lies in a directory. *)
Definition wf (fs : gmap path entry) : Prop :=
  isdir fs [] = true ∧ ∀ p, is_Some (fs !! p) → isdir fs (parent p) = true.

Definition wf_check (fs : gmap path entry) : bool :=
  isdir fs [] && forallb (λ kv, isdir fs (parent kv.1)) (map_to_list fs).

(** [fs'] is [fs] with the shape at [p] replaced by [o]. *)
Definition shape_upd (fs : gmap path entry) (p : path) (o : option entry)
    (fs' : gmap path entry) : Prop :=
  ∀ q, shape_at fs' q = if decide (q = p) then o else shape_at fs q.

(** The trace grows by events of the class [C]. *)
Definition trace_ext (C : event → Prop) (w w' : world) : Prop :=
  ∃ t, trace w' = trace w ++ t ∧ Forall C t.

(** Only directories were added, at places in [L]. *)
Definition dirs_added (L : path → Prop) (fs fs' : gmap path entry) : Prop :=
  ∀ q, shape_at fs' q = shape_at fs q ∨ (fs !! q = None ∧ isdir fs' q = true ∧ L q).

(** From [w0] to [w] the clock stood still, the trace grew by events of the
    class [C], directories were added at places in [L] and nothing else
    changed shape. *)
Definition grows (C : event → Prop) (L : path → Prop) (w0 w : world) : Prop :=
  clock w = clock w0 ∧ trace_ext C w0 w ∧
  dirs_added L (files w0) (files w) ∧ (wf (files w0) → wf (files w)).

(** The events of the four stages of a run. *)
Definition setup_event (e : event) : Prop :=
  match e with Walk _ | Mkdir _ | Log _ _ => True | _ => False end.

Definition copy_event (e : event) : Prop :=
  match e with Pool _ | CopyFile _ _ | Log _ _ => True | _ => False end.

Definition delete_event (e : event) : Prop :=
  match e with Remove _ | Log _ _ => True | _ => False end.

Definition cleanup_event (e : event) : Prop :=
  match e with Walk _ | Rmdir _ | Log _ _ => True | _ => False end.

(** The places where [sync_directories] may create a directory: the mirror
    images of the directories below the source, and their ancestors. *)
Definition mirror (fs : gmap path entry) (src dst : path) (q : path) : Prop :=
  ∃ rel, dir_under fs src rel ∧ q `prefix_of` dst ++ rel.

(** No file stands at [p] or above it. *)
Definition clear_way (fs : gmap path entry) (p : path) : Prop :=
  ∀ q, q `prefix_of` p → path_exists fs q = true → isdir fs q = true.

(** The tasks for which [should_copy] answers true. *)
Definition wanted `{Hasher} (fs : gmap path entry) (dst : path) (t : path * path) : bool :=
  match verdict fs t.1 (dst ++ t.2) with Ok true => true | _ => false end.

Definition decided `{Hasher} (fs : gmap path entry) (dst : path) (t : path * path) : Prop :=
  ∃ b, verdict fs t.1 (dst ++ t.2) = Ok b.

(** The world in which [sync_folders] creates the destination folder. *)
Definition started (src dst : path) (w : world) : world :=
  World (files w) (clock w) (trace w ++ [Log INFO (MsgSyncStart src dst)]).

(** An example: a source with a file to update, a new file in a
    sub-directory and Finder files; a destination with an older copy, files
    that have no source and Finder files of its own. *)
Definition example_world : world :=
  World (list_to_map
           [ ([], Dir 0);
             (["src"], Dir 1);
             (["src"; "a.txt"], File 9 [Byte.x61; Byte.x32]);
             (["src"; ".DS_Store"], File 9 [Byte.x00]);
             (["src"; "sub"], Dir 1);
             (["src"; "sub"; "b.txt"], File 4 [Byte.x62]);
             (["dst"], Dir 2);
             (["dst"; "a.txt"], File 5 [Byte.x61]);
             (["dst"; "old.txt"], File 5 [Byte.x6f]);
             (["dst"; ".DS_Store"], File 5 [Byte.x00]);
             (["dst"; "._a.txt"], File 5 [Byte.x00]);
             (["dst"; "stale"], Dir 2);
             (["dst"; "stale"; "x.txt"], File 5 [Byte.x78]) ]) 10 [].

Definition example_plan : result (list (path * path) * list path) * world :=
  sync_plan ["src"] ["dst"] example_world.

Definition example_copy_tasks : list (path * path) :=
  match example_plan.1 with Ok plan => plan.1 | Raise _ => [] end.

Definition example_delete_tasks : list path :=
  match example_plan.1 with Ok plan => plan.2 | Raise _ => [] end.

(** The task [thread_copy] of [copy_worker]. *)
Definition copy_task (destination_folder : path) (t : path * path) : M unit :=
  let '(src_file, rel_path) := t in
  let dst_file := destination_folder ++ rel_path in
  try_except
    (copy_file src_file dst_file ;;
     log DEBUG (MsgCopied rel_path))
    (λ e, log ERROR (MsgCopyError src_file e)).

(** The world in which the workers of the pool start. *)
Definition pooled (cpu_count : positive) (copy_tasks : list (path * path)) (w : world)
  : world :=
  World (files w) (clock w)
        (trace w ++ [Pool (num_processes cpu_count (Z.of_nat (length copy_tasks)))]).

(** The copy phase when nothing stands in the way: each task reads a file,
    writes it to a place of the destination that is not a directory and whose
    directory exists, and no task writes what another reads.  Then every task
    succeeds, and the destination of each task gets the shape of its
    source. *)
Definition copy_ready (fs : gmap path entry) (src dst : path)
    (copy_tasks : list (path * path)) : Prop :=
  ∀ a rel, (a, rel) ∈ copy_tasks →
    a = src ++ rel ∧ (∃ m d, fs !! a = Some (File m d)) ∧
    isdir fs (parent (dst ++ rel)) = true ∧ isdir fs (dst ++ rel) = false.

(** Only entries at places in [D] were removed: files when [dirs] is false,
    directories when it is true. *)
Definition removed (D : path → Prop) (dirs : bool) (fs fs' : gmap path entry) : Prop :=
  ∀ q, shape_at fs' q = shape_at fs q ∨
       (D q ∧ is_Some (fs !! q) ∧ isdir fs q = dirs ∧ fs' !! q = None).

(** From [w0] to [w]: the clock stood still, the trace grew by events of the
    class [C], entries at places in [D] were removed and nothing else changed
    shape. *)
Definition shrinks (C : event → Prop) (D : path → Prop) (dirs : bool) (w0 w : world) : Prop :=
  clock w = clock w0 ∧ trace_ext C w0 w ∧
  removed D dirs (files w0) (files w) ∧ (wf (files w0) → wf (files w)).

(** [a] is not shallower than [b]. *)
Definition deeper_first (a b : path * path) : Prop := count_sep b.2 ≤ count_sep a.2.

(** The world in which the loop of [remove_obsolete_directories] starts. *)
Definition walked (src dst : path) (w : world) : world :=
  World (files w) (clock w) ((trace w ++ [Walk src]) ++ [Walk dst]).

(** The places where [remove_obsolete_directories] may remove a directory. *)
Definition obsolete (fs : gmap path entry) (src dst : path) (q : path) : Prop :=
  ∃ rel, q = dst ++ rel ∧ dir_under fs dst rel ∧ ¬ dir_under fs src rel.

(** Neither folder lies in the other. *)
Definition separate (src dst : path) : Prop :=
  ¬ src `prefix_of` dst ∧ ¬ dst `prefix_of` src.

(** [fs'] has the shape of [fs] at [base] and below. *)
Definition agree_below (base : path) (fs fs' : gmap path entry) : Prop :=
  ∀ x, shape_at fs' (base ++ x) = shape_at fs (base ++ x).

(** The places where the first stage of a run may create a directory. *)
Definition mirrored (fs : gmap path entry) (src dst : path) (q : path) : Prop :=
  q `prefix_of` dst ∨ ∃ rel, q = dst ++ rel ∧ dir_under fs src rel.

(** Source and destination do not conflict: the file system is well formed,
    neither folder lies in the other, the source folder exists, no file
    stands at the destination folder or above it, no file of the destination
    stands where the source has a directory, and no directory of the
    destination stands where the source has a file that is not skipped. *)
Definition compatible (src dst : path) (fs : gmap path entry) : Prop :=
  wf fs ∧ separate src dst ∧ path_exists fs src = true ∧ clear_way fs dst ∧
  (∀ rel, dir_under fs src rel → path_exists fs (dst ++ rel) = true →
          isdir fs (dst ++ rel) = true) ∧
  (∀ rel, file_under fs src rel → should_skip_file (basename rel) = false →
          isdir fs (dst ++ rel) = false).

(** The destination mirrors the source: every directory of the source has
    its directory, every file of the source that is not skipped has a file
    that [should_copy] accepts, and every file of the destination is such a
    file. *)
Definition synced `{Hasher} (src dst : path) (fs : gmap path entry) : Prop :=
  wf fs ∧ separate src dst ∧ path_exists fs src = true ∧ isdir fs dst = true ∧
  (∀ rel, dir_under fs src rel → isdir fs (dst ++ rel) = true) ∧
  (∀ rel, file_under fs src rel → should_skip_file (basename rel) = false →
          (∃ m d, fs !! (dst ++ rel) = Some (File m d)) ∧
          verdict fs (src ++ rel) (dst ++ rel) = Ok false) ∧
  (∀ rel, file_under fs dst rel →
          should_skip_file (basename rel) = false ∧ file_under fs src rel).

(** [compatible], as a test that can be run. *)
Definition compatible_check (src dst : path) (fs : gmap path entry) : bool :=
  wf_check fs &&
  bool_decide (¬ src `prefix_of` dst ∧ ¬ dst `prefix_of` src) &&
  path_exists fs src &&
  forallb (λ n, let q := take n dst in negb (path_exists fs q) || isdir fs q)
          (seq 0 (S (length dst))) &&
  forallb (λ t, negb (path_exists fs (dst ++ t.2)) || isdir fs (dst ++ t.2))
          (dir_listing fs src) &&
  forallb (λ t, negb (isdir fs (dst ++ t.2))) (file_listing fs src true).

(** A destination that conflicts with its source: the source has the
    directory [d] with a file in it, the destination has a file named [d]. *)
Definition conflict_world : world :=
  World (list_to_map
           [ ([], Dir 0);
             (["s"], Dir 1);
             (["s"; "d"], Dir 1);
             (["s"; "d"; "x"], File 5 [Byte.x76]);
             (["t"], Dir 1);
             (["t"; "d"], File 3 []) ])
        100 [].

(** The fourth scenario: the destination has a directory [stale] that the
    source does not have, with one file in it; both have the directory
    [keep]. *)
Definition stale_world : world :=
  World (list_to_map
           [ ([], Dir 0);
             (["src"], Dir 1);
             (["src"; "a.txt"], File 5 [Byte.x76; Byte.x31]);
             (["src"; "keep"], Dir 1);
             (["dst"], Dir 1);
             (["dst"; "keep"], Dir 2);
             (["dst"; "stale"], Dir 2);
             (["dst"; "stale"; "old.txt"], File 3 [Byte.x6f]) ])
        100 [].

(** From [fs] to [fs']: every change of shape (of an entry, its kind, the
    content or the modification time of a file) is at the destination folder
    or below it, or is the creation of a missing directory above it. *)
Definition within (dst : path) (fs fs' : gmap path entry) : Prop :=
  ∀ q, shape_at fs' q = shape_at fs q ∨ dst `prefix_of` q ∨
       (q `prefix_of` dst ∧ fs !! q = None ∧ isdir fs' q = true).

(** No file stands at [p] or below it. *)
Definition bare (fs : gmap path entry) (p : path) : Prop :=
  ∀ x m d, fs !! (p ++ x) ≠ Some (File m d).

(** A destination with a chain of directories that the source does not
    have, none of which holds a file. *)
Definition nested_world : world :=
  World (list_to_map
           [ ([], Dir 0);
             (["src"], Dir 1);
             (["src"; "keep"], Dir 1);
             (["dst"], Dir 1);
             (["dst"; "keep"], Dir 2);
             (["dst"; "old"], Dir 2);
             (["dst"; "old"; "inner"], Dir 2);
             (["dst"; "old"; "inner"; "deep"], Dir 2) ])
        100 [].

(** The log record of a copy task: copied, or failed with a cause. *)
Definition copy_record (t : path * path) (outcome : option exn) : event :=
  match outcome with
  | None => Log DEBUG (MsgCopied t.2)
  | Some e => Log ERROR (MsgCopyError t.1 e)
  end.

Definition is_log (e : event) : bool :=
  match e with Log _ _ => true | _ => false end.

(** The log record of a delete task: removed, or failed with a cause. *)
Definition delete_record (p : path) (outcome : option exn) : event :=
  match outcome with
  | None => Log INFO (MsgRemoved p)
  | Some e => Log ERROR (MsgRemoveError p e)
  end.

(** A source path that is a file, and a destination with files and a
    directory. *)
Definition file_source_world : world :=
  World (list_to_map
           [ ([], Dir 0);
             (["src"], File 3 [Byte.x73]);
             (["dst"], Dir 1);
             (["dst"; "a.txt"], File 5 [Byte.x61]);
             (["dst"; "sub"], Dir 2);
             (["dst"; "sub"; "b.txt"], File 5 [Byte.x62]) ])
        100 [].

(** A source with two files and a directory, and no destination yet. *)
Definition fresh_world : world :=
  World (list_to_map
           [ ([], Dir 0);
             (["src"], Dir 1);
             (["src"; "a.txt"], File 5 [Byte.x61]);
             (["src"; "sub"], Dir 1);
             (["src"; "sub"; "b.txt"], File 7 [Byte.x62]) ])
        100 [].

(** A destination with a directory where the source has a newer file. *)
Definition blocked_world : world :=
  World (list_to_map
           [ ([], Dir 0);
             (["src"], Dir 1);
             (["src"; "a"], File 9 [Byte.x61]);
             (["dst"], Dir 1);
             (["dst"; "a"], Dir 2) ])
        100 [].

(** From [fs] to [fs'] directories stay directories and files stay files,
    with whatever content. *)
Definition keeps (fs fs' : gmap path entry) : Prop :=
  ∀ q, (isdir fs q = true → isdir fs' q = true) ∧
       (∀ m d, fs !! q = Some (File m d) → ∃ m' d', fs' !! q = Some (File m' d')).

(** * Verification *)

(** ** The skip predicate *)

Lemma prefix_resource_fork (filename : string) :
  String.prefix "._" filename = true ↔ ∃ rest, filename = "._" +:+ rest.
Proof.
  split.
  - destruct filename as [|a [|b rest]]; cbn [String.prefix].
    + discriminate.
    + destruct (Ascii.ascii_dec "."%char a); discriminate.
    + destruct (Ascii.ascii_dec "."%char a) as [<-|]; [|discriminate].
      destruct (Ascii.ascii_dec "_"%char b) as [<-|]; [|discriminate].
      intros _. by exists rest.
  - intros [rest ->]. cbn [String.prefix String.append].
    destruct (Ascii.ascii_dec "."%char "."%char); [|congruence].
    destruct (Ascii.ascii_dec "_"%char "_"%char); [|congruence].
    by destruct rest.
Qed.

Lemma should_skip_file_iff (filename : string) :
  should_skip_file filename = true ↔
  (∃ rest, filename = "._" +:+ rest) ∨
  filename ∈ [".DS_Store"; "._.DS_Store"; "Thumbs.db"; "Desktop.ini"; ".localized"; "__MACOSX"].
Proof.
  unfold should_skip_file. rewrite <- prefix_resource_fork.
  destruct (String.prefix "._" filename); [tauto|].
  rewrite bool_decide_eq_true. unfold skip_files.
  rewrite !elem_of_union, !elem_of_singleton, !elem_of_cons, elem_of_nil.
  intuition congruence.
Qed.

(** C10: the entry ["._.DS_Store"] of the skip set is redundant; with or
    without it the predicate is the same function, because the prefix rule
    already accepts that name. *)
Theorem should_skip_file_reduced_eq (filename : string) :
  should_skip_file_reduced filename = should_skip_file filename.
Proof.
  unfold should_skip_file_reduced, should_skip_file.
  destruct (String.prefix "._" filename) eqn:Hpre; [done|].
  apply bool_decide_ext. unfold skip_files_reduced, skip_files.
  rewrite !elem_of_union, !elem_of_singleton.
  assert (filename ≠ "._.DS_Store") by (intros ->; discriminate).
  tauto.
Qed.

(** ** Running monadic code *)

Lemma bind_ok {A B} (m : M A) (k : A → M B) w a w1 :
  m w = (Ok a, w1) → bind m k w = k a w1.
Proof. unfold bind. by intros ->. Qed.

Lemma bind_raise {A B} (m : M A) (k : A → M B) w e w1 :
  m w = (Raise e, w1) → bind m k w = (Raise e, w1).
Proof. unfold bind. by intros ->. Qed.

Lemma try_except_ok {A} (m : M A) (h : exn → M A) w a w1 :
  m w = (Ok a, w1) → try_except m h w = (Ok a, w1).
Proof. unfold try_except. by intros ->. Qed.

Lemma try_except_raise {A} (m : M A) (h : exn → M A) w e w1 :
  m w = (Raise e, w1) → try_except m h w = h e w1.
Proof. unfold try_except. by intros ->. Qed.

Lemma bind_inv {A B} (m : M A) (k : A → M B) w r w' :
  bind m k w = (r, w') →
  (∃ a w1, m w = (Ok a, w1) ∧ k a w1 = (r, w')) ∨
  (∃ e, m w = (Raise e, w') ∧ r = Raise e).
Proof.
  unfold bind. destruct (m w) as [[a|e] w1]; intros Heq.
  - left. eauto.
  - right. exists e. by inversion Heq.
Qed.

Lemma gets_inv {A} (f : gmap path entry → A) w r w' :
  gets f w = (r, w') → r = Ok (f (files w)) ∧ w' = w.
Proof. by intros [= <- <-]. Qed.

Lemma lift_inv {A} (f : gmap path entry → result A) w r w' :
  lift f w = (r, w') → r = f (files w) ∧ w' = w.
Proof. by intros [= <- <-]. Qed.

Lemma ret_inv {A} (a : A) w r w' : ret a w = (r, w') → r = Ok a ∧ w' = w.
Proof. by intros [= <- <-]. Qed.

Lemma raise_inv {A} e w (r : result A) w' : raise e w = (r, w') → r = Raise e ∧ w' = w.
Proof. by intros [= <- <-]. Qed.

Lemma emit_inv e w r w' :
  emit e w = (r, w') → r = Ok tt ∧ w' = World (files w) (clock w) (trace w ++ [e]).
Proof. by intros [= <- <-]. Qed.

Lemma try_except_inv {A} (m : M A) (h : exn → M A) w r w' :
  try_except m h w = (r, w') →
  (∃ a, m w = (Ok a, w') ∧ r = Ok a) ∨
  (∃ e w1, m w = (Raise e, w1) ∧ h e w1 = (r, w')).
Proof.
  unfold try_except. destruct (m w) as [[a|e] w1]; intros Heq.
  - left. exists a. by inversion Heq.
  - right. eauto.
Qed.

Lemma hoare_intro {A} (P : world → Prop) (m : M A) (Q : result A → world → Prop) :
  (∀ w r w', P w → m w = (r, w') → Q r w') → hoare P m Q.
Proof. intros Hm w HP. destruct (m w) as [r w'] eqn:Hrun. eauto. Qed.

Lemma hoare_elim {A} (P : world → Prop) (m : M A) (Q : result A → world → Prop) w r w' :
  hoare P m Q → P w → m w = (r, w') → Q r w'.
Proof. intros Hm HP Hrun. specialize (Hm w HP). by rewrite Hrun in Hm. Qed.

Lemma hoare_conseq {A} (P P' : world → Prop) (m : M A) (Q Q' : result A → world → Prop) :
  hoare P' m Q' → (∀ w, P w → P' w) → (∀ r w, Q' r w → Q r w) → hoare P m Q.
Proof. unfold hoare. eauto. Qed.

Lemma hoare_ret {A} (P : world → Prop) (a : A) (Q : result A → world → Prop) :
  (∀ w, P w → Q (Ok a) w) → hoare P (ret a) Q.
Proof. unfold hoare, ret. eauto. Qed.

Lemma hoare_raise {A} (P : world → Prop) e (Q : result A → world → Prop) :
  (∀ w, P w → Q (Raise e) w) → hoare P (raise e) Q.
Proof. unfold hoare, raise. eauto. Qed.

Lemma hoare_gets {A} (P : world → Prop) (f : gmap path entry → A) (Q : result A → world → Prop) :
  (∀ w, P w → Q (Ok (f (files w))) w) → hoare P (gets f) Q.
Proof. unfold hoare, gets. eauto. Qed.

Lemma hoare_lift {A} (P : world → Prop) (f : gmap path entry → result A)
    (Q : result A → world → Prop) :
  (∀ w, P w → Q (f (files w)) w) → hoare P (lift f) Q.
Proof. unfold hoare, lift. eauto. Qed.

Lemma hoare_emit (P : world → Prop) e (Q : result unit → world → Prop) :
  (∀ w, P w → Q (Ok tt) (World (files w) (clock w) (trace w ++ [e]))) →
  hoare P (emit e) Q.
Proof. unfold hoare, emit. eauto. Qed.

Lemma hoare_bind {A B} (P : world → Prop) (m : M A) (k : A → M B)
    (Q1 : result A → world → Prop) (Q : result B → world → Prop) :
  hoare P m Q1 →
  (∀ a, hoare (Q1 (Ok a)) (k a) Q) →
  (∀ e w, Q1 (Raise e) w → Q (Raise e) w) →
  hoare P (bind m k) Q.
Proof.
  unfold hoare, bind. intros Hm Hk He w HP. specialize (Hm w HP).
  destruct (m w) as [[a|e] w1]; simpl in *; eauto.
Qed.

Lemma hoare_try {A} (P : world → Prop) (m : M A) (h : exn → M A)
    (Q1 : result A → world → Prop) (Q : result A → world → Prop) :
  hoare P m Q1 →
  (∀ a w, Q1 (Ok a) w → Q (Ok a) w) →
  (∀ e, hoare (Q1 (Raise e)) (h e) Q) →
  hoare P (try_except m h) Q.
Proof.
  unfold hoare, try_except. intros Hm Hok Hh w HP. specialize (Hm w HP).
  destruct (m w) as [[a|e] w1]; simpl in *; eauto.
Qed.

(** The loop rule: the invariant speaks of the elements already processed
    and of the loop variable. *)
Lemma hoare_for_fold {A S} (l : list A) (body : A → S → M S)
    (I : list A → S → world → Prop) (E : exn → world → Prop) :
  (∀ done x rest s, l = done ++ x :: rest →
     hoare (I done s) (body x s)
       (λ r w, match r with Ok s' => I (done ++ [x]) s' w | Raise e => E e w end)) →
  ∀ s, hoare (I [] s) (for_fold l body s)
         (λ r w, match r with Ok s' => I l s' w | Raise e => E e w end).
Proof.
  intros Hbody.
  cut (∀ rest done s, l = done ++ rest →
         hoare (I done s) (for_fold rest body s)
           (λ r w, match r with Ok s' => I l s' w | Raise e => E e w end)).
  { intros Hgen s. by apply (Hgen l []). }
  induction rest as [|x rest IH]; intros done s Hl.
  - simpl. apply hoare_ret. intros w HI. rewrite Hl, app_nil_r. done.
  - simpl. eapply hoare_bind.
    + by apply Hbody with (rest := rest).
    + intros s'. simpl. apply IH. by rewrite <- app_assoc.
    + done.
Qed.

Lemma hoare_for_each {A} (l : list A) (body : A → M unit)
    (I : list A → world → Prop) (E : exn → world → Prop) :
  (∀ done x rest, l = done ++ x :: rest →
     hoare (I done) (body x)
       (λ r w, match r with Ok _ => I (done ++ [x]) w | Raise e => E e w end)) →
  hoare (I []) (for_each l body)
    (λ r w, match r with Ok _ => I l w | Raise e => E e w end).
Proof.
  intros Hbody.
  cut (∀ rest done, l = done ++ rest →
         hoare (I done) (for_each rest body)
           (λ r w, match r with Ok _ => I l w | Raise e => E e w end)).
  { intros Hgen. by apply (Hgen l []). }
  induction rest as [|x rest IH]; intros done Hl.
  - simpl. apply hoare_ret. intros w HI. rewrite Hl, app_nil_r. done.
  - simpl. eapply hoare_bind.
    + by apply Hbody with (rest := rest).
    + intros []. simpl. apply IH. by rewrite <- app_assoc.
    + done.
Qed.

(** ** The change classifier *)

Section Classifier.
Context `{Hasher}.

Lemma read_blocks_full (n fuel : nat) (h : hasher) (data : list Byte.byte) :
  0 < n → length data < fuel → read_blocks fuel n h data = hash_update h data.
Proof.
  intros Hn. revert h data.
  induction fuel as [|k IH]; intros h data Hlen; [lia|].
  cbn [read_blocks].
  destruct (take n data) as [|b chunk] eqn:Hchunk.
  - destruct data as [|b data]; [by rewrite hash_update_nil|].
    destruct n; [lia|discriminate].
  - rewrite IH.
    + by rewrite hash_update_app, <- Hchunk, take_drop.
    + assert (length (take n data) ≠ 0) by (by rewrite Hchunk).
      rewrite length_take in *. rewrite length_drop. simpl in Hlen. lia.
Qed.

Lemma block_size_pos : 0 < block_size.
Proof. unfold block_size. lia. Qed.

(** Reading in blocks of 8192 bytes gives the digest of the whole content. *)
Lemma file_hash_run (p : path) (w : world) :
  file_hash p w =
  (match read_file (files w) p with Ok data => Ok (digest data) | Raise e => Raise e end, w).
Proof.
  unfold file_hash, bind, lift, ret, digest.
  destruct (read_file (files w) p) as [data|e]; [|done].
  by rewrite read_blocks_full by (apply block_size_pos || lia).
Qed.

(** [should_copy] only reads, and what it answers is [verdict]. *)
Lemma should_copy_run (src dst : path) (w : world) :
  should_copy src dst w = (verdict (files w) src dst, w).
Proof.
  unfold should_copy, verdict, bind, gets, lift, ret. cbv beta.
  unfold path_exists, getmtime.
  destruct (files w !! dst) as [d|] eqn:Hd; cbn [negb]; [|done].
  destruct (files w !! src) as [s|] eqn:Hs; [|done].
  rewrite ?Hd. cbv beta iota.
  destruct (entry_mtime s >? entry_mtime d)%Z; [|done].
  rewrite !file_hash_run. unfold read_file. rewrite Hs.
  destruct s as [ms cs|ms]; [|done]. rewrite Hd.
  destruct d as [md cd|md]; [|done]. do 2 f_equal.
  destruct (String.eqb_spec (digest cs) (digest cd)) as [Heq|Hne]; simpl.
  - by rewrite bool_decide_eq_false_2 by (intros Hne; by apply Hne).
  - by rewrite bool_decide_eq_true_2.
Qed.

(** C1: [should_copy] answers true when the destination does not exist;
    when it exists and the source is strictly newer, it answers true exactly
    when the digests of the two whole contents differ; when the destination
    is as recent as the source or more recent, it answers false, whatever
    the two contents are. *)
Theorem should_copy_spec (w : world) (src dst : path) :
  (path_exists (files w) dst = false → should_copy src dst w = (Ok true, w)) ∧
  (∀ src_mtime dst_mtime,
     path_exists (files w) dst = true →
     getmtime (files w) src = Ok src_mtime →
     getmtime (files w) dst = Ok dst_mtime →
     (∀ src_data dst_data,
        (src_mtime > dst_mtime)%Z →
        read_file (files w) src = Ok src_data →
        read_file (files w) dst = Ok dst_data →
        should_copy src dst w
        = (Ok (bool_decide (digest src_data ≠ digest dst_data)), w)) ∧
     ((src_mtime ≤ dst_mtime)%Z → should_copy src dst w = (Ok false, w))).
Proof.
  rewrite should_copy_run. unfold verdict, path_exists, getmtime, read_file.
  split.
  - by destruct (files w !! dst).
  - intros ms md. destruct (files w !! dst) as [d|]; [intros _|done].
    destruct (files w !! src) as [s|]; [|done]. intros [= <-] [= <-]. split.
    + intros cs cd Hgt. destruct (Z.gtb_spec (entry_mtime s) (entry_mtime d)); [|lia].
      destruct s as [? cs'|]; [|done]. intros [= ->].
      destruct d as [? cd'|]; [|done]. by intros [= ->].
    + intros Hle. by destruct (Z.gtb_spec (entry_mtime s) (entry_mtime d)); [lia|].
Qed.

End Classifier.

(** The three cases of [should_copy] on an example: a missing destination,
    a newer source with another content, and a destination as recent as a
    source with another content. *)
Lemma should_copy_spec_witness :
  should_copy ["src"; "new.txt"] ["dst"; "new.txt"] example_classifier_world
  = (Ok true, example_classifier_world) ∧
  should_copy ["src"; "a.txt"] ["dst"; "a.txt"] example_classifier_world
  = (Ok true, example_classifier_world) ∧
  should_copy ["src"; "b.txt"] ["dst"; "b.txt"] example_classifier_world
  = (Ok false, example_classifier_world).
Proof.
  split; [|split].
  - apply (should_copy_spec example_classifier_world). reflexivity.
  - refine (proj1 (proj2 (should_copy_spec example_classifier_world
              ["src"; "a.txt"] ["dst"; "a.txt"]) 9%Z 5%Z _ _ _) [Byte.x61] [Byte.x62] _ _ _);
      (reflexivity || lia).
  - refine (proj2 (proj2 (should_copy_spec example_classifier_world
              ["src"; "b.txt"] ["dst"; "b.txt"]) 5%Z 5%Z _ _ _) _);
      (reflexivity || lia).
Defined.

(** ** The guard on the source folder *)

Section Guard.
Context `{Hasher}.
Variable cpu_count : positive.

(** C7: when the source folder does not exist, [sync_folders] raises
    [ValueError] before the plan is built and leaves the world as it found
    it: the file system is the same (the destination folder is not created,
    nothing is copied or deleted) and the trace has no new event (no
    directory was walked, nothing was logged). *)
Theorem sync_folders_missing_source (w : world) (src dst : path) (threads : Z) :
  path_exists (files w) src = false →
  sync_plan src dst w = (Raise ValueError, w) ∧
  sync_folders cpu_count src dst threads w = (Raise ValueError, w).
Proof.
  intros Hsrc.
  assert (sync_plan src dst w = (Raise ValueError, w)) as Hplan.
  { unfold sync_plan, bind, gets, raise. cbv beta. by rewrite Hsrc. }
  split; [done|]. unfold sync_folders. by rewrite (bind_raise _ _ _ _ _ Hplan).
Qed.

End Guard.

Lemma sync_folders_missing_source_witness :
  sync_plan ["backup"] ["dst"] example_classifier_world
  = (Raise ValueError, example_classifier_world) ∧
  sync_folders 4 ["backup"] ["dst"] 4 example_classifier_world
  = (Raise ValueError, example_classifier_world).
Proof. apply sync_folders_missing_source. reflexivity. Defined.

(** ** The chunks of the copy phase *)

Lemma range_fuel_lookup (fuel : nat) (i stop step : Z) (k : nat) (x : Z) :
  range_fuel fuel i stop step !! k = Some x →
  x = (i + Z.of_nat k * step)%Z ∧ (x < stop)%Z.
Proof.
  revert i k. induction fuel as [|fuel IH]; intros i k; [done|].
  cbn [range_fuel]. destruct (Z.ltb_spec i stop); [|done].
  destruct k as [|k]; simpl.
  - intros [= <-]. lia.
  - intros Hk. apply IH in Hk. lia.
Qed.

Lemma concat_slices {A} (l : list A) (size : Z) (fuel : nat) (i : Z) :
  (1 ≤ size)%Z → (0 ≤ i)%Z → (Z.of_nat (length l) - i ≤ Z.of_nat fuel)%Z →
  concat (map (λ j, slice l j (j + size))
              (range_fuel fuel i (Z.of_nat (length l)) size))
  = drop (Z.to_nat i) l.
Proof.
  intros Hsize. revert i. induction fuel as [|fuel IH]; intros i Hi Hfuel.
  - simpl. rewrite drop_ge; [done|lia].
  - cbn [range_fuel]. destruct (Z.ltb_spec i (Z.of_nat (length l))).
    + cbn [map concat]. rewrite IH by lia. unfold slice.
      replace (Z.to_nat (i + size)) with (Z.to_nat i + Z.to_nat size) by lia.
      replace (Z.to_nat (i + size - i)) with (Z.to_nat size) by lia.
      rewrite <- drop_drop. apply take_drop.
    + simpl. rewrite drop_ge; [done|lia].
Qed.

Section Chunks.
Context `{Hasher}.
Variable cpu_count : positive.

Lemma num_processes_pos (n : Z) : (1 ≤ num_processes cpu_count n)%Z.
Proof. unfold num_processes. lia. Qed.

Lemma chunk_size_pos (n : Z) : (0 ≤ n)%Z → (1 ≤ chunk_size cpu_count n)%Z.
Proof.
  intros Hn. unfold chunk_size.
  pose proof (num_processes_pos n).
  pose proof (Z.div_pos n (num_processes cpu_count n)). lia.
Qed.

(** The chunks exceed the copy count when taken [num_processes] times. *)
Lemma chunk_size_covers (n : Z) :
  (0 ≤ n)%Z → (n < num_processes cpu_count n * chunk_size cpu_count n)%Z.
Proof.
  intros Hn. unfold chunk_size.
  pose proof (num_processes_pos n) as Hpos.
  pose proof (Z.div_mod n (num_processes cpu_count n)).
  pose proof (Z.mod_pos_bound n (num_processes cpu_count n)). nia.
Qed.

Lemma concat_make_chunks {A} (tasks : list A) :
  concat (make_chunks cpu_count tasks) = tasks.
Proof.
  unfold make_chunks, py_range.
  rewrite concat_slices; [done| |lia..].
  apply chunk_size_pos. lia.
Qed.

(** C9: for a copy set that is not empty, the copy phase starts a pool of
    N = min(cpu count, max(1, count // 100)) worker processes and gives it
    one [copy_worker] call per chunk; the chunk size is count // N + 1, chunk
    number k is the slice of that size that starts at k times the size and
    is not empty, there are at most N chunks, and the chunks put one after
    the other give the copy set back: each copy task is in exactly one
    chunk. *)
Theorem make_chunks_partition (copy_tasks : list (path * path)) (dst : path) (threads : Z) :
  copy_tasks ≠ [] →
  let count := Z.of_nat (length copy_tasks) in
  let N := num_processes cpu_count count in
  let size := chunk_size cpu_count count in
  N = (Z.pos cpu_count `min` (1 `max` (count / 100)))%Z ∧
  size = (count / N + 1)%Z ∧
  copy_phase cpu_count copy_tasks dst threads
  = (process_pool N (map (λ chunk, (chunk, dst, threads)) (make_chunks cpu_count copy_tasks))
       copy_worker ;;
     log INFO MsgCopyDone) ∧
  concat (make_chunks cpu_count copy_tasks) = copy_tasks ∧
  (∀ k chunk, make_chunks cpu_count copy_tasks !! k = Some chunk →
     chunk = take (Z.to_nat size) (drop (k * Z.to_nat size) copy_tasks) ∧
     chunk ≠ [] ∧ Z.of_nat k < N)%Z ∧
  (Z.of_nat (length (make_chunks cpu_count copy_tasks)) ≤ N)%Z.
Proof.
  intros Hne count N size.
  assert (0 ≤ count)%Z as Hcount by lia.
  pose proof (chunk_size_pos count Hcount) as Hsize.
  pose proof (chunk_size_covers count Hcount) as Hcover.
  fold N size in Hsize, Hcover.
  assert (∀ k chunk, make_chunks cpu_count copy_tasks !! k = Some chunk →
     chunk = take (Z.to_nat size) (drop (k * Z.to_nat size) copy_tasks) ∧
     chunk ≠ [] ∧ (Z.of_nat k < N)%Z) as Hchunk.
  { intros k chunk. unfold make_chunks. rewrite list_lookup_fmap.
    destruct (py_range _ _ _ !! k) as [i|] eqn:Hi; [|done].
    intros [= <-]. apply range_fuel_lookup in Hi as [Hi Hlt].
    fold count size in Hi, Hlt |- *. unfold slice.
    replace (Z.to_nat (i + size - i)) with (Z.to_nat size) by lia.
    replace (Z.to_nat i) with (k * Z.to_nat size) by nia.
    split; [done|]. split; [|nia].
    intros Hnil. apply (f_equal length) in Hnil.
    rewrite length_take, length_drop in Hnil. simpl in Hnil. nia. }
  split; [done|]. split; [done|]. split; [by destruct copy_tasks|].
  split; [|split; [done|]].
  - apply concat_make_chunks.
  - destruct (make_chunks cpu_count copy_tasks) as [|c cs] eqn:Hcs using rev_ind; [simpl; lia|].
    clear IHcs. destruct (Hchunk (length cs) c) as (_ & _ & Hk).
    { rewrite ?Hcs. rewrite lookup_app_r by lia. by rewrite Nat.sub_diag. }
    rewrite length_app. simpl. lia.
Qed.

End Chunks.

Lemma make_chunks_partition_witness :
  concat (make_chunks 8 example_tasks) = example_tasks ∧
  (Z.of_nat (length (make_chunks 8 example_tasks)) ≤ num_processes 8 250)%Z.
Proof.
  destruct (make_chunks_partition 8 example_tasks ["dst"] 4)
    as (_ & _ & _ & Hconcat & _ & Hlen); [discriminate|].
  split; [exact Hconcat|exact Hlen].
Defined.

(** ** Paths and directory listings *)

Lemma parent_snoc (p : path) (n : string) : parent (p ++ [n]) = p.
Proof. apply removelast_last. Qed.

Lemma basename_snoc (p : path) (n : string) : basename (p ++ [n]) = n.
Proof. apply last_last. Qed.

Lemma path_split (p : path) : p ≠ [] → p = parent p ++ [basename p].
Proof. apply app_removelast_last. Qed.

Lemma parent_app (p q : path) : q ≠ [] → parent (p ++ q) = p ++ parent q.
Proof. apply removelast_app. Qed.

Lemma relative_to_app (base rel : path) : relative_to (base ++ rel) base = rel.
Proof. apply drop_app_length. Qed.

Lemma child_name_Some (top p : path) (n : string) :
  child_name top p = Some n ↔ p = top ++ [n].
Proof.
  unfold child_name. case_decide as Hp.
  - destruct Hp as [Hne <-]. split.
    + intros [= <-]. by apply path_split.
    + intros Heq. f_equal. rewrite Heq. apply basename_snoc.
  - split; [done|]. intros ->. destruct Hp. split.
    + by destruct top.
    + apply parent_snoc.
Qed.

Lemma elem_of_children (fs : gmap path entry) (top : path) (n : string) :
  n ∈ children fs top ↔ is_Some (fs !! (top ++ [n])).
Proof.
  unfold children. rewrite list_elem_of_omap. split.
  - intros [[p e] [Hin Hname]]. simpl in Hname.
    apply child_name_Some in Hname as ->.
    apply elem_of_map_to_list in Hin. eauto.
  - intros [e He]. exists (top ++ [n], e). split.
    + by apply elem_of_map_to_list.
    + by apply child_name_Some.
Qed.

Lemma elem_of_bool_filter {A} (f : A → bool) (l : list A) (x : A) :
  x ∈ List.filter f l ↔ x ∈ l ∧ f x = true.
Proof. rewrite !list_elem_of_In. apply filter_In. Qed.

Lemma elem_of_flat_map {A B} (f : A → list B) (l : list A) (y : B) :
  y ∈ flat_map f l ↔ ∃ x, x ∈ l ∧ y ∈ f x.
Proof.
  rewrite list_elem_of_In, in_flat_map.
  by setoid_rewrite list_elem_of_In.
Qed.

Lemma length_le_longest_path (fs : gmap path entry) (p : path) :
  is_Some (fs !! p) → length p ≤ longest_path fs.
Proof.
  intros [e He]. apply elem_of_map_to_list in He. unfold longest_path.
  induction (map_to_list fs) as [|kv l IH]; [by apply elem_of_nil in He|].
  apply elem_of_cons in He as [<-|He]; simpl; [lia|].
  specialize (IH He). lia.
Qed.

Lemma reachable_nil (fs : gmap path entry) (top : path) :
  reachable fs top [] ↔ isdir fs top = true.
Proof.
  unfold reachable. split.
  - intros Hr. rewrite <- (app_nil_r top). by apply Hr.
  - intros Hd q' ->%prefix_nil_inv. by rewrite app_nil_r.
Qed.

Lemma reachable_cons (fs : gmap path entry) (top : path) (d : string) (q : path) :
  reachable fs top (d :: q) ↔ isdir fs top = true ∧ reachable fs (top ++ [d]) q.
Proof.
  unfold reachable. split.
  - intros Hr. split.
    + rewrite <- (app_nil_r top). apply Hr, prefix_nil.
    + intros q' Hq'. rewrite <- app_assoc. apply Hr. simpl. by apply prefix_cons.
  - intros [Hd Hr] q' Hq'. destruct q' as [|d' q'].
    + by rewrite app_nil_r.
    + pose proof (prefix_cons_inv_1 _ _ _ _ Hq') as ->.
      apply prefix_cons_inv_2 in Hq'. specialize (Hr q' Hq').
      by rewrite <- app_assoc in Hr.
Qed.

Lemma reachable_prefix (fs : gmap path entry) (top q q' : path) :
  reachable fs top q → q' `prefix_of` q → reachable fs top q'.
Proof. unfold reachable. intros Hr Hq q'' Hq''. apply Hr. by etrans. Qed.

Lemma reachable_end (fs : gmap path entry) (top q : path) :
  reachable fs top q → isdir fs (top ++ q) = true.
Proof. intros Hr. by apply Hr. Qed.

Lemma reachable_snoc (fs : gmap path entry) (top q : path) (d : string) :
  reachable fs top (q ++ [d]) ↔ reachable fs top q ∧ isdir fs (top ++ q ++ [d]) = true.
Proof.
  split.
  - intros Hr. split.
    + apply (reachable_prefix _ _ _ _ Hr). by apply prefix_app_r.
    + by apply reachable_end.
  - intros [Hr Hd] q' Hq'.
    destruct (decide (q' = q ++ [d])) as [->|Hne]; [done|].
    apply Hr. destruct Hq' as [k Hk].
    destruct k as [|x k _] using rev_ind.
    + rewrite app_nil_r in Hk. congruence.
    + rewrite app_assoc in Hk. apply app_inj_tail in Hk as [-> _]. by apply prefix_app_r.
Qed.

Lemma isdir_exists (fs : gmap path entry) (p : path) :
  isdir fs p = true → is_Some (fs !! p).
Proof. unfold isdir. destruct (fs !! p); [eauto|done]. Qed.

Lemma listdir_Ok (fs : gmap path entry) (p : path) (names : list string) :
  listdir fs p = Ok names ↔ isdir fs p = true ∧ names = children fs p.
Proof.
  unfold listdir, isdir. destruct (fs !! p) as [[]|]; split; try done;
    try (by intros [? _]).
  - intros [= <-]. done.
  - by intros [_ ->].
Qed.

(** What [os.walk] yields: one triple for each directory it can reach. *)
Lemma elem_of_walk_fuel (fuel : nat) (fs : gmap path entry) (top root : path)
    (dirs nondirs : list string) :
  (root, dirs, nondirs) ∈ walk_fuel fuel fs top ↔
  ∃ q, root = top ++ q ∧ length q < fuel ∧ reachable fs top q ∧
       dirs = List.filter (λ n, isdir fs (root ++ [n])) (children fs root) ∧
       nondirs = List.filter (λ n, negb (isdir fs (root ++ [n]))) (children fs root).
Proof.
  revert top. induction fuel as [|fuel IH]; intros top.
  { simpl. split; [by intros ?%elem_of_nil|]. intros (q & _ & ? & _). lia. }
  cbn [walk_fuel]. destruct (listdir fs top) as [names|e] eqn:Hls.
  - apply listdir_Ok in Hls as [Hdir ->].
    rewrite elem_of_cons, elem_of_flat_map. split.
    + intros [[= -> -> ->]|(d & Hd & Hin)].
      * exists []. rewrite app_nil_r. repeat split; [simpl; lia|].
        by apply reachable_nil.
      * apply IH in Hin as (q & -> & Hlen & Hr & -> & ->).
        exists (d :: q). rewrite <- app_assoc. repeat split; [simpl; lia|].
        by apply reachable_cons.
    + intros (q & -> & Hlen & Hr & -> & ->). destruct q as [|d q].
      * left. by rewrite app_nil_r.
      * right. apply reachable_cons in Hr as [_ Hr]. exists d. split.
        -- apply elem_of_bool_filter. split.
           ++ apply elem_of_children, isdir_exists.
              rewrite <- (app_nil_r (top ++ [d])). apply Hr, prefix_nil.
           ++ rewrite <- (app_nil_r (top ++ [d])). apply Hr, prefix_nil.
        -- apply IH. exists q. rewrite <- app_assoc. repeat split; [simpl in *; lia|done].
  - split; [by intros ?%elem_of_nil|]. intros (q & _ & _ & Hr & _).
    assert (isdir fs top = true) as Hdir.
    { rewrite <- (app_nil_r top). apply Hr, prefix_nil. }
    assert (listdir fs top = Ok (children fs top)) as Hls' by by apply listdir_Ok.
    congruence.
Qed.

Lemma scan_files_run (base_dir : path) (flt : bool) (w : world) :
  scan_files base_dir flt w
  = (Ok (file_listing (files w) base_dir flt),
     World (files w) (clock w) (trace w ++ [Walk base_dir])).
Proof. reflexivity. Qed.

Lemma scan_directories_run (base_dir : path) (w : world) :
  scan_directories base_dir w
  = (Ok (dir_listing (files w) base_dir),
     World (files w) (clock w) (trace w ++ [Walk base_dir])).
Proof. reflexivity. Qed.

Lemma elem_of_file_listing (fs : gmap path entry) (base : path) (flt : bool) (abs rel : path) :
  (abs, rel) ∈ file_listing fs base flt ↔
  abs = base ++ rel ∧ file_under fs base rel ∧
  (flt = true → should_skip_file (basename rel) = false).
Proof.
  unfold file_listing, file_under. rewrite elem_of_flat_map. split.
  - intros ([[root dirs] nondirs] & Hw & Hin).
    apply elem_of_walk_fuel in Hw as (q & -> & _ & Hr & _ & ->).
    apply elem_of_flat_map in Hin as (f & Hf & Hin).
    apply elem_of_bool_filter in Hf as [Hf Hnd].
    apply elem_of_children in Hf. apply negb_true_iff in Hnd.
    destruct (flt && should_skip_file f) eqn:Hskip; [by apply elem_of_nil in Hin|].
    apply list_elem_of_singleton in Hin as [= -> ->].
    rewrite <- !app_assoc, relative_to_app, parent_snoc, basename_snoc.
    repeat split; try done.
    + by destruct q.
    + by rewrite app_assoc.
    + by rewrite app_assoc.
    + intros ->. done.
  - intros (-> & (Hne & Hr & Hex & Hnd) & Hskip).
    assert (∃ q f, rel = q ++ [f]) as (q & f & ->)
      by (eexists _, _; by apply path_split).
    rewrite parent_snoc in Hr. rewrite basename_snoc in Hskip.
    exists (base ++ q, List.filter (λ n, isdir fs ((base ++ q) ++ [n])) (children fs (base ++ q)),
            List.filter (λ n, negb (isdir fs ((base ++ q) ++ [n]))) (children fs (base ++ q))).
    split.
    + apply elem_of_walk_fuel. exists q. repeat split; [|done].
      apply reachable_end, isdir_exists, length_le_longest_path in Hr.
      rewrite length_app in Hr. lia.
    + apply elem_of_flat_map. exists f. split.
      * apply elem_of_bool_filter. rewrite <- app_assoc, Hnd. split; [|done].
        apply elem_of_children. by rewrite <- app_assoc.
      * destruct flt; simpl.
        -- rewrite Hskip by done. rewrite <- app_assoc, relative_to_app. by left.
        -- rewrite <- app_assoc, relative_to_app. by left.
Qed.

Lemma elem_of_dir_listing (fs : gmap path entry) (base abs rel : path) :
  (abs, rel) ∈ dir_listing fs base ↔ abs = base ++ rel ∧ dir_under fs base rel.
Proof.
  unfold dir_listing, dir_under. rewrite elem_of_flat_map. split.
  - intros ([[root dirs] nondirs] & Hw & Hin).
    apply elem_of_walk_fuel in Hw as (q & -> & _ & Hr & -> & _).
    apply list_elem_of_fmap in Hin as (d & [= -> ->] & Hd).
    apply elem_of_bool_filter in Hd as [_ Hd].
    rewrite <- !app_assoc, relative_to_app. repeat split.
    + by destruct q.
    + apply reachable_snoc. split; [done|]. by rewrite app_assoc.
  - intros (-> & Hne & Hr).
    assert (∃ q d, rel = q ++ [d]) as (q & d & ->)
      by (eexists _, _; by apply path_split).
    apply reachable_snoc in Hr as [Hr Hd].
    exists (base ++ q, List.filter (λ n, isdir fs ((base ++ q) ++ [n])) (children fs (base ++ q)),
            List.filter (λ n, negb (isdir fs ((base ++ q) ++ [n]))) (children fs (base ++ q))).
    split.
    + apply elem_of_walk_fuel. exists q. repeat split; [|done].
      apply reachable_end, isdir_exists, length_le_longest_path in Hr.
      rewrite length_app in Hr. lia.
    + apply list_elem_of_fmap. exists d. split.
      * by rewrite <- app_assoc, relative_to_app.
      * apply elem_of_bool_filter. rewrite <- app_assoc, Hd. split; [|done].
        apply elem_of_children. rewrite <- app_assoc. by apply isdir_exists.
Qed.

(** ** The shape of a file system

    The program never reads the modification time of a directory it walks
    or creates; what it sees of the file system is its shape: which paths are
    directories, and which are files with which time and content. *)

Lemma shape_at_insert (fs : gmap path entry) (p q : path) (e : entry) :
  shape_at (<[p := e]> fs) q = if decide (q = p) then Some (shape e) else shape_at fs q.
Proof.
  unfold shape_at. case_decide as Hq.
  - subst. by rewrite lookup_insert_eq.
  - by rewrite lookup_insert_ne.
Qed.

Lemma shape_at_delete (fs : gmap path entry) (p q : path) :
  shape_at (delete p fs) q = if decide (q = p) then None else shape_at fs q.
Proof.
  unfold shape_at. case_decide as Hq.
  - subst. by rewrite lookup_delete_eq.
  - by rewrite lookup_delete_ne.
Qed.

Lemma shape_at_touch (now : Z) (fs : gmap path entry) (p q : path) :
  shape_at (touch now p fs) q = shape_at fs q.
Proof.
  unfold touch. destruct (fs !! p) as [[]|] eqn:Hp; try done.
  rewrite shape_at_insert. case_decide; [|done]. subst.
  unfold shape_at. by rewrite Hp.
Qed.

Lemma shape_at_None (fs : gmap path entry) (p : path) :
  shape_at fs p = None ↔ fs !! p = None.
Proof. unfold shape_at. by destruct (fs !! p). Qed.

Lemma shape_at_File (fs : gmap path entry) (p : path) (m : Z) (d : list Byte.byte) :
  shape_at fs p = Some (File m d) ↔ fs !! p = Some (File m d).
Proof. unfold shape_at. destruct (fs !! p) as [[]|]; simpl; split; congruence. Qed.

Lemma shape_at_Dir (fs : gmap path entry) (p : path) (m : Z) :
  shape_at fs p = Some (Dir m) ↔ m = 0%Z ∧ isdir fs p = true.
Proof.
  unfold shape_at, isdir. destruct (fs !! p) as [[]|]; simpl.
  - split; [discriminate|]. by intros [_ ?].
  - split; [by intros [= <-]|]. by intros [-> _].
  - split; [discriminate|]. by intros [_ ?].
Qed.

Lemma isdir_shape (fs : gmap path entry) (p : path) :
  isdir fs p = true ↔ shape_at fs p = Some (Dir 0).
Proof. rewrite shape_at_Dir. tauto. Qed.

Lemma path_exists_shape (fs : gmap path entry) (p : path) :
  path_exists fs p = true ↔ is_Some (shape_at fs p).
Proof.
  unfold path_exists, shape_at. destruct (fs !! p); simpl.
  - split; [by eexists|done].
  - split; [done|]. by intros [? ?].
Qed.

Lemma path_exists_false (fs : gmap path entry) (p : path) :
  path_exists fs p = false ↔ fs !! p = None.
Proof. unfold path_exists. by destruct (fs !! p). Qed.

Lemma path_exists_true (fs : gmap path entry) (p : path) :
  path_exists fs p = true ↔ is_Some (fs !! p).
Proof.
  unfold path_exists. destruct (fs !! p).
  - split; [by eexists|done].
  - split; [done|]. by intros [? ?].
Qed.

Lemma isdir_path_exists (fs : gmap path entry) (p : path) :
  isdir fs p = true → path_exists fs p = true.
Proof. intros. by apply path_exists_true, isdir_exists. Qed.

#[export] Instance same_shape_equiv : Equivalence same_shape.
Proof.
  split.
  - by intros fs q.
  - intros fs fs' Hs q. by rewrite Hs.
  - intros fs1 fs2 fs3 H12 H23 q. by rewrite H23, H12.
Qed.

Lemma same_shape_isdir (fs fs' : gmap path entry) (p : path) :
  same_shape fs fs' → isdir fs' p = isdir fs p.
Proof.
  intros Hs. apply eq_true_iff_eq. by rewrite !isdir_shape, Hs.
Qed.

Lemma same_shape_path_exists (fs fs' : gmap path entry) (p : path) :
  same_shape fs fs' → path_exists fs' p = path_exists fs p.
Proof.
  intros Hs. apply eq_true_iff_eq. by rewrite !path_exists_shape, Hs.
Qed.

Lemma wf_check_correct (fs : gmap path entry) : wf_check fs = true → wf fs.
Proof.
  unfold wf_check, wf. rewrite andb_true_iff, forallb_forall.
  intros [Hroot Hall]. split; [done|]. intros p [e He].
  apply (Hall (p, e)). by apply list_elem_of_In, elem_of_map_to_list.
Qed.

Lemma wf_parent_exists (fs : gmap path entry) (p : path) :
  wf fs → path_exists fs p = true → isdir fs (parent p) = true.
Proof. intros [_ Hwf] Hp. by apply Hwf, path_exists_true. Qed.

Lemma wf_prefix_isdir (fs : gmap path entry) (p q : path) :
  wf fs → path_exists fs (p ++ q) = true → q ≠ [] → isdir fs p = true.
Proof.
  intros Hwf. induction q as [|x q IH] using rev_ind; [done|]. intros Hex _.
  apply (wf_parent_exists _ _ Hwf) in Hex.
  rewrite app_assoc, parent_snoc in Hex.
  destruct q as [|y q]; [by rewrite app_nil_r in Hex|].
  apply IH; [|done]. by apply isdir_path_exists.
Qed.

Lemma wf_reachable (fs : gmap path entry) (base q : path) :
  wf fs → isdir fs (base ++ q) = true → reachable fs base q.
Proof.
  intros Hwf Hd q' [k ->].
  destruct k as [|x k]; [by rewrite app_nil_r in Hd|].
  apply (wf_prefix_isdir fs _ (x :: k)); [done| |done].
  rewrite <- app_assoc. by apply isdir_path_exists.
Qed.

Lemma wf_shape (fs fs' : gmap path entry) : same_shape fs fs' → wf fs → wf fs'.
Proof.
  intros Hs [Hroot Hwf]. split.
  - by rewrite (same_shape_isdir fs fs').
  - intros p Hp. rewrite (same_shape_isdir fs fs') by done. apply Hwf.
    by rewrite <- path_exists_true, <- (same_shape_path_exists fs fs'), path_exists_true.
Qed.

(** ** The file-system calls, one by one *)

Lemma shape_upd_same (fs fs' : gmap path entry) (p : path) (o : option entry) :
  shape_upd fs p o fs' → shape_at fs' p = o.
Proof. intros Hu. rewrite Hu. by case_decide. Qed.

Lemma shape_upd_other (fs fs' : gmap path entry) (p q : path) (o : option entry) :
  shape_upd fs p o fs' → q ≠ p → shape_at fs' q = shape_at fs q.
Proof. intros Hu Hq. rewrite Hu. by case_decide. Qed.

Lemma parent_neq (p : path) : p ≠ [] → parent p ≠ p.
Proof.
  intros Hne Heq. apply (f_equal length) in Heq.
  rewrite (path_split p Hne) in Heq at 2. rewrite length_app in Heq. simpl in Heq. lia.
Qed.

Lemma mkdir_inv (p : path) (w w' : world) (r : result unit) :
  mkdir p w = (r, w') →
  (r = Ok tt ∧ p ≠ [] ∧ files w !! p = None ∧ isdir (files w) (parent p) = true ∧
   clock w' = clock w ∧ trace w' = trace w ++ [Mkdir p] ∧
   shape_upd (files w) p (Some (Dir 0)) (files w')) ∨
  (∃ e, r = Raise e ∧ w' = w ∧ is_OSError e = true ∧
        (path_exists (files w) p = true → isdir (files w) (parent p) = true →
         e = FileExistsError)).
Proof.
  unfold mkdir. destruct p as [|x p'] eqn:Hp.
  { intros [= <- <-]. right. exists FileExistsError. by repeat split. }
  rewrite <- Hp. assert (p ≠ []) as Hne by by rewrite Hp. clear Hp.
  destruct (files w !! parent p) as [[m d|m]|] eqn:Hpar.
  - intros [= <- <-]. right. exists NotADirectoryError. repeat split.
    intros _. unfold isdir. by rewrite Hpar.
  - destruct (files w !! p) as [e|] eqn:Hlook.
    + intros [= <- <-]. right. exists FileExistsError. by repeat split.
    + intros [= <- <-]. left. simpl. repeat split; try done.
      * unfold isdir. by rewrite Hpar.
      * intros q. by rewrite shape_at_insert, shape_at_touch.
  - intros [= <- <-]. right. exists FileNotFoundError. repeat split.
    intros _. unfold isdir. by rewrite Hpar.
Qed.

Lemma remove_inv (p : path) (w w' : world) (r : result unit) :
  remove p w = (r, w') →
  (r = Ok tt ∧ (∃ m d, files w !! p = Some (File m d)) ∧
   clock w' = clock w ∧ trace w' = trace w ++ [Remove p] ∧
   shape_upd (files w) p None (files w')) ∨
  (∃ e, r = Raise e ∧ w' = w).
Proof.
  unfold remove. destruct (files w !! p) as [[m d|m]|] eqn:Hlook.
  - intros [= <- <-]. left. simpl. repeat split; eauto.
    intros q. by rewrite shape_at_touch, shape_at_delete.
  - intros [= <- <-]. right. eauto.
  - intros [= <- <-]. right. eauto.
Qed.

Lemma rmdir_inv (p : path) (w w' : world) (r : result unit) :
  rmdir p w = (r, w') →
  (r = Ok tt ∧ p ≠ [] ∧ isdir (files w) p = true ∧ children (files w) p = [] ∧
   clock w' = clock w ∧ trace w' = trace w ++ [Rmdir p] ∧
   shape_upd (files w) p None (files w')) ∨
  (∃ e, r = Raise e ∧ w' = w).
Proof.
  unfold rmdir. destruct (files w !! p) as [[m d|m]|] eqn:Hlook.
  - intros [= <- <-]. right. eauto.
  - destruct p as [|x p'] eqn:Hp.
    { intros [= <- <-]. right. eauto. }
    rewrite <- Hp in *. assert (p ≠ []) as Hne by by rewrite Hp. clear Hp.
    destruct (children (files w) p) eqn:Hch.
    + intros [= <- <-]. left. simpl. repeat split; try done.
      * unfold isdir. by rewrite Hlook.
      * intros q. by rewrite shape_at_touch, shape_at_delete.
    + intros [= <- <-]. right. eauto.
  - intros [= <- <-]. right. eauto.
Qed.

Lemma copy2_inv (src dst : path) (w w' : world) (r : result unit) :
  copy2 src dst w = (r, w') →
  (r = Ok tt ∧ isdir (files w) dst = false ∧ src ≠ dst ∧
   (∃ m d, files w !! src = Some (File m d) ∧
           shape_upd (files w) dst (Some (File m d)) (files w')) ∧
   (path_exists (files w) dst = true ∨ isdir (files w) (parent dst) = true) ∧
   clock w' = clock w ∧ trace w' = trace w ++ [CopyFile src dst]) ∨
  (r = Ok tt ∧ isdir (files w) dst = true ∧
   isdir (files w) (dst ++ [basename src]) = false ∧
   (∃ m d, files w !! src = Some (File m d) ∧
           shape_upd (files w) (dst ++ [basename src]) (Some (File m d)) (files w')) ∧
   clock w' = clock w ∧ trace w' = trace w ++ [CopyFile src (dst ++ [basename src])]) ∨
  (∃ e, r = Raise e ∧ w' = w).
Proof.
  unfold copy2. destruct (isdir (files w) dst) eqn:Hdir; lazy beta iota zeta.
  - destruct (bool_decide _ && path_exists _ _) eqn:Hsame.
    { intros [= <- <-]. right; right; eauto. }
    destruct (files w !! src) as [[m d|m]|] eqn:Hsrc;
      try (intros [= <- <-]; right; right; eauto; fail).
    destruct (files w !! (dst ++ [basename src])) as [[m' d'|m']|] eqn:Hdst.
    + intros [= <- <-]. right; left. simpl. repeat split; try done.
      * unfold isdir. by rewrite Hdst.
      * exists m, d. split; [done|]. intros q. by rewrite shape_at_insert.
    + intros [= <- <-]. right; right; eauto.
    + rewrite parent_snoc. unfold isdir in Hdir.
      destruct (files w !! dst) as [[]|] eqn:Hd; try done.
      intros [= <- <-]. right; left. simpl. repeat split; try done.
      * unfold isdir. by rewrite Hdst.
      * exists m, d. split; [done|]. intros q.
        by rewrite shape_at_insert, shape_at_touch.
  - destruct (bool_decide _ && path_exists _ _) eqn:Hsame.
    { intros [= <- <-]. right; right; eauto. }
    destruct (files w !! src) as [[m d|m]|] eqn:Hsrc;
      try (intros [= <- <-]; right; right; eauto; fail).
    assert (src ≠ dst) as Hne.
    { intros ->. unfold path_exists in Hsame. rewrite Hsrc in Hsame.
      by rewrite bool_decide_eq_true_2 in Hsame. }
    destruct (files w !! dst) as [[m' d'|m']|] eqn:Hdst.
    + intros [= <- <-]. left. simpl. repeat split; try done.
      * exists m, d. split; [done|]. intros q. by rewrite shape_at_insert.
      * left. unfold path_exists. by rewrite Hdst.
    + intros [= <- <-]. right; right; eauto.
    + destruct (files w !! parent dst) as [[]|] eqn:Hpar;
        try (intros [= <- <-]; right; right; eauto; fail).
      intros [= <- <-]. left. simpl. repeat split; try done.
      * exists m, d. split; [done|]. intros q.
        by rewrite shape_at_insert, shape_at_touch.
      * right. unfold isdir. by rewrite Hpar.
Qed.

(** ** How a piece of program changes the world *)

Lemma trace_ext_refl (C : event → Prop) (w w' : world) :
  trace w' = trace w → trace_ext C w w'.
Proof. intros Heq. exists []. by rewrite app_nil_r. Qed.

Lemma trace_ext_trans (C : event → Prop) (w1 w2 w3 : world) :
  trace_ext C w1 w2 → trace_ext C w2 w3 → trace_ext C w1 w3.
Proof.
  intros (t1 & H1 & Hc1) (t2 & H2 & Hc2). exists (t1 ++ t2). split.
  - by rewrite H2, H1, app_assoc.
  - by apply Forall_app.
Qed.

Lemma trace_ext_one (C : event → Prop) (w w' : world) (e : event) :
  trace w' = trace w ++ [e] → C e → trace_ext C w w'.
Proof. intros Heq HC. exists [e]. split; [done|]. by constructor. Qed.

Lemma trace_ext_weaken (C C' : event → Prop) (w w' : world) :
  (∀ e, C e → C' e) → trace_ext C w w' → trace_ext C' w w'.
Proof.
  intros HC (t & Ht & Hall). exists t. split; [done|].
  eapply Forall_impl; eauto.
Qed.

Lemma dirs_added_refl (L : path → Prop) (fs fs' : gmap path entry) :
  same_shape fs fs' → dirs_added L fs fs'.
Proof. intros Hs q. by left. Qed.

Lemma dirs_added_trans (L : path → Prop) (fs1 fs2 fs3 : gmap path entry) :
  dirs_added L fs1 fs2 → dirs_added L fs2 fs3 → dirs_added L fs1 fs3.
Proof.
  intros H12 H23 q. destruct (H12 q) as [Hs|(Hn & Hd & HL)], (H23 q) as [Hs'|(Hn' & Hd' & HL')].
  - left. by rewrite Hs', Hs.
  - right. repeat split; try done.
    apply shape_at_None. rewrite <- Hs. by apply shape_at_None.
  - right. repeat split; try done.
    apply isdir_shape. rewrite Hs'. by apply isdir_shape.
  - apply isdir_exists in Hd as [? Hd]. congruence.
Qed.

Lemma dirs_added_weaken (L L' : path → Prop) (fs fs' : gmap path entry) :
  (∀ q, L q → L' q) → dirs_added L fs fs' → dirs_added L' fs fs'.
Proof. intros HL Ha q. destruct (Ha q) as [?|(? & ? & ?)]; [by left|right; eauto]. Qed.

Lemma dirs_added_upd (fs fs' : gmap path entry) (p : path) :
  fs !! p = None → shape_upd fs p (Some (Dir 0)) fs' → dirs_added (λ q, q = p) fs fs'.
Proof.
  intros Hn Hu q. rewrite Hu. case_decide as Hq; [|by left].
  subst. right. repeat split; [done|]. apply isdir_shape. by rewrite Hu, decide_True.
Qed.

Lemma dirs_added_isdir (L : path → Prop) (fs fs' : gmap path entry) (p : path) :
  dirs_added L fs fs' → isdir fs p = true → isdir fs' p = true.
Proof.
  intros Ha Hd. destruct (Ha p) as [Hs|(? & ? & _)]; [|done].
  apply isdir_shape. rewrite Hs. by apply isdir_shape.
Qed.

Lemma dirs_added_exists (L : path → Prop) (fs fs' : gmap path entry) (p : path) :
  dirs_added L fs fs' → path_exists fs p = true → path_exists fs' p = true.
Proof.
  intros Ha Hd. destruct (Ha p) as [Hs|(? & ? & _)]; [|by apply isdir_path_exists].
  apply path_exists_shape. rewrite Hs. by apply path_exists_shape.
Qed.

Lemma dirs_added_file (L : path → Prop) (fs fs' : gmap path entry) (p : path) m d :
  dirs_added L fs fs' → fs' !! p = Some (File m d) ↔ fs !! p = Some (File m d).
Proof.
  intros Ha. rewrite <- !shape_at_File. destruct (Ha p) as [Hs|(Hn & Hd & _)].
  - by rewrite Hs.
  - apply isdir_shape in Hd. apply shape_at_None in Hn. rewrite Hd, Hn. split; discriminate.
Qed.

(** Well-formedness is kept by each change of shape the calls make. *)
Lemma wf_upd_dir (fs fs' : gmap path entry) (p : path) :
  wf fs → p ≠ [] → isdir fs (parent p) = true →
  shape_upd fs p (Some (Dir 0)) fs' → wf fs'.
Proof.
  intros [Hroot Hwf] Hne Hpar Hu.
  assert (∀ q, isdir fs q = true → isdir fs' q = true) as Hmono.
  { intros q Hq. apply isdir_shape. rewrite Hu. case_decide; [done|]. by apply isdir_shape. }
  split; [by apply Hmono|].
  intros q Hq. apply path_exists_true, path_exists_shape in Hq. rewrite Hu in Hq.
  case_decide as Hqp.
  - subst. by apply Hmono.
  - apply Hmono, Hwf. by apply path_exists_true, path_exists_shape.
Qed.

Lemma wf_upd_file (fs fs' : gmap path entry) (p : path) m d :
  wf fs → isdir fs p = false →
  path_exists fs p = true ∨ isdir fs (parent p) = true →
  shape_upd fs p (Some (File m d)) fs' → wf fs'.
Proof.
  intros [Hroot Hwf] Hnd Hpar Hu.
  assert (∀ q, isdir fs q = true → isdir fs' q = true) as Hmono.
  { intros q Hq. apply isdir_shape. rewrite Hu. case_decide as Hqp.
    - subst. congruence.
    - by apply isdir_shape. }
  split; [by apply Hmono|].
  intros q Hq. apply path_exists_true, path_exists_shape in Hq. rewrite Hu in Hq.
  case_decide as Hqp.
  - subst. apply Hmono. destruct Hpar as [Hex|Hpar]; [|done].
    by apply Hwf, path_exists_true.
  - apply Hmono, Hwf. by apply path_exists_true, path_exists_shape.
Qed.

Lemma wf_upd_delete (fs fs' : gmap path entry) (p : path) :
  wf fs → p ≠ [] → (∀ n, fs !! (p ++ [n]) = None) →
  shape_upd fs p None fs' → wf fs'.
Proof.
  intros [Hroot Hwf] Hne Hleaf Hu. split.
  - apply isdir_shape. rewrite Hu, decide_False by done. by apply isdir_shape.
  - intros q Hq. apply path_exists_true, path_exists_shape in Hq. rewrite Hu in Hq.
    case_decide as Hqp; [by destruct Hq|].
    apply isdir_shape. rewrite Hu. case_decide as Hpar.
    + destruct q as [|x q _] using rev_ind.
      * by destruct Hne.
      * rewrite parent_snoc in Hpar. subst.
        apply path_exists_shape, path_exists_true in Hq as [e He].
        by rewrite Hleaf in He.
    + apply isdir_shape, Hwf. by apply path_exists_true, path_exists_shape.
Qed.

Lemma wf_file_leaf (fs : gmap path entry) (p : path) (n : string) m d :
  wf fs → fs !! p = Some (File m d) → fs !! (p ++ [n]) = None.
Proof.
  intros [_ Hwf] Hp. destruct (fs !! (p ++ [n])) as [e|] eqn:He; [|done].
  assert (isdir fs (parent (p ++ [n])) = true) as Hd by (apply Hwf; eauto).
  rewrite parent_snoc in Hd. unfold isdir in Hd. by rewrite Hp in Hd.
Qed.

Lemma children_nil_leaf (fs : gmap path entry) (p : path) (n : string) :
  children fs p = [] → fs !! (p ++ [n]) = None.
Proof.
  intros Hch. destruct (fs !! (p ++ [n])) as [e|] eqn:He; [|done].
  assert (n ∈ children fs p) as Hn by (apply elem_of_children; eauto).
  rewrite Hch in Hn. by apply elem_of_nil in Hn.
Qed.

(** ** Creating directories *)

Ltac split_grows := unfold grows; split; [|split; [|split]].

Lemma grows_refl (C : event → Prop) (L : path → Prop) (w : world) : grows C L w w.
Proof.
  split_grows; [done|by apply trace_ext_refl|by apply dirs_added_refl|done].
Qed.

Lemma grows_trans (C : event → Prop) (L : path → Prop) (w1 w2 w3 : world) :
  grows C L w1 w2 → grows C L w2 w3 → grows C L w1 w3.
Proof.
  intros (Hc & Ht & Hd & Hwf) (Hc' & Ht' & Hd' & Hwf'). split_grows.
  - congruence.
  - by eapply trace_ext_trans.
  - by eapply dirs_added_trans.
  - auto.
Qed.

Lemma grows_weaken (C C' : event → Prop) (L L' : path → Prop) (w w' : world) :
  (∀ e, C e → C' e) → (∀ q, L q → L' q) → grows C L w w' → grows C' L' w w'.
Proof.
  intros HC HL (Hc & Ht & Hd & Hwf). split_grows; [done| | |done].
  - by eapply trace_ext_weaken.
  - by eapply dirs_added_weaken.
Qed.

Lemma grows_emit (C : event → Prop) (L : path → Prop) (w0 w : world) (e : event) :
  C e → grows C L w0 w → grows C L w0 (World (files w) (clock w) (trace w ++ [e])).
Proof.
  intros HC Hg. eapply grows_trans; [exact Hg|].
  split_grows; simpl; [done|by eapply trace_ext_one|by apply dirs_added_refl|done].
Qed.

Lemma hoare_log_grows (C : event → Prop) (L : path → Prop) (w0 : world) lvl msg :
  C (Log lvl msg) →
  hoare (grows C L w0) (log lvl msg) (λ r w, grows C L w0 w ∧ r = Ok tt).
Proof. intros HC. apply hoare_emit. intros w Hg. split; [by apply grows_emit|done]. Qed.

Lemma mkdir_grows (C : event → Prop) (L : path → Prop) (w0 : world) (p : path) :
  C (Mkdir p) → L p →
  hoare (grows C L w0) (mkdir p)
    (λ r w, grows C L w0 w ∧ (r = Ok tt → isdir (files w) p = true)).
Proof.
  intros HC HL w Hg. destruct (mkdir p w) as [r w'] eqn:Hrun. simpl.
  apply mkdir_inv in Hrun
    as [(-> & Hne & Hnone & Hpar & Hclock & Htrace & Hupd)|(e & -> & -> & _)].
  - split.
    + eapply grows_trans; [exact Hg|]. split_grows; [done| | |].
      * by eapply trace_ext_one.
      * eapply dirs_added_weaken; [|by apply dirs_added_upd]. by intros q ->.
      * intros Hwf. by eapply wf_upd_dir.
    + intros _. apply isdir_shape. by apply shape_upd_same in Hupd.
  - split; [done|discriminate].
Qed.

Lemma parent_prefix (p : path) : parent p `prefix_of` p.
Proof.
  destruct (decide (p = [])) as [->|Hne]; [done|].
  exists [basename p]. by apply path_split.
Qed.

Lemma makedirs_fuel_grows (C : event → Prop) (L : path → Prop) (w0 : world)
    (fuel : nat) (name : path) :
  (∀ q, C (Mkdir q)) → (∀ q, q `prefix_of` name → L q) →
  hoare (grows C L w0) (makedirs_fuel fuel name)
    (λ r w, grows C L w0 w ∧ (r = Ok tt → isdir (files w) name = true)).
Proof.
  intros HC. revert name. induction fuel as [|fuel IH]; intros name HL.
  { apply hoare_raise. by split. }
  cbn [makedirs_fuel].
  eapply hoare_bind with (Q1 := λ _ w, grows C L w0 w);
    [by apply hoare_gets| |done].
  intros head_exists.
  eapply hoare_bind with (Q1 := λ _ w, grows C L w0 w); [|intros _|done].
  - destruct (bool_decide (name ≠ []) && negb head_exists); [|by apply hoare_ret].
    eapply hoare_try.
    + apply IH. intros q Hq. apply HL. etrans; [done|apply parent_prefix].
    + by intros a w [Hg _].
    + intros e. destruct e; (apply hoare_ret || apply hoare_raise); by intros w [Hg _].
  - eapply hoare_try.
    + apply mkdir_grows; [apply HC|by apply HL].
    + done.
    + intros e.
      eapply hoare_bind with
        (Q1 := λ r w, grows C L w0 w ∧ r = Ok (isdir (files w) name)).
      * apply hoare_gets. by intros w [Hg _].
      * intros is_dir. destruct (is_OSError e && is_dir) eqn:Hcond.
        -- apply hoare_ret. intros w [Hg [= ->]]. split; [done|]. intros _.
           by apply andb_true_iff in Hcond as [_ ?].
        -- apply hoare_raise. by intros w [Hg _].
      * by intros e' w [_ ?].
Qed.

Lemma makedirs_grows (C : event → Prop) (L : path → Prop) (w0 : world) (name : path) :
  (∀ q, C (Mkdir q)) → (∀ q, q `prefix_of` name → L q) →
  hoare (grows C L w0) (makedirs name)
    (λ r w, grows C L w0 w ∧ (r = Ok tt → isdir (files w) name = true)).
Proof. apply makedirs_fuel_grows. Qed.

(** On a well-formed file system, [makedirs] of a path that exists changes
    nothing, whether it is a directory (success) or a file (failure). *)
Lemma makedirs_fuel_exists (fuel : nat) (name : path) (w : world) :
  wf (files w) → path_exists (files w) name = true →
  makedirs_fuel (S fuel) name w
  = (if isdir (files w) name then Ok tt else Raise FileExistsError, w).
Proof.
  intros Hwf Hex.
  pose proof (isdir_path_exists _ _ (wf_parent_exists _ _ Hwf Hex)) as Hpar.
  cbn [makedirs_fuel].
  erewrite bind_ok by (unfold gets; reflexivity). cbv beta.
  rewrite Hpar, andb_false_r.
  erewrite bind_ok by reflexivity.
  unfold try_except. destruct (mkdir name w) as [r w'] eqn:Hrun.
  apply mkdir_inv in Hrun
    as [(-> & Hne & Hnone & _)|(e & -> & -> & Hos & Hee)].
  - apply path_exists_true in Hex as [? ?]. congruence.
  - rewrite (Hee Hex) by by eapply wf_parent_exists.
    unfold bind, gets, ret, raise. simpl.
    by destruct (isdir (files w) name).
Qed.

Lemma makedirs_exists (name : path) (w : world) :
  wf (files w) → path_exists (files w) name = true →
  makedirs name w
  = (if isdir (files w) name then Ok tt else Raise FileExistsError, w).
Proof. apply makedirs_fuel_exists. Qed.

Lemma mkdir_ok (p : path) (w : world) :
  p ≠ [] → isdir (files w) (parent p) = true → files w !! p = None →
  (mkdir p w).1 = Ok tt.
Proof.
  intros Hne Hpar Hnone. unfold mkdir, isdir in *. destruct p; [done|].
  destruct (files w !! parent _) as [[]|]; try done. by rewrite Hnone.
Qed.

Lemma length_parent (p : path) : p ≠ [] → S (length (parent p)) = length p.
Proof.
  intros Hne. rewrite (path_split p Hne) at 2. rewrite length_app. simpl. lia.
Qed.

(** [makedirs] succeeds when no file stands at the path or at one of its
    ancestors. *)
Lemma makedirs_fuel_ok (fuel : nat) (name : path) (w : world) :
  length name < fuel → wf (files w) →
  (∀ q, q `prefix_of` name → path_exists (files w) q = true → isdir (files w) q = true) →
  (makedirs_fuel fuel name w).1 = Ok tt.
Proof.
  revert name w. induction fuel as [|fuel IH]; intros name w Hlen Hwf Hfree; [lia|].
  destruct (path_exists (files w) name) eqn:Hex.
  { rewrite makedirs_fuel_exists by done. by rewrite Hfree. }
  assert (name ≠ []) as Hne.
  { intros ->. destruct Hwf as [Hroot _]. apply isdir_path_exists in Hroot. congruence. }
  apply path_exists_false in Hex.
  cbn [makedirs_fuel]. erewrite bind_ok by (unfold gets; reflexivity). cbv beta.
  rewrite bool_decide_eq_true_2 by done. cbn [andb].
  destruct (path_exists (files w) (parent name)) eqn:Hpar; cbn [negb].
  - erewrite bind_ok by reflexivity. unfold try_except.
    pose proof (mkdir_ok name w Hne) as Hmk.
    destruct (mkdir name w) as [r w']. simpl in Hmk. rewrite Hmk; [done| |done].
    apply Hfree; [apply parent_prefix|done].
  - pose proof (length_parent name Hne) as Hlp.
    assert ((makedirs_fuel fuel (parent name) w).1 = Ok tt) as Hrec.
    { apply IH; [lia|done|]. intros q Hq. apply Hfree. etrans; [done|apply parent_prefix]. }
    pose proof (makedirs_fuel_grows (λ _, True) (λ q, q `prefix_of` parent name) w
                  fuel (parent name) (λ _, I) (λ _ H, H) w (grows_refl _ _ w))
      as [(_ & _ & Hadd & _) Hdir].
    destruct (makedirs_fuel fuel (parent name) w) as [r1 w1] eqn:Hrun.
    simpl in *. subst r1.
    erewrite bind_ok by (by apply try_except_ok). unfold try_except.
    pose proof (mkdir_ok name w1 Hne) as Hmk.
    destruct (mkdir name w1) as [r w']. simpl in Hmk. rewrite Hmk; [done|by apply Hdir|].
    destruct (Hadd name) as [Hs|(_ & _ & Hpre)].
    + apply shape_at_None. rewrite Hs. by apply shape_at_None.
    + apply prefix_length in Hpre. lia.
Qed.

Lemma makedirs_ok (name : path) (w : world) :
  wf (files w) →
  (∀ q, q `prefix_of` name → path_exists (files w) q = true → isdir (files w) q = true) →
  (makedirs name w).1 = Ok tt.
Proof. intros. apply makedirs_fuel_ok; [lia|done..]. Qed.

Lemma makedirs_step (C : event → Prop) (L : path → Prop) (name : path) (w : world) :
  (∀ q, C (Mkdir q)) → (∀ q, q `prefix_of` name → L q) →
  grows C L w (makedirs name w).2 ∧
  ((makedirs name w).1 = Ok tt → isdir (files (makedirs name w).2) name = true).
Proof. intros HC HL. by apply (makedirs_grows C L w name HC HL w), grows_refl. Qed.

Lemma clear_way_grows (L : path → Prop) (fs fs' : gmap path entry) (p : path) :
  dirs_added L fs fs' → clear_way fs p → clear_way fs' p.
Proof.
  intros Hadd Hway q Hq Hex. destruct (Hadd q) as [Hs|(_ & Hd & _)]; [|done].
  apply isdir_shape. rewrite Hs. apply isdir_shape, Hway; [done|].
  apply path_exists_shape. rewrite <- Hs. by apply path_exists_shape.
Qed.

Section Directories.
Context `{Hasher}.

Lemma sync_directories_effect (src dst : path) (w w' : world) (r : result unit) :
  sync_directories src dst w = (r, w') →
  grows setup_event (mirror (files w) src dst) w w' ∧
  (r = Ok tt →
   ∀ rel, dir_under (files w) src rel → path_exists (files w') (dst ++ rel) = true) ∧
  (wf (files w) →
   (∀ rel, dir_under (files w) src rel → clear_way (files w) (dst ++ rel)) →
   r = Ok tt).
Proof.
  set (L := mirror (files w) src dst).
  set (safe := wf (files w) ∧
               ∀ rel, dir_under (files w) src rel → clear_way (files w) (dst ++ rel)).
  set (Inv := λ (done : list (path * path)) (_ : nat) (wc : world),
         grows setup_event L w wc ∧
         ∀ a rel, (a, rel) ∈ done → path_exists (files wc) (dst ++ rel) = true).
  set (w1 := World (files w) (clock w) (trace w ++ [Walk src])).
  assert (grows setup_event L w w1) as Hw1 by (apply grows_emit; [done|apply grows_refl]).
  unfold sync_directories. rewrite (bind_ok _ _ _ _ _ (scan_directories_run src w)).
  fold w1. set (l := dir_listing (files w) src).
  match goal with |- context [for_fold l ?b 0] => set (body := b) end.
  assert (hoare (Inv [] 0) (for_fold l body 0)
            (λ r wc, match r with
                     | Ok c => Inv l c wc
                     | Raise e => grows setup_event L w wc ∧ ¬ safe
                     end)) as Hloop.
  { apply hoare_for_fold. intros done [a rel] rest c Hl.
    apply hoare_intro. intros wc rb wb [Hg Hdone] Hrun.
    assert (dir_under (files w) src rel) as Hrel.
    { apply (elem_of_dir_listing _ _ a). fold l. rewrite Hl.
      apply elem_of_app. right. by left. }
    unfold body in Hrun.
    apply bind_inv in Hrun as [(ex & ? & [[= ->] ->]%gets_inv & Hrun)|(? & [=] & _)].
    revert Hrun.
    destruct (path_exists (files wc) (dst ++ rel)) eqn:Hex; cbn [negb]; intros Hrun.
    - apply ret_inv in Hrun as [-> ->]. split; [done|].
      intros a' rel' [Hin|Hin%list_elem_of_singleton]%elem_of_app.
      + by eapply Hdone.
      + by injection Hin as -> ->.
    - destruct (makedirs_step setup_event L (dst ++ rel) wc) as [Hstep Hdir];
        [done|by intros q Hq; exists rel|].
      apply bind_inv in Hrun as [([] & w2 & Hmk & Hrun)|(e & Hmk & ->)].
      + rewrite Hmk in Hstep, Hdir; simpl in Hstep, Hdir.
        apply bind_inv in Hrun as [([] & ? & [_ ->]%emit_inv & Hrun)|(? & [=] & _)].
        apply ret_inv in Hrun as [-> ->]. split.
        * apply grows_emit; [done|]. by eapply grows_trans.
        * intros a' rel' [Hin|Hin%list_elem_of_singleton]%elem_of_app.
          -- destruct Hstep as (_ & _ & Hadd & _).
             eapply dirs_added_exists; [done|]. by eapply Hdone.
          -- injection Hin as -> ->. by apply isdir_path_exists, Hdir.
      + split.
        * rewrite Hmk in Hstep. by eapply grows_trans.
        * intros [Hwf Hway]. destruct Hg as (_ & _ & Hadd & Hwf').
          pose proof (makedirs_ok (dst ++ rel) wc (Hwf' Hwf)
                        (clear_way_grows _ _ _ _ Hadd (Hway rel Hrel))) as Hok.
          by rewrite Hmk in Hok. }
  assert (Inv [] 0 w1) as Hinit by (split; [done|by intros ?? ?%elem_of_nil]).
  intros Hrun.
  apply bind_inv in Hrun as [(c & w2 & Hfold & Hrun)|(e & Hfold & ->)];
    pose proof (hoare_elim _ _ _ _ _ _ Hloop Hinit Hfold) as Hpost; simpl in Hpost.
  - destruct Hpost as [Hg Hdone].
    assert (∀ rel, dir_under (files w) src rel → path_exists (files w2) (dst ++ rel) = true)
      as Hall.
    { intros rel Hrel. apply (Hdone (src ++ rel)). by apply elem_of_dir_listing. }
    destruct (c =? 0).
    + apply emit_inv in Hrun as [-> ->]. split; [by apply grows_emit|done].
    + by apply ret_inv in Hrun as [-> ->].
  - destruct Hpost as [Hg Hunsafe]. split; [done|]. split; [done|].
    intros Hwf Hway. by destruct Hunsafe.
Qed.

End Directories.

(** ** The plan *)

Section Plan.
Context `{Hasher}.

Lemma copy_tasks_fold (l acc : list (path * path)) (dst : path) (w w' : world)
    (r : result (list (path * path))) :
  for_fold l (λ '(abs_src, rel_path) copy_tasks,
      let abs_dst := dst ++ rel_path in
      needed <- should_copy abs_src abs_dst ;;
      if needed then ret (copy_tasks ++ [(abs_src, rel_path)])
      else ret copy_tasks) acc w = (r, w') →
  w' = w ∧
  match r with
  | Ok copy => copy = acc ++ List.filter (wanted (files w) dst) l ∧
               Forall (decided (files w) dst) l
  | Raise e => ¬ Forall (decided (files w) dst) l
  end.
Proof.
  revert acc. induction l as [|[a rel] l IH]; intros acc; simpl.
  { intros [-> ->]%ret_inv. by rewrite app_nil_r. }
  intros Hrun. apply bind_inv in Hrun as [(s' & w1 & Hbody & Hrun)|(e & Hbody & ->)].
  - apply bind_inv in Hbody as [(b & w2 & Hsc & Hret)|(e & Hsc & [=])].
    rewrite should_copy_run in Hsc. injection Hsc as Hv <-.
    assert (s' = (if b then acc ++ [(a, rel)] else acc) ∧ w1 = w) as [-> ->]
      by (destruct b; by apply ret_inv in Hret as [[= ->] ->]).
    apply IH in Hrun as [-> Hr]. split; [done|].
    assert (decided (files w) dst (a, rel)) as Hdec by (by exists b).
    unfold wanted at 1. simpl. rewrite Hv.
    destruct r as [copy|e].
    + destruct Hr as [-> Hall]. split; [|by constructor].
      destruct b; [|done]. by rewrite <- app_assoc.
    + intros Hall. apply Hr. by inversion Hall.
  - apply bind_inv in Hbody as [(b & w2 & Hsc & Hret)|(e' & Hsc & [= <-])].
    + rewrite should_copy_run in Hsc. injection Hsc as Hv <-.
      destruct b; by apply ret_inv in Hret as [[=] _].
    + rewrite should_copy_run in Hsc. injection Hsc as Hv <-. split; [done|].
      intros Hall. inversion Hall as [|?? [b Hb] _]; subst. simpl in Hb. congruence.
Qed.

Lemma copy_tasks_of_inv (l : list (path * path)) (dst : path) (w w' : world)
    (r : result (list (path * path))) :
  copy_tasks_of l dst w = (r, w') →
  w' = w ∧
  match r with
  | Ok copy => copy = List.filter (wanted (files w) dst) l ∧
               Forall (decided (files w) dst) l
  | Raise e => ¬ Forall (decided (files w) dst) l
  end.
Proof. apply copy_tasks_fold. Qed.

End Plan.

Section PlanRun.
Context `{Hasher}.

(** [sync_plan], step by step. *)
Lemma sync_plan_inv (src dst : path) (w w' : world)
    (r : result (list (path * path) * list path)) :
  sync_plan src dst w = (r, w') →
  (path_exists (files w) src = false ∧ r = Raise ValueError ∧ w' = w) ∨
  (path_exists (files w) src = true ∧
   ∃ ra wa, makedirs dst (started src dst w) = (ra, wa) ∧
     match ra with
     | Raise e => r = Raise e ∧ w' = wa
     | Ok _ =>
         ∃ rb w1, sync_directories src dst wa = (rb, w1) ∧
           match rb with
           | Raise e => r = Raise e ∧ w' = w1
           | Ok _ =>
               files w' = files w1 ∧ clock w' = clock w1 ∧
               trace_ext setup_event w1 w' ∧
               let src_files := file_listing (files w1) src true in
               match r with
               | Ok (copy_tasks, delete_tasks) =>
                   copy_tasks = List.filter (wanted (files w1) dst) src_files ∧
                   Forall (decided (files w1) dst) src_files ∧
                   delete_tasks =
                     delete_tasks_of (list_to_set (map snd src_files))
                       (file_listing (files w1) dst false)
               | Raise e => ¬ Forall (decided (files w1) dst) src_files
               end
           end
     end).
Proof.
  unfold sync_plan. intros Hrun.
  apply bind_inv in Hrun as [(ex & ? & [[= ->] ->]%gets_inv & Hrun)|(? & [=] & _)].
  revert Hrun. destruct (path_exists (files w) src) eqn:Hsrc; cbn [negb]; intros Hrun.
  2: { apply raise_inv in Hrun as [-> ->]. by left. }
  right. split; [done|].
  apply bind_inv in Hrun as [([] & ? & [_ ->]%emit_inv & Hrun)|(? & [=] & _)].
  fold (started src dst w) in Hrun.
  apply bind_inv in Hrun as [([] & wa & Hmk & Hrun)|(e & Hmk & ->)].
  2: { by exists (Raise e), w'. }
  exists (Ok tt), wa. split; [done|].
  apply bind_inv in Hrun as [([] & w1 & Hsd & Hrun)|(e & Hsd & ->)].
  2: { by exists (Raise e), w'. }
  exists (Ok tt), w1. split; [done|].
  rewrite (bind_ok _ _ _ _ _ (scan_files_run src true w1)) in Hrun.
  set (src_files := file_listing (files w1) src true) in *.
  apply bind_inv in Hrun as [(copy & w2 & Hcopy & Hrun)|(e & Hcopy & ->)];
    apply copy_tasks_of_inv in Hcopy as [-> Hcopy]; simpl in Hcopy.
  - destruct Hcopy as [-> Hdec].
    apply bind_inv in Hrun as [([] & ? & [_ ->]%emit_inv & Hrun)|(? & [=] & _)].
    rewrite (bind_ok _ _ _ _ _ (scan_files_run dst false _)) in Hrun.
    apply bind_inv in Hrun as [([] & ? & [_ ->]%emit_inv & Hrun)|(? & [=] & _)].
    apply ret_inv in Hrun as [-> ->]. simpl.
    repeat split; [|done].
    eexists. split; [by rewrite <- !app_assoc|]. by repeat constructor.
  - simpl. repeat split; [|done]. by eapply trace_ext_one.
Qed.

(** Whatever its result, [sync_plan] only creates directories. *)
Lemma sync_plan_grows (src dst : path) (w w' : world)
    (r : result (list (path * path) * list path)) :
  sync_plan src dst w = (r, w') → grows setup_event (λ _, True) w w'.
Proof.
  intros [(_ & _ & ->)|(_ & ra & wa & Hmk & Hrest)]%sync_plan_inv; [apply grows_refl|].
  assert (grows setup_event (λ _, True) w (started src dst w)) as H0
    by (apply grows_emit; [done|apply grows_refl]).
  destruct (makedirs_step setup_event (λ _, True) dst (started src dst w)) as [Ha _];
    [done..|]. rewrite Hmk in Ha. simpl in Ha.
  assert (grows setup_event (λ _, True) w wa) as Hwa by by eapply grows_trans.
  destruct ra as [[]|e]; [|by destruct Hrest as [_ ->]].
  destruct Hrest as (rb & w1 & Hsd & Hrest).
  apply sync_directories_effect in Hsd as (Hb & _).
  assert (grows setup_event (λ _, True) w w1) as Hw1.
  { eapply grows_trans; [exact Hwa|]. by eapply grows_weaken. }
  destruct rb as [[]|e]; [|by destruct Hrest as [_ ->]].
  destruct Hrest as (Hf & Hc & Ht & _).
  eapply grows_trans; [exact Hw1|]. split_grows; [done..| |].
  - apply dirs_added_refl. by rewrite Hf.
  - by rewrite Hf.
Qed.

End PlanRun.

Lemma reachable_grows (L : path → Prop) (fs fs' : gmap path entry) (base q : path) :
  dirs_added L fs fs' → reachable fs base q → reachable fs' base q.
Proof. intros Hadd Hr q' Hq'. eapply dirs_added_isdir; [done|]. by apply Hr. Qed.

Lemma file_under_grows (L : path → Prop) (fs fs' : gmap path entry) (base rel : path) :
  dirs_added L fs fs' → file_under fs base rel → file_under fs' base rel.
Proof.
  intros Hadd (Hne & Hr & Hex & Hnd). split; [done|]. split; [by eapply reachable_grows|].
  destruct Hex as [[m d|m] He]; [|unfold isdir in Hnd; by rewrite He in Hnd].
  apply (dirs_added_file _ _ _ _ _ _ Hadd) in He. unfold isdir. rewrite He. eauto.
Qed.

(** ** The delete set, the copy set and the skip predicate *)

Section Sets.
Context `{Hasher}.

Lemma sync_plan_sets (src dst : path) (w w' : world) (copy_tasks : list (path * path))
    (delete_tasks : list path) :
  sync_plan src dst w = (Ok (copy_tasks, delete_tasks), w') →
  grows setup_event (λ _, True) w w' ∧
  let src_files := file_listing (files w') src true in
  copy_tasks = List.filter (wanted (files w') dst) src_files ∧
  delete_tasks = delete_tasks_of (list_to_set (map snd src_files))
                   (file_listing (files w') dst false).
Proof.
  intros Hrun. split; [by eapply sync_plan_grows|].
  apply sync_plan_inv in Hrun as [(_ & [=] & _)|(_ & ra & wa & Hmk & Hrest)].
  destruct ra as [[]|e]; [|by destruct Hrest as [[=] _]].
  destruct Hrest as (rb & w1 & Hsd & Hrest).
  destruct rb as [[]|e]; [|by destruct Hrest as [[=] _]].
  destruct Hrest as (-> & _ & _ & -> & _ & ->). done.
Qed.

Lemma elem_of_delete_tasks (src_rel_paths : gset path) (dst_files : list (path * path))
    (abs_dst : path) :
  abs_dst ∈ delete_tasks_of src_rel_paths dst_files ↔
  ∃ rel, (abs_dst, rel) ∈ dst_files ∧
         (should_skip_file (basename rel) = true ∨ rel ∉ src_rel_paths).
Proof.
  unfold delete_tasks_of. rewrite list_elem_of_fmap. split.
  - intros ([a rel] & -> & [Hin Hdel]%elem_of_bool_filter).
    exists rel. split; [done|]. unfold to_delete in Hdel. simpl in Hdel.
    apply orb_true_iff in Hdel as [?|?%bool_decide_eq_true]; eauto.
  - intros (rel & Hin & Hdel). exists (abs_dst, rel). split; [done|].
    apply elem_of_bool_filter. split; [done|]. unfold to_delete. simpl.
    apply orb_true_iff. destruct Hdel; [by left|right]. by apply bool_decide_eq_true.
Qed.

(** C3: a file entry of the destination is put in the delete set exactly
    when its name matches the skip predicate or its relative path is not the
    relative path of an entry of the skip-filtered scan of the source; the
    scan of the destination lists every file below the destination folder,
    whatever its name. *)
Theorem sync_plan_delete_set (src dst : path) (w w' : world)
    (copy_tasks : list (path * path)) (delete_tasks : list path) :
  sync_plan src dst w = (Ok (copy_tasks, delete_tasks), w') →
  let src_files := file_listing (files w') src true in
  let dst_files := file_listing (files w') dst false in
  (∀ abs_dst rel, (abs_dst, rel) ∈ dst_files →
     abs_dst ∈ delete_tasks ↔
     should_skip_file (basename rel) = true ∨ rel ∉ map snd src_files) ∧
  (∀ abs_dst, abs_dst ∈ delete_tasks → (abs_dst, relative_to abs_dst dst) ∈ dst_files) ∧
  (∀ rel, file_under (files w') dst rel ↔ (dst ++ rel, rel) ∈ dst_files).
Proof.
  intros (_ & _ & ->)%sync_plan_sets src_files dst_files. fold src_files dst_files.
  split; [|split].
  - intros abs_dst rel Hin. rewrite elem_of_delete_tasks. split.
    + intros (rel' & Hin' & Hdel).
      apply elem_of_file_listing in Hin as [-> _], Hin' as [Heq _].
      apply app_inv_head in Heq as <-.
      by rewrite elem_of_list_to_set in Hdel.
    + intros Hdel. exists rel. split; [done|]. by rewrite elem_of_list_to_set.
  - intros abs_dst (rel & Hin & _)%elem_of_delete_tasks.
    pose proof Hin as [-> _]%elem_of_file_listing. by rewrite relative_to_app.
  - intros rel. unfold dst_files. rewrite elem_of_file_listing. split.
    + by intros Hfile.
    + by intros (_ & Hfile & _).
Qed.

(** C4: no relative path is both the relative path of a copy task and the
    relative path of a delete task. *)
Theorem copy_delete_disjoint (src dst : path) (w w' : world)
    (copy_tasks : list (path * path)) (delete_tasks : list path) :
  sync_plan src dst w = (Ok (copy_tasks, delete_tasks), w') →
  ∀ abs_src rel abs_dst,
    (abs_src, rel) ∈ copy_tasks → abs_dst ∈ delete_tasks →
    abs_dst ≠ dst ++ rel ∧ relative_to abs_dst dst ≠ rel.
Proof.
  intros (_ & -> & ->)%sync_plan_sets abs_src rel abs_dst.
  intros [Hsrc _]%elem_of_bool_filter (rel' & Hdst & Hdel)%elem_of_delete_tasks.
  apply elem_of_file_listing in Hdst as (-> & _ & _).
  rewrite relative_to_app.
  assert (rel' ≠ rel) as Hne.
  { intros ->. pose proof Hsrc as (_ & _ & Hskip)%elem_of_file_listing.
    destruct Hdel as [Hdel|Hdel].
    - rewrite Hskip in Hdel; done.
    - apply Hdel, elem_of_list_to_set, list_elem_of_fmap. by exists (abs_src, rel). }
  split; [|done]. by intros ?%app_inv_head.
Qed.

(** C6: [should_skip_file], a function of the file name alone, is true
    exactly for the names that start with ["._"] and for the six names of
    the skip set; a file with such a name is never in the copy set, and a
    file with such a name below the destination folder is always in the
    delete set. *)
Theorem skip_exactness :
  (∀ filename,
     should_skip_file filename = true ↔
     (∃ rest, filename = "._" +:+ rest) ∨
     filename ∈ [".DS_Store"; "._.DS_Store"; "Thumbs.db"; "Desktop.ini";
                 ".localized"; "__MACOSX"]) ∧
  (∀ src dst w w' copy_tasks delete_tasks,
     sync_plan src dst w = (Ok (copy_tasks, delete_tasks), w') →
     (∀ abs_src rel, (abs_src, rel) ∈ copy_tasks →
                     should_skip_file (basename rel) = false) ∧
     (∀ rel, file_under (files w) dst rel →
             should_skip_file (basename rel) = true →
             dst ++ rel ∈ delete_tasks)).
Proof.
  split; [exact should_skip_file_iff|].
  intros src dst w w' copy_tasks delete_tasks ((_ & _ & Hadd & _) & -> & ->)%sync_plan_sets.
  split.
  - intros abs_src rel [Hsrc _]%elem_of_bool_filter.
    apply elem_of_file_listing in Hsrc as (_ & _ & Hskip). by apply Hskip.
  - intros rel Hfile Hskip. apply elem_of_delete_tasks. exists rel. split; [|by left].
    apply elem_of_file_listing. split; [done|]. split; [|done].
    by eapply file_under_grows.
Qed.

End Sets.

Lemma example_plan_eq :
  sync_plan ["src"] ["dst"] example_world
  = (Ok (example_copy_tasks, example_delete_tasks), example_plan.2).
Proof. vm_compute. reflexivity. Qed.

Lemma sync_plan_delete_set_witness :
  ["dst"; "old.txt"] ∈ example_delete_tasks ∧
  (["dst"; "old.txt"], relative_to ["dst"; "old.txt"] ["dst"])
    ∈ file_listing (files example_plan.2) ["dst"] false.
Proof.
  destruct (sync_plan_delete_set _ _ _ _ _ _ example_plan_eq) as (Hiff & Hback & _).
  assert (["dst"; "old.txt"] ∈ example_delete_tasks) as Hin.
  { apply (Hiff ["dst"; "old.txt"] ["old.txt"]).
    - apply (bool_decide_unpack _). vm_compute. reflexivity.
    - right. apply (bool_decide_unpack _). vm_compute. reflexivity. }
  split; [exact Hin|exact (Hback _ Hin)].
Defined.

Lemma copy_delete_disjoint_witness :
  ["dst"; ".DS_Store"] ≠ ["dst"] ++ ["a.txt"] ∧
  relative_to ["dst"; ".DS_Store"] ["dst"] ≠ ["a.txt"].
Proof.
  apply (copy_delete_disjoint _ _ _ _ _ _ example_plan_eq ["src"; "a.txt"]).
  - apply (bool_decide_unpack _). vm_compute. reflexivity.
  - apply (bool_decide_unpack _). vm_compute. reflexivity.
Defined.

Lemma skip_exactness_witness :
  ["dst"] ++ [".DS_Store"] ∈ example_delete_tasks.
Proof.
  destruct skip_exactness as [_ Hplan].
  destruct (Hplan _ _ _ _ _ _ example_plan_eq) as [_ Hdel].
  apply Hdel; [|reflexivity].
  split; [discriminate|]. split; [by apply reachable_nil|].
  split; [by eexists|reflexivity].
Defined.

(** ** Source and destination side by side *)

Lemma separate_neq (src dst x y : path) : separate src dst → src ++ x ≠ dst ++ y.
Proof.
  intros [Hsd Hds] Heq.
  destruct (prefix_weak_total src dst (src ++ x)) as [?|?]; [by exists x|by exists y|done..].
Qed.

Lemma separate_above (src dst q x : path) :
  separate src dst → q `prefix_of` dst → q ≠ src ++ x.
Proof. intros [Hsd _] Hq ->. apply Hsd. etrans; [|done]. by exists x. Qed.

Lemma agree_below_sym (base : path) (fs fs' : gmap path entry) :
  agree_below base fs fs' → agree_below base fs' fs.
Proof. intros Ha x. by rewrite Ha. Qed.

Lemma agree_below_trans (base : path) (fs1 fs2 fs3 : gmap path entry) :
  agree_below base fs1 fs2 → agree_below base fs2 fs3 → agree_below base fs1 fs3.
Proof. intros H12 H23 x. by rewrite H23, H12. Qed.

Lemma agree_isdir (base : path) (fs fs' : gmap path entry) (x : path) :
  agree_below base fs fs' → isdir fs' (base ++ x) = isdir fs (base ++ x).
Proof. intros Ha. apply eq_true_iff_eq. by rewrite !isdir_shape, Ha. Qed.

Lemma agree_reachable (base : path) (fs fs' : gmap path entry) (q : path) :
  agree_below base fs fs' → reachable fs base q → reachable fs' base q.
Proof. intros Ha Hr q' Hq'. rewrite (agree_isdir _ _ _ _ Ha). by apply Hr. Qed.

Lemma agree_dir_under (base : path) (fs fs' : gmap path entry) (rel : path) :
  agree_below base fs fs' → dir_under fs base rel → dir_under fs' base rel.
Proof. intros Ha [Hne Hr]. split; [done|]. by eapply agree_reachable. Qed.

Lemma agree_file_under (base : path) (fs fs' : gmap path entry) (rel : path) :
  agree_below base fs fs' → file_under fs base rel → file_under fs' base rel.
Proof.
  intros Ha (Hne & Hr & Hex & Hnd). split; [done|]. split; [by eapply agree_reachable|].
  split.
  - apply path_exists_true, path_exists_shape. rewrite Ha.
    by apply path_exists_shape, path_exists_true.
  - by rewrite (agree_isdir _ _ _ _ Ha).
Qed.

Lemma file_under_File (fs : gmap path entry) (base rel : path) :
  file_under fs base rel → ∃ m d, fs !! (base ++ rel) = Some (File m d).
Proof.
  intros (_ & _ & [e He] & Hnd). unfold isdir in Hnd. rewrite He in Hnd.
  destruct e; [eauto|done].
Qed.

(** On a well-formed file system the entries below a directory are the
    entries whose path starts with the path of the directory. *)
Lemma wf_file_under (fs : gmap path entry) (base rel : path) m d :
  wf fs → rel ≠ [] → fs !! (base ++ rel) = Some (File m d) → file_under fs base rel.
Proof.
  intros Hwf Hne Hf. split; [done|]. split; [|split; [eauto|]].
  - apply wf_reachable; [done|]. rewrite <- parent_app by done.
    apply wf_parent_exists; [done|]. apply path_exists_true. eauto.
  - unfold isdir. by rewrite Hf.
Qed.

Lemma wf_dir_under (fs : gmap path entry) (base rel : path) :
  wf fs → rel ≠ [] → isdir fs (base ++ rel) = true → dir_under fs base rel.
Proof. intros Hwf Hne Hd. split; [done|]. by apply wf_reachable. Qed.

Lemma wf_clear_way (fs : gmap path entry) (p : path) :
  wf fs → isdir fs p = true → clear_way fs p.
Proof.
  intros Hwf Hd q [k ->] Hex. destruct k as [|x k]; [by rewrite app_nil_r in Hd|].
  apply (wf_prefix_isdir fs q (x :: k)); [done| |done]. by apply isdir_path_exists.
Qed.

Lemma dir_under_prefix (fs : gmap path entry) (base rel rel' : path) :
  dir_under fs base rel → rel' `prefix_of` rel → rel' ≠ [] → dir_under fs base rel'.
Proof. intros [_ Hr] Hpre Hne. split; [done|]. by eapply reachable_prefix. Qed.

Lemma file_under_parent (fs : gmap path entry) (base rel : path) :
  file_under fs base rel → parent rel = [] ∨ dir_under fs base (parent rel).
Proof.
  intros (_ & Hr & _). destruct (decide (parent rel = [])); [by left|right]. by split.
Qed.

Lemma file_not_dir_under (fs : gmap path entry) (base rel : path) :
  file_under fs base rel → ¬ dir_under fs base rel.
Proof. intros (_ & _ & _ & Hnd) [_ Hr]. apply reachable_end in Hr. congruence. Qed.

Section Verdict.
Context `{Hasher}.

Lemma verdict_agree (fs fs' : gmap path entry) (a b : path) :
  shape_at fs' a = shape_at fs a → shape_at fs' b = shape_at fs b →
  is_file <$> fs !! a = Some true → (is_file <$> fs !! b) ≠ Some false →
  verdict fs' a b = verdict fs a b.
Proof.
  intros Ha Hb Hfa Hfb. unfold verdict.
  destruct (fs !! a) as [[ma da|]|] eqn:Hla; try done.
  apply shape_at_File in Hla. rewrite <- Ha in Hla. apply shape_at_File in Hla.
  rewrite Hla.
  destruct (fs !! b) as [[mb db|]|] eqn:Hlb; try done.
  - apply shape_at_File in Hlb. rewrite <- Hb in Hlb. apply shape_at_File in Hlb.
    by rewrite Hlb.
  - apply shape_at_None in Hlb. rewrite <- Hb in Hlb. apply shape_at_None in Hlb.
    by rewrite Hlb.
Qed.

End Verdict.

Lemma filter_nil_forall {A} (f : A → bool) (l : list A) :
  (∀ x, x ∈ l → f x = false) → List.filter f l = [].
Proof.
  induction l as [|x l IH]; intros Hall; [done|]. simpl.
  rewrite (Hall x) by by left. apply IH. intros y Hy. apply Hall. by right.
Qed.

(** ** The copy phase *)

Lemma for_each_app {A} (l1 l2 : list A) (body : A → M unit) (w : world) :
  for_each (l1 ++ l2) body w = (for_each l1 body ;; for_each l2 body) w.
Proof.
  revert w. induction l1 as [|x l1 IH]; intros w; [reflexivity|].
  cbn [for_each app]. unfold bind in *. destruct (body x w) as [[[]|e] w1]; [|done].
  by rewrite IH.
Qed.

(** A loop over chunks of a loop over the tasks of a chunk is the loop over
    all the tasks. *)
Lemma for_each_chunks {A B} (chunks : list (list A)) (pack : list A → B)
    (worker : B → M unit) (task : A → M unit) (w : world) :
  (∀ chunk w, worker (pack chunk) w = for_each chunk task w) →
  for_each (map pack chunks) worker w = for_each (concat chunks) task w.
Proof.
  intros Hworker. revert w. induction chunks as [|c chunks IH]; intros w; [reflexivity|].
  cbn [map concat for_each]. rewrite for_each_app. unfold bind. rewrite Hworker.
  destruct (for_each c task w) as [[[]|e] w1]; [|done]. apply IH.
Qed.

Lemma copy2_ok (src dst : path) (w : world) m d :
  files w !! src = Some (File m d) → isdir (files w) dst = false → src ≠ dst →
  path_exists (files w) dst = true ∨ isdir (files w) (parent dst) = true →
  (copy2 src dst w).1 = Ok tt.
Proof.
  intros Hsrc Hnd Hne Hpar. unfold copy2. rewrite Hnd.
  rewrite bool_decide_eq_false_2 by done. cbn [andb]. rewrite Hsrc.
  unfold isdir, path_exists in *.
  destruct (files w !! dst) as [[]|]; try done.
  destruct Hpar as [|Hpar]; [done|].
  by destruct (files w !! parent dst) as [[]|].
Qed.

Section CopyPhase.
Context `{Hasher}.

Lemma copy_worker_tasks (chunk : list (path * path)) (dst : path) (threads : Z) (w : world) :
  (0 < threads)%Z →
  copy_worker (chunk, dst, threads) w = for_each chunk (copy_task dst) w.
Proof.
  intros Hthr. unfold copy_worker, thread_pool.
  destruct (Z.leb_spec threads 0); [lia|]. done.
Qed.

(** What one copy task does on a well-formed file system in which the
    directory of the destination file exists: it never raises and never
    creates a directory; either it writes one file, or it logs an error and
    changes nothing.  It writes the destination file when nothing stands in
    the way. *)
Lemma copy_task_effect (dst src_file rel : path) (w w' : world) (r : result unit) :
  copy_task dst (src_file, rel) w = (r, w') →
  wf (files w) → path_exists (files w) (parent (dst ++ rel)) = true →
  r = Ok tt ∧ clock w' = clock w ∧ trace_ext copy_event w w' ∧ wf (files w') ∧
  (same_shape (files w) (files w') ∨
   ∃ q m d, files w !! src_file = Some (File m d) ∧
            isdir (files w) q = false ∧
            shape_upd (files w) q (Some (File m d)) (files w')) ∧
  (∀ m d, files w !! src_file = Some (File m d) →
          isdir (files w) (parent (dst ++ rel)) = true →
          isdir (files w) (dst ++ rel) = false →
          src_file ≠ dst ++ rel →
          shape_upd (files w) (dst ++ rel) (Some (File m d)) (files w')).
Proof.
  intros Hrun Hwf Hpar. unfold copy_task, copy_file in Hrun.
  pose proof (makedirs_exists _ _ Hwf Hpar) as Hmk.
  apply try_except_inv in Hrun as [([] & Hrun & ->)|(e & w1 & Hrun & Hlog)].
  - apply bind_inv in Hrun as [([] & w2 & Hrun & Hlog)|(? & ? & [=])].
    apply emit_inv in Hlog as [_ ->].
    apply bind_inv in Hrun as [([] & w1 & Hmk' & Hcp)|(? & ? & [=])].
    rewrite Hmk in Hmk'. injection Hmk' as _ <-.
    apply copy2_inv in Hcp
      as [(_ & Hnd & Hne & (m & d & Hsrc & Hupd) & Hex & Hclock & Htrace)
         |[(_ & Hd & Hnd & (m & d & Hsrc & Hupd) & Hclock & Htrace)|(? & [=] & _)]];
      simpl.
    + split; [done|]. split; [done|]. split.
      { exists [CopyFile src_file (dst ++ rel); Log DEBUG (MsgCopied rel)]. simpl.
        split; [by rewrite Htrace, <- app_assoc|]. by repeat constructor. }
      split; [by eapply wf_upd_file|]. split.
      * right. by exists (dst ++ rel), m, d.
      * intros m' d' Hsrc' _ _ _. rewrite Hsrc in Hsrc'. by injection Hsrc' as <- <-.
    + set (q := (dst ++ rel) ++ [basename src_file]) in *.
      split; [done|]. split; [done|]. split.
      { exists [CopyFile src_file q; Log DEBUG (MsgCopied rel)].
        simpl. split; [by rewrite Htrace, <- app_assoc|]. by repeat constructor. }
      split.
      { eapply wf_upd_file; [done..| |done]. right. unfold q. by rewrite parent_snoc. }
      split.
      * right. by exists q, m, d.
      * intros ? ? _ _ Hnd'. congruence.
  - assert (w1 = w) as ->.
    { apply bind_inv in Hrun as [([] & w2 & Hrun & [[=] _]%emit_inv)|(e' & Hrun & _)].
      apply bind_inv in Hrun as [([] & w2 & Hmk' & Hcp)|(e'' & Hmk' & _)].
      - rewrite Hmk in Hmk'. injection Hmk' as _ <-.
        by apply copy2_inv in Hcp as [([=] & _)|[([=] & _)|(? & _ & ->)]].
      - rewrite Hmk in Hmk'. by injection Hmk' as _ <-. }
    apply emit_inv in Hlog as [-> ->]. simpl.
    split; [done|]. split; [done|]. split; [by eapply trace_ext_one|].
    split; [done|]. split; [by left|].
    intros m d Hsrc Hd Hnd Hne. exfalso.
    apply bind_inv in Hrun as [([] & w2 & Hrun & [[=] _]%emit_inv)|(e' & Hrun & _)].
    apply bind_inv in Hrun as [([] & w2 & Hmk' & Hcp)|(e'' & Hmk' & _)].
    + rewrite Hmk in Hmk'. injection Hmk' as _ <-.
      pose proof (copy2_ok src_file (dst ++ rel) w m d Hsrc Hnd Hne (or_intror Hd)) as Hok.
      by rewrite Hcp in Hok.
    + rewrite Hmk, Hd in Hmk'. done.
Qed.

Variable cpu_count : positive.

Lemma copy_phase_unfold (copy_tasks : list (path * path)) (dst : path) (threads : Z)
    (w : world) :
  copy_tasks ≠ [] →
  copy_phase cpu_count copy_tasks dst threads w
  = if (threads <=? 0)%Z then (Raise ValueError, pooled cpu_count copy_tasks w)
    else (for_each copy_tasks (copy_task dst) ;; log INFO MsgCopyDone)
           (pooled cpu_count copy_tasks w).
Proof.
  intros Hne. unfold copy_phase. destruct copy_tasks as [|t tasks] eqn:Htasks; [done|].
  rewrite <- Htasks in *. clear Htasks. unfold process_pool.
  pose proof (num_processes_pos cpu_count (Z.of_nat (length copy_tasks))) as Hpos.
  destruct (Z.ltb_spec (num_processes cpu_count (Z.of_nat (length copy_tasks))) 1); [lia|].
  unfold bind at 1 2. unfold emit at 1. fold (pooled cpu_count copy_tasks w).
  destruct (Z.leb_spec threads 0) as [Hthr|Hthr].
  - pose proof (concat_make_chunks cpu_count copy_tasks) as Hconcat.
    destruct (make_chunks cpu_count copy_tasks) as [|c chunks]; [by simpl in Hconcat|].
    cbn [map for_each]. unfold bind at 1. unfold copy_worker, thread_pool.
    by destruct (Z.leb_spec threads 0); [|lia].
  - rewrite (for_each_chunks _ (λ chunk, (chunk, dst, threads)) copy_worker (copy_task dst))
      by (intros; by apply copy_worker_tasks).
    rewrite concat_make_chunks. reflexivity.
Qed.

(** The copy phase creates no directory: on a well-formed file system in
    which the directory of each destination file exists, it only writes
    files and logs. *)
Lemma copy_loop_effect (copy_tasks : list (path * path)) (dst : path) (w0 : world) :
  hoare (λ w, wf (files w) ∧ clock w = clock w0 ∧ trace_ext copy_event w0 w ∧
              ∀ a rel, (a, rel) ∈ copy_tasks →
                       path_exists (files w) (parent (dst ++ rel)) = true)
    (for_each copy_tasks (copy_task dst))
    (λ r w, r = Ok tt ∧ wf (files w) ∧ clock w = clock w0 ∧ trace_ext copy_event w0 w).
Proof.
  set (Inv := λ (_ : list (path * path)) (w : world),
         wf (files w) ∧ clock w = clock w0 ∧ trace_ext copy_event w0 w ∧
         ∀ a rel, (a, rel) ∈ copy_tasks →
                  path_exists (files w) (parent (dst ++ rel)) = true).
  eapply hoare_conseq;
    [apply (hoare_for_each copy_tasks (copy_task dst) Inv (λ _ _, False))| |].
  - intros done [a rel] rest Hl. apply hoare_intro.
    intros w r w' (Hwf & Hclock & Htrace & Hpar) Hrun.
    assert ((a, rel) ∈ copy_tasks) as Hin
      by (rewrite Hl; apply elem_of_app; right; by left).
    apply copy_task_effect in Hrun as (-> & Hclock' & Htrace' & Hwf' & Hout & _);
      [|done|by eapply Hpar].
    split; [done|]. split; [congruence|]. split; [by eapply trace_ext_trans|].
    intros a' rel' Hin'. specialize (Hpar a' rel' Hin').
    apply path_exists_shape. apply path_exists_shape in Hpar.
    destruct Hout as [Hsame|(q & m & d & _ & _ & Hupd)].
    + by rewrite Hsame.
    + rewrite Hupd. by case_decide.
  - done.
  - intros [[]|e] w; [|done]. by intros (? & ? & ? & _).
Qed.

Lemma copy_phase_effect (copy_tasks : list (path * path)) (dst : path) (threads : Z)
    (w w' : world) (r : result unit) :
  copy_phase cpu_count copy_tasks dst threads w = (r, w') →
  wf (files w) →
  (∀ a rel, (a, rel) ∈ copy_tasks → path_exists (files w) (parent (dst ++ rel)) = true) →
  wf (files w') ∧ clock w' = clock w ∧ trace_ext copy_event w w' ∧
  ((0 < threads)%Z → r = Ok tt).
Proof.
  intros Hrun Hwf Hpar. destruct (decide (copy_tasks = [])) as [->|Hne].
  { apply emit_inv in Hrun as [-> ->]. simpl.
    split_and!; [done..|by eapply trace_ext_one|done]. }
  rewrite copy_phase_unfold in Hrun by done.
  assert (trace_ext copy_event w (pooled cpu_count copy_tasks w)) as Hpool by by eapply trace_ext_one.
  destruct (Z.leb_spec threads 0) as [Hthr|Hthr].
  { injection Hrun as <- <-. simpl. split_and!; [done..|lia]. }
  assert (wf (files (pooled cpu_count copy_tasks w)) ∧ clock (pooled cpu_count copy_tasks w) = clock w ∧
          trace_ext copy_event w (pooled cpu_count copy_tasks w) ∧
          ∀ a rel, (a, rel) ∈ copy_tasks →
                   path_exists (files (pooled cpu_count copy_tasks w)) (parent (dst ++ rel)) = true)
    as Hinit by done.
  apply bind_inv in Hrun as [([] & w1 & Hloop & Hlog)|(e & Hloop & ->)];
    pose proof (hoare_elim _ _ _ _ _ _ (copy_loop_effect copy_tasks dst w) Hinit Hloop)
      as (Hr & Hwf1 & Hclock & Htrace); [|done].
  apply emit_inv in Hlog as [-> ->]. simpl. split_and!; [done..| |done].
  eapply trace_ext_trans; [done|]. by eapply trace_ext_one.
Qed.

Lemma copy_loop_sync (src dst : path) (copy_tasks : list (path * path)) (w0 : world) :
  wf (files w0) → separate src dst → copy_ready (files w0) src dst copy_tasks →
  hoare (λ w, files w = files w0 ∧ clock w = clock w0)
    (for_each copy_tasks (copy_task dst))
    (λ r w, r = Ok tt ∧ wf (files w) ∧
            (∀ q, (∀ rel, (src ++ rel, rel) ∈ copy_tasks → q ≠ dst ++ rel) →
                  shape_at (files w) q = shape_at (files w0) q) ∧
            (∀ rel, (src ++ rel, rel) ∈ copy_tasks →
                    shape_at (files w) (dst ++ rel) = shape_at (files w0) (src ++ rel))).
Proof.
  intros Hwf Hsep Hready.
  set (Inv := λ (done : list (path * path)) (w : world),
         wf (files w) ∧
         (∀ q, (∀ rel, (src ++ rel, rel) ∈ done → q ≠ dst ++ rel) →
               shape_at (files w) q = shape_at (files w0) q) ∧
         (∀ rel, (src ++ rel, rel) ∈ done →
                 shape_at (files w) (dst ++ rel) = shape_at (files w0) (src ++ rel))).
  eapply hoare_conseq;
    [apply (hoare_for_each copy_tasks (copy_task dst) Inv (λ _ _, False))| |].
  - intros done [a rel] rest Hl. apply hoare_intro.
    intros w r w' (Hwf' & Hother & Hdone) Hrun.
    assert ((a, rel) ∈ copy_tasks) as Hin
      by (rewrite Hl; apply elem_of_app; right; by left).
    assert (∀ rel', (src ++ rel', rel') ∈ done → (src ++ rel', rel') ∈ copy_tasks) as Hsub
      by (intros rel' ?; rewrite Hl; apply elem_of_app; by left).
    destruct (Hready a rel Hin) as (-> & (m & d & Hsrc) & Hpar & Hnd).
    assert (files w !! (src ++ rel) = Some (File m d)) as Hsrc'.
    { apply shape_at_File. rewrite Hother; [by apply shape_at_File|].
      intros rel' _. by apply separate_neq. }
    assert (isdir (files w) (parent (dst ++ rel)) = true) as Hpar'.
    { apply isdir_shape. rewrite Hother; [by apply isdir_shape|].
      intros rel' Hrel' Heq. destruct (Hready _ _ (Hsub _ Hrel')) as (_ & _ & _ & Hnd').
      congruence. }
    assert (isdir (files w) (dst ++ rel) = false) as Hnd'.
    { destruct (decide ((src ++ rel, rel) ∈ done)) as [Hd|Hd].
      - apply Hdone in Hd. apply shape_at_File in Hsrc. rewrite Hsrc in Hd.
        apply shape_at_File in Hd. unfold isdir. by rewrite Hd.
      - rewrite <- Hnd. apply eq_true_iff_eq. rewrite !isdir_shape, Hother; [done|].
        intros rel' Hrel' ->%app_inv_head. done. }
    pose proof (copy_task_effect _ _ _ _ _ _ Hrun Hwf' (isdir_path_exists _ _ Hpar'))
      as (-> & _ & _ & Hwf'' & _ & Hupd).
    specialize (Hupd m d Hsrc' Hpar' Hnd' (separate_neq _ _ _ _ Hsep)).
    split; [done|]. split.
    + intros q Hq. rewrite Hupd. case_decide as Hqd.
      * subst q. exfalso. apply (Hq rel); [|done]. apply elem_of_app. right. by left.
      * apply Hother. intros rel' Hrel'. apply Hq. apply elem_of_app. by left.
    + intros rel' [Hrel'|Hrel'%list_elem_of_singleton]%elem_of_app.
      * rewrite Hupd. case_decide as Hqd.
        -- apply app_inv_head in Hqd as ->. symmetry. by apply shape_at_File.
        -- by apply Hdone.
      * injection Hrel' as ->%app_inv_head. rewrite (shape_upd_same _ _ _ _ Hupd).
        symmetry. by apply shape_at_File.
  - intros w [Hf _]. unfold Inv. rewrite Hf. split_and!; [done..|].
    by intros ? ?%elem_of_nil.
  - intros [[]|e] w; [|done]. by intros (? & ? & ?).
Qed.

Lemma copy_phase_sync (src dst : path) (copy_tasks : list (path * path)) (threads : Z)
    (w : world) :
  wf (files w) → separate src dst → copy_ready (files w) src dst copy_tasks →
  (0 < threads)%Z →
  ∃ w', copy_phase cpu_count copy_tasks dst threads w = (Ok tt, w') ∧
        wf (files w') ∧
        (∀ q, (∀ rel, (src ++ rel, rel) ∈ copy_tasks → q ≠ dst ++ rel) →
              shape_at (files w') q = shape_at (files w) q) ∧
        (∀ rel, (src ++ rel, rel) ∈ copy_tasks →
                shape_at (files w') (dst ++ rel) = shape_at (files w) (src ++ rel)).
Proof.
  intros Hwf Hsep Hready Hthr. destruct (decide (copy_tasks = [])) as [->|Hne].
  { eexists. split; [reflexivity|]. simpl. split_and!; [done..|].
    by intros ? ?%elem_of_nil. }
  rewrite copy_phase_unfold by done. destruct (Z.leb_spec threads 0); [lia|].
  pose proof (copy_loop_sync src dst copy_tasks w Hwf Hsep Hready (pooled cpu_count copy_tasks w))
    as Hloop.
  unfold bind. destruct (for_each copy_tasks (copy_task dst) (pooled cpu_count copy_tasks w))
    as [r w1] eqn:Hrun.
  destruct (Hloop (conj eq_refl eq_refl)) as (Hr & Hwf1 & Hother & Hdone).
  simpl in *. subst r.
  eexists. split; [reflexivity|]. simpl. done.
Qed.

End CopyPhase.

(** ** Deleting files and directories *)

Lemma removed_refl (D : path → Prop) (dirs : bool) (fs fs' : gmap path entry) :
  same_shape fs fs' → removed D dirs fs fs'.
Proof. intros Hs q. by left. Qed.

Lemma removed_trans (D : path → Prop) (dirs : bool) (fs1 fs2 fs3 : gmap path entry) :
  removed D dirs fs1 fs2 → removed D dirs fs2 fs3 → removed D dirs fs1 fs3.
Proof.
  intros H12 H23 q.
  destruct (H12 q) as [Hs|(HD & Hex & Hd & Hn)], (H23 q) as [Hs'|(HD' & Hex' & Hd' & Hn')].
  - left. by rewrite Hs', Hs.
  - right. split; [done|]. split; [|split; [|done]].
    + apply path_exists_true, path_exists_shape. rewrite <- Hs.
      by apply path_exists_shape, path_exists_true.
    + rewrite <- Hd'. apply eq_true_iff_eq. by rewrite !isdir_shape, Hs.
  - right. split; [done|]. split; [done|]. split; [done|].
    apply shape_at_None. rewrite Hs'. by apply shape_at_None.
  - rewrite Hn in Hex'. by destruct Hex'.
Qed.

Lemma removed_weaken (D D' : path → Prop) (dirs : bool) (fs fs' : gmap path entry) :
  (∀ q, D q → D' q) → removed D dirs fs fs' → removed D' dirs fs fs'.
Proof. intros HD Hr q. destruct (Hr q) as [?|(? & ?)]; [by left|right; eauto]. Qed.

Lemma removed_upd (dirs : bool) (fs fs' : gmap path entry) (p : path) :
  is_Some (fs !! p) → isdir fs p = dirs → shape_upd fs p None fs' →
  removed (λ q, q = p) dirs fs fs'.
Proof.
  intros Hex Hd Hu q. rewrite Hu. case_decide as Hq; [|by left].
  subst. right. split_and!; [done..|]. apply shape_at_None. by rewrite Hu, decide_True.
Qed.

Lemma removed_None (D : path → Prop) (dirs : bool) (fs fs' : gmap path entry) (p : path) :
  removed D dirs fs fs' → fs !! p = None → fs' !! p = None.
Proof.
  intros Hr Hn. destruct (Hr p) as [Hs|(_ & _ & _ & ?)]; [|done].
  apply shape_at_None. rewrite Hs. by apply shape_at_None.
Qed.

Lemma removed_isdir (D : path → Prop) (dirs : bool) (fs fs' : gmap path entry) (p : path) :
  removed D dirs fs fs' → isdir fs' p = true → isdir fs p = true.
Proof.
  intros Hr Hd. destruct (Hr p) as [Hs|(_ & _ & _ & Hn)].
  - apply isdir_shape. rewrite <- Hs. by apply isdir_shape.
  - apply isdir_exists in Hd as [? ?]. congruence.
Qed.

Lemma removed_exists (D : path → Prop) (dirs : bool) (fs fs' : gmap path entry) (p : path) :
  removed D dirs fs fs' → is_Some (fs' !! p) → is_Some (fs !! p).
Proof.
  intros Hr Hex. destruct (Hr p) as [Hs|(_ & ? & _)]; [|done].
  apply path_exists_true, path_exists_shape. rewrite <- Hs.
  by apply path_exists_shape, path_exists_true.
Qed.

Ltac split_shrinks := unfold shrinks; split; [|split; [|split]].

Lemma shrinks_refl (C : event → Prop) (D : path → Prop) (dirs : bool) (w : world) :
  shrinks C D dirs w w.
Proof.
  split_shrinks; [done|by apply trace_ext_refl|by apply removed_refl|done].
Qed.

Lemma shrinks_trans (C : event → Prop) (D : path → Prop) (dirs : bool) (w1 w2 w3 : world) :
  shrinks C D dirs w1 w2 → shrinks C D dirs w2 w3 → shrinks C D dirs w1 w3.
Proof.
  intros (Hc & Ht & Hd & Hwf) (Hc' & Ht' & Hd' & Hwf'). split_shrinks.
  - congruence.
  - by eapply trace_ext_trans.
  - by eapply removed_trans.
  - auto.
Qed.

Lemma shrinks_emit (C : event → Prop) (D : path → Prop) (dirs : bool) (w0 w : world)
    (e : event) :
  C e → shrinks C D dirs w0 w →
  shrinks C D dirs w0 (World (files w) (clock w) (trace w ++ [e])).
Proof.
  intros HC Hg. eapply shrinks_trans; [exact Hg|].
  split_shrinks; simpl; [done|by eapply trace_ext_one|by apply removed_refl|done].
Qed.

(** [delete_file_safe] never raises; it removes the path when it is a file
    and changes nothing otherwise. *)
Lemma delete_file_safe_effect (p : path) (w w' : world) (r : result unit) :
  delete_file_safe p w = (r, w') →
  r = Ok tt ∧ shrinks delete_event (λ q, q = p) false w w' ∧
  (isdir (files w) p = false → files w' !! p = None).
Proof.
  unfold delete_file_safe, delete_file. intros Hrun.
  apply try_except_inv in Hrun as [([] & Hrun & ->)|(e & w1 & Hrun & Hlog)].
  - split; [done|].
    apply bind_inv in Hrun as [([] & w2 & Hrun & [_ ->]%emit_inv)|(? & ? & [=])].
    apply bind_inv in Hrun as [(ex & ? & [[= ->] ->]%gets_inv & Hrun)|(? & [=] & _)].
    revert Hrun. destruct (path_exists (files w) p) eqn:Hex; intros Hrun.
    + apply remove_inv in Hrun
        as [(_ & (m & d & Hp) & Hclock & Htrace & Hupd)|(? & [=] & _)].
      split.
      * apply shrinks_emit; [done|]. split_shrinks; [done| | |].
        -- by eapply trace_ext_one.
        -- apply removed_upd; [eauto| |done]. unfold isdir. by rewrite Hp.
        -- intros Hwf. eapply wf_upd_delete; [done| | |done].
           ++ intros ->. destruct Hwf as [Hroot _]. unfold isdir in Hroot.
              by rewrite Hp in Hroot.
           ++ intros n. by eapply wf_file_leaf.
      * intros _. simpl. apply shape_at_None. by apply shape_upd_same in Hupd.
    + apply ret_inv in Hrun as [_ ->]. split.
      * apply shrinks_emit; [done|apply shrinks_refl].
      * intros _. simpl. by apply path_exists_false.
  - assert (w1 = w ∧ isdir (files w) p = true) as [-> Hd].
    { apply bind_inv in Hrun as [([] & w2 & Hrun & [[=] _]%emit_inv)|(e' & Hrun & _)].
      apply bind_inv in Hrun as [(ex & ? & [[= ->] ->]%gets_inv & Hrun)|(? & [=] & _)].
      revert Hrun. destruct (path_exists (files w) p) eqn:Hex; intros Hrun.
      - unfold remove in Hrun. unfold isdir, path_exists in *.
        destruct (files w !! p) as [[]|]; [done|by injection Hrun as _ <-|done].
      - by apply ret_inv in Hrun as [[=] _]. }
    apply emit_inv in Hlog as [-> ->]. split; [done|]. split.
    + apply shrinks_emit; [done|apply shrinks_refl].
    + congruence.
Qed.

Lemma delete_loop_effect (delete_tasks : list path) (w0 : world) :
  hoare (λ w, w = w0)
    (for_each delete_tasks delete_file_safe)
    (λ r w, r = Ok tt ∧ shrinks delete_event (λ q, q ∈ delete_tasks) false w0 w ∧
            ∀ p, p ∈ delete_tasks → isdir (files w0) p = false → files w !! p = None).
Proof.
  set (Inv := λ (done : list path) (w : world),
         shrinks delete_event (λ q, q ∈ delete_tasks) false w0 w ∧
         ∀ p, p ∈ done → isdir (files w0) p = false → files w !! p = None).
  eapply hoare_conseq;
    [apply (hoare_for_each delete_tasks delete_file_safe Inv (λ _ _, False))| |].
  - intros done p rest Hl. apply hoare_intro. intros w r w' [Hsh Hdone] Hrun.
    apply delete_file_safe_effect in Hrun as (-> & Hstep & Hgone).
    assert (shrinks delete_event (λ q, q ∈ delete_tasks) false w w') as Hstep'.
    { destruct Hstep as (? & ? & Hrem & ?). split_shrinks; [done..| |done].
      eapply removed_weaken; [|done]. intros q ->. rewrite Hl.
      apply elem_of_app. right. by left. }
    split; [by eapply shrinks_trans|].
    intros q [Hq|Hq%list_elem_of_singleton]%elem_of_app Hnd.
    + destruct Hstep as (_ & _ & Hrem & _). eapply removed_None; [done|]. by apply Hdone.
    + subst q. apply Hgone. destruct (isdir (files w) p) eqn:Hd; [|done].
      destruct Hsh as (_ & _ & Hrem & _). apply (removed_isdir _ _ _ _ _ Hrem) in Hd. congruence.
  - intros w ->. split; [apply shrinks_refl|]. by intros ? ?%elem_of_nil.
  - intros [[]|e] w; [|done]. by intros [? ?].
Qed.

Lemma delete_phase_effect (delete_tasks : list path) (threads : Z) (w w' : world)
    (r : result unit) :
  delete_phase delete_tasks threads w = (r, w') →
  shrinks delete_event (λ q, q ∈ delete_tasks) false w w' ∧
  ((0 < threads)%Z →
   r = Ok tt ∧
   ∀ p, p ∈ delete_tasks → isdir (files w) p = false → files w' !! p = None).
Proof.
  unfold delete_phase. destruct delete_tasks as [|p0 tasks] eqn:Htasks.
  { intros [-> ->]%emit_inv. split.
    - apply shrinks_emit; [done|apply shrinks_refl].
    - intros _. split; [done|]. by intros ? ?%elem_of_nil. }
  rewrite <- Htasks. clear Htasks. unfold thread_pool. intros Hrun.
  destruct (Z.leb_spec threads 0) as [Hthr|Hthr].
  { apply bind_inv in Hrun as [(? & ? & [[=] _]%raise_inv & _)|(e & [_ ->]%raise_inv & ->)].
    split; [apply shrinks_refl|lia]. }
  apply bind_inv in Hrun as [([] & w1 & Hloop & Hlog)|(e & Hloop & ->)];
    pose proof (hoare_elim _ _ _ _ _ _ (delete_loop_effect delete_tasks w) eq_refl Hloop)
      as (Hr & Hsh & Hgone); [|done].
  apply emit_inv in Hlog as [-> ->]. split; [by apply shrinks_emit|done].
Qed.

(** ** The order in which obsolete directories are tried *)

Lemma insert_by_depth_perm (x : path * path) (l : list (path * path)) :
  insert_by_depth x l ≡ₚ x :: l.
Proof.
  induction l as [|y l IH]; [done|]. cbn [insert_by_depth].
  destruct (count_sep x.2 <? count_sep y.2); [|done].
  rewrite IH. apply Permutation_swap.
Qed.

Lemma sort_by_depth_perm (l : list (path * path)) : sort_by_depth l ≡ₚ l.
Proof.
  induction l as [|x l IH]; [done|]. cbn [sort_by_depth foldr].
  fold (sort_by_depth l). by rewrite insert_by_depth_perm, IH.
Qed.

Lemma insert_by_depth_sorted (x : path * path) (l : list (path * path)) :
  StronglySorted deeper_first l → StronglySorted deeper_first (insert_by_depth x l).
Proof.
  induction l as [|y l IH]; intros Hs.
  { repeat constructor. }
  apply StronglySorted_inv in Hs as [Hs Hy]. cbn [insert_by_depth].
  destruct (Nat.ltb_spec (count_sep x.2) (count_sep y.2)) as [Hlt|Hge].
  - constructor; [by apply IH|].
    rewrite insert_by_depth_perm. constructor; [|done]. unfold deeper_first. lia.
  - constructor; [by constructor|]. constructor; [done|].
    eapply Forall_impl; [exact Hy|]. unfold deeper_first. intros z Hz. lia.
Qed.

Lemma sort_by_depth_sorted (l : list (path * path)) :
  StronglySorted deeper_first (sort_by_depth l).
Proof.
  induction l as [|x l IH]; [constructor|].
  cbn [sort_by_depth foldr]. by apply insert_by_depth_sorted.
Qed.

Lemma sorted_lookup {A} (R : A → A → Prop) (l : list A) (i j : nat) (a b : A) :
  StronglySorted R l → i < j → l !! i = Some a → l !! j = Some b → R a b.
Proof.
  intros Hs. revert i j. induction Hs as [|x l Hs IH Hx]; intros i j Hij Ha Hb; [done|].
  destruct j as [|j]; [lia|]. destruct i as [|i]; simpl in *.
  - injection Ha as <-. rewrite Forall_forall in Hx. apply Hx.
    by eapply list_elem_of_lookup_2.
  - apply (IH i j); [lia|done..].
Qed.

Lemma strict_prefix_count_sep (p q : path) :
  p ≠ [] → p `prefix_of` q → p ≠ q → count_sep p < count_sep q.
Proof.
  intros Hne [k ->] Hneq. unfold count_sep. rewrite length_app.
  destruct p; [done|]. destruct k; [by rewrite app_nil_r in Hneq|]. simpl. lia.
Qed.

(** ** Removing obsolete directories *)

Section Obsolete.
Context `{Hasher}.

(** The loop body of [remove_obsolete_directories], case by case. *)
Lemma remove_if_obsolete_inv (src_dirs : gset path) (abs_dst rel : path) (c : nat)
    (w w' : world) (r : result nat) :
  remove_if_obsolete src_dirs (abs_dst, rel) c w = (r, w') →
  (rel ∈ src_dirs ∧ r = Ok c ∧ w' = w) ∨
  ((rel ∉ src_dirs) ∧ isdir (files w) abs_dst = true ∧ abs_dst ≠ [] ∧
   children (files w) abs_dst = [] ∧ r = Ok (S c) ∧ clock w' = clock w ∧
   trace w' = trace w ++ [Rmdir abs_dst; Log INFO (MsgDirRemoved rel)] ∧
   shape_upd (files w) abs_dst None (files w')) ∨
  ((rel ∉ src_dirs) ∧ isdir (files w) abs_dst = true ∧
   children (files w) abs_dst ≠ [] ∧ r = Ok c ∧
   w' = World (files w) (clock w) (trace w ++ [Log WARNING (MsgDirNotEmpty rel)])) ∨
  ((rel ∉ src_dirs) ∧ (isdir (files w) abs_dst = false ∨ abs_dst = []) ∧ r = Ok c ∧
   ∃ e, w' = World (files w) (clock w) (trace w ++ [Log ERROR (MsgDirError abs_dst e)])).
Proof.
  unfold remove_if_obsolete. case_bool_decide as Hsrc.
  2: { intros [-> ->]%ret_inv. left. by split_and!. }
  intros Hrun. right.
  apply try_except_inv in Hrun as [(c' & Hrun & ->)|(e & w1 & Hrun & Hlog)].
  - apply bind_inv in Hrun as [(names & ? & [Hls ->]%lift_inv & Hrun)|(? & ? & [=])].
    symmetry in Hls. apply listdir_Ok in Hls as [Hd ->].
    destruct (children (files w) abs_dst) as [|n names] eqn:Hch.
    + left. apply bind_inv in Hrun as [([] & w2 & Hrm & Hrun)|(? & ? & [=])].
      apply bind_inv in Hrun as [([] & ? & [_ ->]%emit_inv & Hrun)|(? & ? & [=])].
      apply ret_inv in Hrun as [[= <-] ->].
      apply rmdir_inv in Hrm
        as [(_ & Hne & _ & _ & Hclock & Htrace & Hupd)|(? & [=] & _)].
      simpl. split_and!; try done. by rewrite Htrace, <- app_assoc.
    + right. left.
      apply bind_inv in Hrun as [([] & ? & [_ ->]%emit_inv & Hrun)|(? & ? & [=])].
      apply ret_inv in Hrun as [[= <-] ->]. by split_and!.
  - right. right.
    assert (w1 = w ∧ (isdir (files w) abs_dst = false ∨ abs_dst = [])) as [-> Hwhy].
    { apply bind_inv in Hrun as [(names & ? & [Hls ->]%lift_inv & Hrun)|(? & [Hls ->]%lift_inv & _)].
      - symmetry in Hls. apply listdir_Ok in Hls as [Hd ->].
        destruct (children (files w) abs_dst) as [|n names] eqn:Hch.
        + apply bind_inv in Hrun as [([] & w2 & Hrm & Hrun)|(? & Hrm & _)].
          * apply bind_inv in Hrun as [([] & ? & [_ ->]%emit_inv & Hrun)|(? & [[=] _]%emit_inv & _)].
            by apply ret_inv in Hrun as [[=] _].
          * split; [by apply rmdir_inv in Hrm as [([=] & _)|(? & _ & ->)]|].
            right. unfold rmdir in Hrm. unfold isdir in Hd.
            destruct (files w !! abs_dst) as [[]|]; try done.
            destruct abs_dst; [done|]. by rewrite Hch in Hrm.
        + apply bind_inv in Hrun as [([] & ? & [_ ->]%emit_inv & Hrun)|(? & [[=] _]%emit_inv & _)].
          by apply ret_inv in Hrun as [[=] _].
      - split; [done|]. left. destruct (isdir (files w) abs_dst) eqn:Hd; [|done].
        assert (listdir (files w) abs_dst = Ok (children (files w) abs_dst)) as Hok
          by by apply listdir_Ok.
        congruence. }
    apply bind_inv in Hlog as [([] & ? & [_ ->]%emit_inv & Hret)|(? & [[=] _]%emit_inv & _)].
    apply ret_inv in Hret as [-> ->]. split_and!; try done. by exists e.
Qed.

Lemma children_removed (D : path → Prop) (dirs : bool) (fs fs' : gmap path entry) (p : path) :
  removed D dirs fs fs' → children fs p = [] → children fs' p = [].
Proof.
  intros Hr Hch. destruct (children fs' p) as [|n names] eqn:Hch'; [done|].
  assert (n ∈ children fs' p) as Hn by (rewrite Hch'; by left).
  apply elem_of_children, (removed_exists _ _ _ _ _ Hr), elem_of_children in Hn.
  rewrite Hch in Hn. by apply elem_of_nil in Hn.
Qed.

(** The loop of [remove_obsolete_directories]: it never raises, it only
    removes directories that are tried and have no source counterpart, and it
    removes each of those that is empty when the loop starts. *)
Lemma obsolete_loop_effect (src_dirs : gset path) (l : list (path * path)) (w0 : world) :
  hoare (λ w, w = w0)
    (for_fold l (remove_if_obsolete src_dirs) 0)
    (λ r w, (∃ c, r = Ok c) ∧
            shrinks cleanup_event (λ q, ∃ rel, (q, rel) ∈ l ∧ rel ∉ src_dirs) true w0 w ∧
            ∀ abs_dst rel, (abs_dst, rel) ∈ l → rel ∉ src_dirs →
                           isdir (files w0) abs_dst = true → abs_dst ≠ [] →
                           children (files w0) abs_dst = [] →
                           files w !! abs_dst = None).
Proof.
  set (D := λ q, ∃ rel, (q, rel) ∈ l ∧ rel ∉ src_dirs).
  set (Inv := λ (done : list (path * path)) (_ : nat) (w : world),
         shrinks cleanup_event D true w0 w ∧
         ∀ abs_dst rel, (abs_dst, rel) ∈ done → rel ∉ src_dirs →
                        isdir (files w0) abs_dst = true → abs_dst ≠ [] →
                        children (files w0) abs_dst = [] →
                        files w !! abs_dst = None).
  eapply hoare_conseq;
    [apply (hoare_for_fold l (remove_if_obsolete src_dirs) Inv (λ _ _, False))| |].
  - intros done [a rel] rest c Hl. apply hoare_intro. intros w r w' [Hsh Hdone] Hrun.
    assert ((a, rel) ∈ l) as Hin by (rewrite Hl; apply elem_of_app; right; by left).
    pose proof Hsh as (_ & _ & Hrem & _).
    apply remove_if_obsolete_inv in Hrun
      as [(Hsrc & -> & ->)
         |[(Hsrc & Hd & Hne & Hch & -> & Hclock & Htrace & Hupd)
          |[(Hsrc & Hd & Hch & -> & ->)|(Hsrc & Hwhy & -> & e & ->)]]].
    + split; [done|].
      intros a' rel' [Hin'|Hin'%list_elem_of_singleton]%elem_of_app ? ? ? ?;
        [by eapply Hdone|].
      injection Hin' as -> ->. done.
    + assert (shrinks cleanup_event D true w w') as Hstep.
      { split_shrinks; [done| | |].
        - eexists. split; [done|]. by repeat constructor.
        - eapply removed_weaken; [|apply removed_upd; [by apply isdir_exists|done..]].
          intros q ->. by exists rel.
        - intros Hwf. eapply wf_upd_delete; [done..| |done].
          intros n. by apply children_nil_leaf. }
      split; [by eapply shrinks_trans|].
      intros a' rel' [Hin'|Hin'%list_elem_of_singleton]%elem_of_app ? ? ? ?.
      * destruct Hstep as (_ & _ & Hrem' & _). eapply removed_None; [done|]. by eapply Hdone.
      * injection Hin' as -> ->. apply shape_at_None. by apply shape_upd_same in Hupd.
    + split; [by apply shrinks_emit|].
      intros a' rel' [Hin'|Hin'%list_elem_of_singleton]%elem_of_app ? ? ? Hch0;
        [by eapply Hdone|].
      injection Hin' as -> ->. by apply (children_removed _ _ _ _ _ Hrem) in Hch0.
    + split; [by apply shrinks_emit|].
      intros a' rel' [Hin'|Hin'%list_elem_of_singleton]%elem_of_app ? Hd0 Hne0 ?;
        [by eapply Hdone|].
      injection Hin' as -> ->. simpl. destruct Hwhy as [Hnd|?]; [|done].
      destruct (Hrem a) as [Hs|(_ & _ & _ & ?)]; [|done].
      apply isdir_shape in Hd0. rewrite <- Hs in Hd0. apply isdir_shape in Hd0. congruence.
  - intros w ->. split; [apply shrinks_refl|]. by intros ?? ?%elem_of_nil.
  - intros [c|e] w; [|done]. intros [? ?]. split; [by exists c|done].
Qed.

Lemma elem_of_src_dirs (fs : gmap path entry) (src rel : path) :
  rel ∈ (list_to_set (map snd (dir_listing fs src)) : gset path) ↔ dir_under fs src rel.
Proof.
  rewrite elem_of_list_to_set, list_elem_of_fmap. split.
  - intros ([a rel'] & -> & Hin). by apply elem_of_dir_listing in Hin as [_ ?].
  - intros Hd. exists (src ++ rel, rel). split; [done|]. by apply elem_of_dir_listing.
Qed.

Lemma remove_obsolete_directories_unfold (src dst : path) (w : world) :
  remove_obsolete_directories src dst w
  = (removed_count <-
       for_fold (sort_by_depth (dir_listing (files w) dst))
         (remove_if_obsolete (list_to_set (map snd (dir_listing (files w) src)))) 0 ;;
     if 0 <? removed_count then log INFO (MsgDirsRemoved removed_count)
     else log INFO MsgNoObsoleteDir) (walked src dst w).
Proof. reflexivity. Qed.

Lemma remove_obsolete_directories_effect (src dst : path) (w w' : world) (r : result unit) :
  remove_obsolete_directories src dst w = (r, w') →
  r = Ok tt ∧ shrinks cleanup_event (obsolete (files w) src dst) true w w' ∧
  ∀ rel, dir_under (files w) dst rel → ¬ dir_under (files w) src rel →
         children (files w) (dst ++ rel) = [] → files w' !! (dst ++ rel) = None.
Proof.
  rewrite remove_obsolete_directories_unfold. intros Hrun.
  assert (shrinks cleanup_event (obsolete (files w) src dst) true w (walked src dst w)) as Hw.
  { apply (shrinks_emit _ _ _ w (World (files w) (clock w) (trace w ++ [Walk src]))
             (Walk dst)); [done|].
    apply (shrinks_emit _ _ _ w w (Walk src)); [done|apply shrinks_refl]. }
  apply bind_inv in Hrun as [(c & w1 & Hloop & Hlog)|(e & Hloop & ->)];
    pose proof (hoare_elim _ _ _ _ _ _ (obsolete_loop_effect _ _ _) eq_refl Hloop)
      as ([c' Hc] & Hsh & Hgone); [|done].
  assert (shrinks cleanup_event (obsolete (files w) src dst) true w w1) as Hw1.
  { eapply shrinks_trans; [exact Hw|]. destruct Hsh as (? & ? & Hrem & ?).
    split_shrinks; [done..| |done]. eapply removed_weaken; [|done].
    intros q (rel & Hin & Hsrc). rewrite sort_by_depth_perm in Hin.
    apply elem_of_dir_listing in Hin as [-> Hd]. exists rel. split_and!; [done..|].
    by rewrite <- elem_of_src_dirs. }
  assert (r = Ok tt ∧ files w' = files w1 ∧ shrinks cleanup_event (obsolete (files w) src dst) true w w')
    as (-> & Hf & Hw').
  { destruct (0 <? c); apply emit_inv in Hlog as [-> ->]; (split; [done|]);
      (split; [done|]); by apply shrinks_emit. }
  split; [done|]. split; [done|]. intros rel Hd Hsrc Hch. rewrite Hf.
  apply (Hgone (dst ++ rel) rel).
  - rewrite sort_by_depth_perm. by apply elem_of_dir_listing.
  - by rewrite elem_of_src_dirs.
  - destruct Hd as [_ Hr]. by apply reachable_end in Hr.
  - destruct Hd as [Hne _]. by destruct dst, rel.
  - done.
Qed.

(** C5: [remove_obsolete_directories] runs its loop over the directories of
    the destination sorted by non-increasing number of separators, so that a
    directory is tried before every directory that contains it; a tried
    directory whose relative path is not a directory of the source is removed
    when it is empty, and kept with a warning when it is not; a directory
    whose relative path is a directory of the source is left alone, by each
    step and by the whole run. *)
Theorem remove_obsolete_directories_spec (src dst : path) (w : world) :
  let src_dirs : gset path := list_to_set (map snd (dir_listing (files w) src)) in
  let dst_dirs := sort_by_depth (dir_listing (files w) dst) in
  remove_obsolete_directories src dst w
  = (removed_count <- for_fold dst_dirs (remove_if_obsolete src_dirs) 0 ;;
     if 0 <? removed_count then log INFO (MsgDirsRemoved removed_count)
     else log INFO MsgNoObsoleteDir) (walked src dst w) ∧
  dst_dirs ≡ₚ dir_listing (files w) dst ∧
  (∀ i j a b, dst_dirs !! i = Some a → dst_dirs !! j = Some b → i < j →
              count_sep b.2 ≤ count_sep a.2) ∧
  (∀ i j a b, dst_dirs !! i = Some a → dst_dirs !! j = Some b →
              b.2 `prefix_of` a.2 → b.2 ≠ a.2 → i < j) ∧
  (∀ abs_dst rel c wc,
     isdir (files wc) abs_dst = true → abs_dst ≠ [] →
     remove_if_obsolete src_dirs (abs_dst, rel) c wc =
     if decide (rel ∈ src_dirs) then (Ok c, wc)
     else match children (files wc) abs_dst with
          | [] => (Ok (S c),
                   World (touch (clock wc) (parent abs_dst) (delete abs_dst (files wc)))
                         (clock wc)
                         (trace wc ++ [Rmdir abs_dst; Log INFO (MsgDirRemoved rel)]))
          | _ => (Ok c,
                  World (files wc) (clock wc)
                        (trace wc ++ [Log WARNING (MsgDirNotEmpty rel)]))
          end) ∧
  (∀ rel, dir_under (files w) dst rel → dir_under (files w) src rel →
          isdir (files (remove_obsolete_directories src dst w).2) (dst ++ rel) = true).
Proof.
  intros src_dirs dst_dirs.
  split; [reflexivity|]. split; [apply sort_by_depth_perm|].
  assert (∀ i j a b, dst_dirs !! i = Some a → dst_dirs !! j = Some b → i < j →
                     count_sep b.2 ≤ count_sep a.2) as Hsorted.
  { intros i j a b Ha Hb Hij.
    apply (sorted_lookup deeper_first dst_dirs i j a b); [|done..].
    apply sort_by_depth_sorted. }
  split; [exact Hsorted|]. split; [|split].
  - intros i j a b Ha Hb Hpre Hneq.
    assert (b.2 ≠ []) as Hne.
    { apply list_elem_of_lookup_2 in Hb. unfold dst_dirs in Hb.
      rewrite sort_by_depth_perm in Hb. destruct b as [b1 b2].
      by apply elem_of_dir_listing in Hb as (_ & ? & _). }
    pose proof (strict_prefix_count_sep _ _ Hne Hpre Hneq) as Hlt.
    destruct (Nat.lt_trichotomy i j) as [?|[->|Hji]]; [done| |].
    + rewrite Ha in Hb. injection Hb as ->. done.
    + specialize (Hsorted j i b a Hb Ha Hji). lia.
  - intros abs_dst rel c wc Hd Hne. unfold remove_if_obsolete.
    destruct (decide (rel ∈ src_dirs)) as [Hin|Hin].
    { by rewrite bool_decide_eq_false_2 by (intros Hn; by apply Hn). }
    rewrite bool_decide_eq_true_2 by done.
    assert (listdir (files wc) abs_dst = Ok (children (files wc) abs_dst)) as Hls
      by by apply listdir_Ok.
    unfold try_except, bind at 1, lift. rewrite Hls.
    destruct (children (files wc) abs_dst) as [|n names] eqn:Hch; [|reflexivity].
    unfold bind at 1, rmdir. unfold isdir in Hd.
    destruct (files wc !! abs_dst) as [[]|]; try done.
    destruct abs_dst; [done|]. rewrite Hch. unfold bind, log, emit, ret. simpl.
    by rewrite <- app_assoc.
  - intros rel Hdst Hsrc.
    destruct (remove_obsolete_directories src dst w) as [r w'] eqn:Hrun. simpl.
    apply remove_obsolete_directories_effect in Hrun as (_ & (_ & _ & Hrem & _) & _).
    destruct (Hrem (dst ++ rel)) as [Hs|((rel' & Heq & _ & Hno) & _)].
    + apply isdir_shape. rewrite Hs. apply isdir_shape.
      destruct Hdst as [_ Hr]. by apply reachable_end in Hr.
    + apply app_inv_head in Heq as <-. done.
Qed.

End Obsolete.

(** ** Two runs in a row *)

Lemma mirrored_prefix (fs : gmap path entry) (src dst rel q : path) :
  dir_under fs src rel → q `prefix_of` dst ++ rel → mirrored fs src dst q.
Proof.
  intros Hd Hq.
  destruct (prefix_weak_total q dst (dst ++ rel)) as [?|[r' ->]];
    [done|by exists rel|by left|].
  apply prefix_app_inv in Hq. destruct (decide (r' = [])) as [->|Hne].
  - left. by rewrite app_nil_r.
  - right. exists r'. split; [done|]. by eapply dir_under_prefix.
Qed.

Lemma mirrored_agree (fs fs' : gmap path entry) (src dst : path) :
  separate src dst → dirs_added (mirrored fs src dst) fs fs' → agree_below src fs fs'.
Proof.
  intros Hsep Hadd x. destruct (Hadd (src ++ x)) as [?|(_ & _ & [Hq|(rel & Hq & _)])]; [done| |].
  - by apply (separate_above src dst _ x) in Hq.
  - by apply separate_neq in Hq.
Qed.

Lemma compatible_clear_way (src dst rel : path) (fs : gmap path entry) :
  compatible src dst fs → dir_under fs src rel → clear_way fs (dst ++ rel).
Proof.
  intros (_ & _ & _ & Hway & Hdirs & _) Hd q Hq Hex.
  destruct (mirrored_prefix _ _ _ _ _ Hd Hq) as [?|(r' & -> & Hd')].
  - by apply Hway.
  - by apply Hdirs.
Qed.

Section Setup.
Context `{Hasher}.

(** The first stage of a run on compatible folders: the destination folder
    and the mirror image of each source directory are created where they
    are missing, and nothing else changes. *)
Lemma setup_prepares (src dst : path) (w : world) :
  compatible src dst (files w) →
  ∃ wa w1,
    makedirs dst (started src dst w) = (Ok tt, wa) ∧
    sync_directories src dst wa = (Ok tt, w1) ∧
    wf (files w1) ∧ clock w1 = clock w ∧
    dirs_added (mirrored (files w) src dst) (files w) (files w1) ∧
    isdir (files w1) dst = true ∧
    (∀ rel, dir_under (files w) src rel → isdir (files w1) (dst ++ rel) = true).
Proof.
  intros Hcompat. pose proof Hcompat as (Hwf & Hsep & Hsrc & Hway & Hdirs & Hfiles).
  set (w0 := started src dst w).
  pose proof (makedirs_ok dst w0 Hwf Hway) as Hok.
  destruct (makedirs_step setup_event (mirrored (files w) src dst) dst w0)
    as [(Hca & _ & Hadd_a & Hwf_a) Hdst]; [done|by left|].
  destruct (makedirs dst w0) as [ra wa] eqn:Hmk. simpl in *. subst ra.
  specialize (Hwf_a Hwf). specialize (Hdst eq_refl).
  pose proof (mirrored_agree _ _ _ _ Hsep Hadd_a) as Hagree_a.
  destruct (sync_directories src dst wa) as [rb w1] eqn:Hsd.
  pose proof (sync_directories_effect _ _ _ _ _ Hsd)
    as ((Hc1 & _ & Hadd_1 & Hwf_1) & Hexists & Htotal).
  assert (∀ rel, dir_under (files wa) src rel → dir_under (files w) src rel) as Hback.
  { intros rel. apply agree_dir_under. by apply agree_below_sym. }
  assert (rb = Ok tt) as ->.
  { apply Htotal; [done|]. intros rel Hrel.
    eapply clear_way_grows; [done|]. eapply compatible_clear_way; eauto. }
  assert (dirs_added (mirrored (files w) src dst) (files w) (files w1)) as Hadd.
  { eapply dirs_added_trans; [exact Hadd_a|].
    eapply dirs_added_weaken; [|exact Hadd_1].
    intros q (rel & Hrel & Hq). eapply mirrored_prefix; eauto. }
  exists wa, w1. split_and!; [done|done|by apply Hwf_1|congruence|done| |].
  - exact (dirs_added_isdir _ _ _ _ Hadd_1 Hdst).
  - intros rel Hrel.
    assert (path_exists (files w1) (dst ++ rel) = true) as Hex.
    { apply Hexists; [done|]. by eapply agree_dir_under. }
    destruct (Hadd (dst ++ rel)) as [Hs|(_ & ? & _)]; [|done].
    apply isdir_shape. rewrite Hs. apply isdir_shape, Hdirs; [done|].
    apply path_exists_shape. rewrite <- Hs. by apply path_exists_shape.
Qed.

End Setup.

(** The file system through the last three stages of a run: [fs1] when the
    plan is made, [fs2] after the copies, [fs3] after the deletions, [fs4]
    after the removal of obsolete directories. *)
Section Pipeline.
Variables (src dst : path) (copy_tasks : list (path * path)) (delete_tasks : list path).
Variable (D : path → Prop).
Variables fs1 fs2 fs3 fs4 : gmap path entry.

Hypothesis copy_reads : ∀ rel, (src ++ rel, rel) ∈ copy_tasks →
  (∃ m d, fs1 !! (src ++ rel) = Some (File m d)) ∧ isdir fs1 (dst ++ rel) = false.
Hypothesis copy_other : ∀ q, (∀ rel, (src ++ rel, rel) ∈ copy_tasks → q ≠ dst ++ rel) →
  shape_at fs2 q = shape_at fs1 q.
Hypothesis copy_done : ∀ rel, (src ++ rel, rel) ∈ copy_tasks →
  shape_at fs2 (dst ++ rel) = shape_at fs1 (src ++ rel).
Hypothesis delete_only : removed (λ q, q ∈ delete_tasks) false fs2 fs3.
Hypothesis delete_done : ∀ p, p ∈ delete_tasks → isdir fs2 p = false → fs3 !! p = None.
Hypothesis cleanup_only : removed D true fs3 fs4.

Lemma copy_target_dec (q : path) :
  (∃ rel, (src ++ rel, rel) ∈ copy_tasks ∧ q = dst ++ rel) ∨
  (∀ rel, (src ++ rel, rel) ∈ copy_tasks → q ≠ dst ++ rel).
Proof.
  destruct (decide ((src ++ relative_to q dst, relative_to q dst) ∈ copy_tasks ∧
                    q = dst ++ relative_to q dst)) as [[Hin Hq]|Hno].
  - left. by exists (relative_to q dst).
  - right. intros rel Hrel ->. apply Hno. by rewrite relative_to_app.
Qed.

(** The copies write files only. *)
Lemma copy_keeps_dirs (q : path) : isdir fs2 q = isdir fs1 q.
Proof.
  destruct (copy_target_dec q) as [(rel & Hrel & ->)|Hno].
  - destruct (copy_reads rel Hrel) as [(m & d & Hsrc) Hnd]. rewrite Hnd.
    apply shape_at_File in Hsrc. rewrite <- copy_done in Hsrc by done.
    apply shape_at_File in Hsrc. unfold isdir. by rewrite Hsrc.
  - apply eq_true_iff_eq. by rewrite !isdir_shape, copy_other.
Qed.

(** A directory is still there at the end unless it is removed as
    obsolete. *)
Lemma pipeline_dir (q : path) : isdir fs1 q = true → ¬ D q → isdir fs4 q = true.
Proof.
  intros Hd HD. rewrite <- copy_keeps_dirs in Hd.
  assert (isdir fs3 q = true) as Hd3.
  { destruct (delete_only q) as [Hs|(_ & _ & ? & _)]; [|congruence].
    apply isdir_shape. rewrite Hs. by apply isdir_shape. }
  destruct (cleanup_only q) as [Hs|(? & _)]; [|done].
  apply isdir_shape. rewrite Hs. by apply isdir_shape.
Qed.

Lemma pipeline_dir_back (q : path) : isdir fs4 q = true → isdir fs1 q = true.
Proof.
  intros Hd. rewrite <- copy_keeps_dirs.
  eapply removed_isdir; [exact delete_only|].
  eapply removed_isdir; [exact cleanup_only|done].
Qed.

(** A file at the end is a file that was copied or a file that was there
    and was not deleted. *)
Lemma pipeline_file (q : path) m d :
  fs4 !! q = Some (File m d) →
  (q ∉ delete_tasks) ∧
  ((∃ rel, (src ++ rel, rel) ∈ copy_tasks ∧ q = dst ++ rel ∧
           fs1 !! (src ++ rel) = Some (File m d)) ∨
   ((∀ rel, (src ++ rel, rel) ∈ copy_tasks → q ≠ dst ++ rel) ∧
    fs1 !! q = Some (File m d))).
Proof.
  intros Hf4.
  assert (fs3 !! q = Some (File m d)) as Hf3.
  { destruct (cleanup_only q) as [Hs|(_ & _ & _ & ?)]; [|congruence].
    apply shape_at_File. rewrite <- Hs. by apply shape_at_File. }
  assert (fs2 !! q = Some (File m d)) as Hf2.
  { destruct (delete_only q) as [Hs|(_ & _ & _ & ?)]; [|congruence].
    apply shape_at_File. rewrite <- Hs. by apply shape_at_File. }
  split.
  - intros Hin. rewrite delete_done in Hf3; [done..|]. unfold isdir. by rewrite Hf2.
  - destruct (copy_target_dec q) as [(rel & Hrel & ->)|Hno].
    + left. exists rel. split_and!; [done..|].
      apply shape_at_File. rewrite <- copy_done by done. by apply shape_at_File.
    + right. split; [done|].
      apply shape_at_File. rewrite <- copy_other by done. by apply shape_at_File.
Qed.

(** A file that is written or kept by the copies and is not in the delete
    set is there at the end. *)
Lemma pipeline_keeps (q : path) m d :
  fs2 !! q = Some (File m d) → q ∉ delete_tasks → fs4 !! q = Some (File m d).
Proof.
  intros Hf2 Hdel.
  assert (fs3 !! q = Some (File m d)) as Hf3.
  { destruct (delete_only q) as [Hs|(? & _)]; [|done].
    apply shape_at_File. rewrite Hs. by apply shape_at_File. }
  destruct (cleanup_only q) as [Hs|(_ & _ & Hd & _)].
  - apply shape_at_File. rewrite Hs. by apply shape_at_File.
  - unfold isdir in Hd. by rewrite Hf3 in Hd.
Qed.

(** What is neither written, nor deleted, nor removed keeps its shape. *)
Lemma pipeline_frame3 (q : path) :
  (∀ rel, (src ++ rel, rel) ∈ copy_tasks → q ≠ dst ++ rel) →
  q ∉ delete_tasks → shape_at fs3 q = shape_at fs1 q.
Proof.
  intros Hcopy Hdel. rewrite <- copy_other by done.
  by destruct (delete_only q) as [->|(? & _)].
Qed.

Lemma pipeline_frame (q : path) :
  (∀ rel, (src ++ rel, rel) ∈ copy_tasks → q ≠ dst ++ rel) →
  q ∉ delete_tasks → ¬ D q → shape_at fs4 q = shape_at fs1 q.
Proof.
  intros Hcopy Hdel HD. rewrite <- pipeline_frame3 by done.
  by destruct (cleanup_only q) as [->|(? & _)].
Qed.

End Pipeline.

Section Convergence.
Context `{Hasher}.
Variable cpu_count : positive.

Lemma verdict_decided (fs : gmap path entry) (a b : path) m d :
  fs !! a = Some (File m d) → isdir fs b = false → ∃ answer, verdict fs a b = Ok answer.
Proof.
  unfold verdict, isdir. intros -> Hnd.
  destruct (fs !! b) as [[]|]; [|done|by eexists].
  destruct (_ >? _)%Z; by eexists.
Qed.

Lemma verdict_same_file (fs : gmap path entry) (a b : path) m d :
  fs !! a = Some (File m d) → fs !! b = Some (File m d) → verdict fs a b = Ok false.
Proof.
  unfold verdict. intros -> ->. simpl. by destruct (Z.gtb_spec m m); [lia|].
Qed.

Lemma verdict_false_exists (fs : gmap path entry) (a b : path) :
  verdict fs a b = Ok false → is_Some (fs !! b).
Proof. unfold verdict. destruct (fs !! b); [eauto|done]. Qed.

(** What the plan of a run reads of the source, once the first stage has
    prepared the destination. *)
Lemma prepared_source (src dst : path) (fs fs1 : gmap path entry) (a rel : path) :
  compatible src dst fs →
  dirs_added (mirrored fs src dst) fs fs1 →
  isdir fs1 dst = true →
  (∀ rel, dir_under fs src rel → isdir fs1 (dst ++ rel) = true) →
  (a, rel) ∈ file_listing fs1 src true →
  a = src ++ rel ∧ file_under fs src rel ∧ should_skip_file (basename rel) = false ∧
  (∃ m d, fs1 !! (src ++ rel) = Some (File m d)) ∧
  isdir fs1 (dst ++ rel) = false ∧ isdir fs1 (parent (dst ++ rel)) = true.
Proof.
  intros (Hwf & Hsep & Hsrc & Hway & Hdirs & Hfiles) Hadd Hdst Hmirror.
  intros (-> & Hfu & Hskip)%elem_of_file_listing. specialize (Hskip eq_refl).
  pose proof (mirrored_agree _ _ _ _ Hsep Hadd) as Hagree.
  assert (file_under fs src rel) as Hfu0.
  { eapply agree_file_under; [|done]. by apply agree_below_sym. }
  pose proof Hfu0 as [Hne _].
  split_and!; try done.
  - by apply file_under_File.
  - destruct (Hadd (dst ++ rel)) as [Hs|(_ & _ & [Hpre|(rel' & Heq & Hd')])].
    + rewrite <- (Hfiles rel Hfu0 Hskip). apply eq_true_iff_eq.
      by rewrite !isdir_shape, Hs.
    + apply prefix_length in Hpre. rewrite length_app in Hpre.
      destruct rel; [done|simpl in Hpre; lia].
    + apply app_inv_head in Heq as <-. by apply file_not_dir_under in Hfu0.
  - rewrite parent_app by done.
    destruct (file_under_parent _ _ _ Hfu0) as [->|Hd]; [by rewrite app_nil_r|].
    by apply Hmirror.
Qed.

Lemma elem_of_src_rel_paths (src_files : list (path * path)) (rel : path) :
  rel ∈ (list_to_set (map snd src_files) : gset path) ↔ ∃ a, (a, rel) ∈ src_files.
Proof.
  rewrite elem_of_list_to_set, list_elem_of_fmap. split.
  - intros ([a rel'] & -> & Hin). by exists a.
  - intros [a Hin]. by exists (a, rel).
Qed.

(** The first run on compatible folders succeeds and leaves the destination
    a mirror of the source. *)
Lemma first_run_syncs (src dst : path) (threads : Z) (w : world) :
  compatible src dst (files w) → (0 < threads)%Z →
  ∃ w', sync_folders cpu_count src dst threads w = (Ok tt, w') ∧
        synced src dst (files w').
Proof.
  intros Hcompat Hthr.
  pose proof Hcompat as (Hwf & Hsep & Hsrc & Hway & Hdirs & Hfiles).
  destruct (setup_prepares src dst w Hcompat)
    as (wa & w1 & Hmk & Hsd & Hwf1 & Hclock1 & Hadd & Hdst1 & Hmirror).
  pose proof (mirrored_agree _ _ _ _ Hsep Hadd) as Hagree1.
  set (src_files := file_listing (files w1) src true).
  pose proof (λ a rel, prepared_source src dst (files w) (files w1) a rel
                         Hcompat Hadd Hdst1 Hmirror) as Hsource.
  fold src_files in Hsource.
  (* the plan *)
  destruct (sync_plan src dst w) as [rp wp] eqn:Hplan.
  pose proof Hplan as [(Hno & _)|(_ & ra & wa' & Hmk' & Hrest)]%sync_plan_inv;
    [congruence|].
  rewrite Hmk in Hmk'. injection Hmk' as <- <-.
  destruct Hrest as (rb & w1' & Hsd' & Hrest). rewrite Hsd in Hsd'. injection Hsd' as <- <-.
  destruct Hrest as (Hfp & Hcp & _ & Hrp). cbv zeta in Hrp. fold src_files in Hrp.
  assert (Forall (decided (files w1) dst) src_files) as Hdec.
  { apply Forall_forall. intros [a rel] Hin.
    destruct (Hsource a rel Hin) as (-> & _ & _ & (m & d & Hf) & Hnd & _).
    by eapply verdict_decided. }
  destruct rp as [[copy_tasks delete_tasks]|e]; [|by destruct (Hrp Hdec)].
  destruct Hrp as (Hcopy & _ & Hdel).
  assert (∀ a rel, (a, rel) ∈ copy_tasks ↔
                   (a, rel) ∈ src_files ∧ wanted (files w1) dst (a, rel) = true) as Hincopy.
  { intros a rel. rewrite Hcopy. apply elem_of_bool_filter. }
  assert (∀ p, p ∈ delete_tasks ↔
               ∃ rel, (p, rel) ∈ file_listing (files w1) dst false ∧
                      (should_skip_file (basename rel) = true ∨
                       ¬ ∃ a, (a, rel) ∈ src_files)) as Hindel.
  { intros p. rewrite Hdel, elem_of_delete_tasks.
    by setoid_rewrite elem_of_src_rel_paths. }
  (* the copies *)
  assert (copy_ready (files wp) src dst copy_tasks) as Hready.
  { rewrite Hfp. intros a rel [Hin _]%Hincopy.
    by destruct (Hsource a rel Hin) as (-> & _ & _ & ? & ? & ?). }
  destruct (copy_phase_sync cpu_count src dst copy_tasks threads wp)
    as (w2 & Hcopyrun & Hwf2 & Hother & Hdone); [by rewrite Hfp|done..|].
  rewrite Hfp in Hother, Hdone.
  assert (∀ rel, (src ++ rel, rel) ∈ copy_tasks →
                 (∃ m d, files w1 !! (src ++ rel) = Some (File m d)) ∧
                 isdir (files w1) (dst ++ rel) = false) as Hreads.
  { intros rel [Hin _]%Hincopy.
    by destruct (Hsource _ rel Hin) as (_ & _ & _ & ? & ? & _). }
  (* the deletions *)
  destruct (delete_phase delete_tasks threads w2) as [r3 w3] eqn:Hdelrun.
  pose proof (delete_phase_effect _ _ _ _ _ Hdelrun)
    as ((Hc3 & _ & Hrem3 & Hwf3) & Hok3).
  destruct (Hok3 Hthr) as [-> Hgone]. clear Hok3.
  (* the obsolete directories *)
  set (w3' := World (files w3) (clock w3) (trace w3 ++ [Log INFO MsgCheckDirs])).
  destruct (remove_obsolete_directories src dst w3') as [r4 w4] eqn:Hrod.
  pose proof (remove_obsolete_directories_effect _ _ _ _ _ Hrod)
    as (-> & (Hc4 & _ & Hrem4 & Hwf4) & _).
  simpl in Hrem4, Hwf4.
  exists w4. split.
  { unfold sync_folders. rewrite (bind_ok _ _ _ _ _ Hplan). cbv beta iota.
    rewrite (bind_ok _ _ _ _ _ Hcopyrun), (bind_ok _ _ _ _ _ Hdelrun).
    erewrite bind_ok by reflexivity. exact Hrod. }
  (* nothing of the source is a place the run writes to *)
  assert (∀ q, q ∈ delete_tasks → ∃ rel, q = dst ++ rel ∧ rel ≠ []) as Hdelpath.
  { intros q (rel & (-> & (Hne & _) & _)%elem_of_file_listing & _)%Hindel. eauto. }
  assert (∀ q, obsolete (files w3) src dst q → ∃ rel, q = dst ++ rel ∧ rel ≠ []) as Hobspath.
  { intros q (rel & -> & [Hne _] & _). eauto. }
  assert (agree_below src (files w1) (files w3)) as Hagree3.
  { intros x. eapply (pipeline_frame3 src dst copy_tasks delete_tasks); eauto.
    - intros rel _. by apply separate_neq.
    - intros (rel & Heq & _)%Hdelpath. by apply separate_neq in Heq. }
  assert (agree_below src (files w1) (files w4)) as Hagree4.
  { intros x. rewrite <- Hagree3.
    destruct (Hrem4 (src ++ x)) as [?|((rel & Heq & _)%Hobspath & _)]; [done|].
    by apply separate_neq in Heq. }
  assert (agree_below src (files w) (files w4)) as Hagree
    by by eapply agree_below_trans.
  assert (∀ rel, file_under (files w4) src rel → should_skip_file (basename rel) = false →
                 (src ++ rel, rel) ∈ src_files) as Hlisted.
  { intros rel Hfu Hskip. apply elem_of_file_listing. split; [done|]. split; [|done].
    eapply agree_file_under; [|done]. by apply agree_below_sym. }
  assert (∀ a rel, (a, rel) ∈ src_files → dst ++ rel ∉ delete_tasks) as Hkept.
  { intros a rel Hin (rel' & (Heq & _)%elem_of_file_listing & Hwhy)%Hindel.
    apply app_inv_head in Heq as <-.
    destruct (Hsource a rel Hin) as (_ & _ & Hskip & _).
    destruct Hwhy as [?|Hno]; [congruence|]. apply Hno. eauto. }
  split_and!; [by auto|done| | | | |].
  - apply path_exists_shape. rewrite <- (app_nil_r src), Hagree, app_nil_r.
    by apply path_exists_shape.
  - eapply (pipeline_dir src dst copy_tasks delete_tasks); eauto.
    intros (rel & Heq & Hne)%Hobspath. rewrite <- (app_nil_r dst) in Heq at 1.
    by apply app_inv_head in Heq.
  - intros rel Hd.
    assert (dir_under (files w) src rel) as Hd0.
    { eapply agree_dir_under; [|done]. by apply agree_below_sym. }
    eapply (pipeline_dir src dst copy_tasks delete_tasks); eauto.
    intros (rel' & Heq & _ & Hno). apply app_inv_head in Heq as <-. apply Hno.
    eapply agree_dir_under; [|exact Hd0].
    eapply agree_below_trans; [exact Hagree1|exact Hagree3].
  - intros rel Hfu Hskip. pose proof (Hlisted rel Hfu Hskip) as Hin.
    destruct (Hsource _ rel Hin) as (_ & Hfu0 & _ & (m & d & Hf1) & Hnd1 & _).
    assert (files w4 !! (src ++ rel) = Some (File m d)) as Hf4.
    { apply shape_at_File. rewrite Hagree4. by apply shape_at_File. }
    destruct (wanted (files w1) dst (src ++ rel, rel)) eqn:Hwanted.
    + assert ((src ++ rel, rel) ∈ copy_tasks) as Hc by by apply Hincopy.
      assert (files w4 !! (dst ++ rel) = Some (File m d)) as Hd4.
      { eapply (pipeline_keeps delete_tasks); eauto.
        apply shape_at_File. rewrite Hdone by done. by apply shape_at_File. }
      split; [eauto|]. by eapply verdict_same_file.
    + rewrite Forall_forall in Hdec.
      destruct (Hdec (src ++ rel, rel)) as [answer Hv]; [done|].
      simpl in Hv. unfold wanted in Hwanted. simpl in Hwanted. rewrite Hv in Hwanted.
      destruct answer; [done|].
      pose proof (verdict_false_exists _ _ _ Hv) as [e He].
      assert (∃ m' d', files w1 !! (dst ++ rel) = Some (File m' d')) as (m' & d' & Hd1).
      { unfold isdir in Hnd1. rewrite He in Hnd1. destruct e; [eauto|done]. }
      assert (∀ rel', (src ++ rel', rel') ∈ copy_tasks → dst ++ rel ≠ dst ++ rel') as Hnt.
      { intros rel' [_ Hw]%Hincopy Heq. apply app_inv_head in Heq as <-.
        unfold wanted in Hw. simpl in Hw. by rewrite Hv in Hw. }
      assert (files w4 !! (dst ++ rel) = Some (File m' d')) as Hd4.
      { eapply (pipeline_keeps delete_tasks); eauto.
        apply shape_at_File. rewrite Hother by done. by apply shape_at_File. }
      split; [eauto|]. rewrite <- Hv. apply verdict_agree.
      * apply Hagree4.
      * apply shape_at_File in Hd4, Hd1. congruence.
      * by rewrite Hf1.
      * by rewrite Hd1.
  - intros rel Hfu. pose proof Hfu as [Hne _].
    destruct (file_under_File _ _ _ Hfu) as (m & d & Hf4).
    destruct (pipeline_file src dst copy_tasks delete_tasks _ _ _ _ _
                Hother Hdone Hrem3 Hgone Hrem4 _ _ _ Hf4)
      as [Hnodel [(rel' & [Hin _]%Hincopy & ->%app_inv_head & _)|[_ Hf1]]].
    + destruct (Hsource _ _ Hin) as (_ & Hfu0 & Hskip & _). split; [done|].
      by eapply agree_file_under.
    + assert ((dst ++ rel, rel) ∈ file_listing (files w1) dst false) as Hlist.
      { apply elem_of_file_listing. split; [done|]. split; [|done].
        by eapply wf_file_under. }
      destruct (should_skip_file (basename rel)) eqn:Hskip.
      { destruct Hnodel. apply Hindel. exists rel. split; [done|]. by left. }
      destruct (decide (rel ∈ (list_to_set (map snd src_files) : gset path)))
        as [[a Hin]%elem_of_src_rel_paths|Hno].
      * destruct (Hsource _ _ Hin) as (_ & Hfu0 & _). split; [done|].
        by eapply agree_file_under.
      * destruct Hnodel. apply Hindel. exists rel. split; [done|]. right.
        by rewrite <- elem_of_src_rel_paths.
Qed.

Lemma same_shape_agree (base : path) (fs fs' : gmap path entry) :
  same_shape fs fs' → agree_below base fs fs'.
Proof. intros Hs x. apply Hs. Qed.

Lemma wf_prefix_exists (fs : gmap path entry) (p q : path) :
  wf fs → p `prefix_of` q → path_exists fs q = true → path_exists fs p = true.
Proof.
  intros Hwf [k ->] Hex. destruct k as [|x k]; [by rewrite app_nil_r in Hex|].
  apply isdir_path_exists. by apply (wf_prefix_isdir fs p (x :: k)).
Qed.

(** On a destination that mirrors the source, the plan is empty. *)
Lemma synced_plan_empty (src dst : path) (w : world) :
  synced src dst (files w) → ∃ w', sync_plan src dst w = (Ok ([], []), w').
Proof.
  intros (Hwf & Hsep & Hsrc & Hdst & Hdirs & Hfiles & Hback).
  destruct (sync_plan src dst w) as [rp wp] eqn:Hplan.
  pose proof Hplan as [(Hno & _)|(_ & ra & wa & Hmk & Hrest)]%sync_plan_inv;
    [congruence|].
  rewrite makedirs_exists in Hmk by (by try apply isdir_path_exists).
  simpl in Hmk. rewrite Hdst in Hmk. injection Hmk as <- <-.
  destruct Hrest as (rb & w1 & Hsd & Hrest).
  pose proof (sync_directories_effect _ _ _ _ _ Hsd)
    as ((_ & _ & Hadd & _) & _ & Htotal).
  simpl in Hadd, Htotal.
  assert (rb = Ok tt) as ->.
  { apply Htotal; [done|]. intros rel Hrel. apply wf_clear_way; [done|]. by apply Hdirs. }
  assert (same_shape (files w) (files w1)) as Hsame.
  { intros q. destruct (Hadd q) as [?|(Hnone & _ & rel & Hrel & Hpre)]; [done|].
    exfalso. apply path_exists_false in Hnone.
    rewrite (wf_prefix_exists _ _ _ Hwf Hpre) in Hnone; [done|].
    by apply isdir_path_exists, Hdirs. }
  assert (same_shape (files w1) (files w)) as Hsame' by done.
  destruct Hrest as (Hfp & _ & _ & Hrp). cbv zeta in Hrp.
  set (src_files := file_listing (files w1) src true) in *.
  assert (∀ a rel, (a, rel) ∈ src_files →
            a = src ++ rel ∧ verdict (files w1) a (dst ++ rel) = Ok false) as Hold.
  { intros a rel (-> & Hfu & Hskip)%elem_of_file_listing. split; [done|].
    apply (agree_file_under src _ (files w)) in Hfu; [|by apply same_shape_agree].
    destruct (Hfiles rel Hfu (Hskip eq_refl)) as [(m & d & Hd) <-].
    destruct (file_under_File _ _ _ Hfu) as (m' & d' & Hs).
    apply verdict_agree; [done..|by rewrite Hs|by rewrite Hd]. }
  assert (Forall (decided (files w1) dst) src_files) as Hdec.
  { apply Forall_forall. intros [a rel] [_ Hv]%Hold. by exists false. }
  destruct rp as [[copy_tasks delete_tasks]|e]; [|by destruct (Hrp Hdec)].
  destruct Hrp as (-> & _ & ->). exists wp. do 2 f_equal. f_equal.
  - apply filter_nil_forall. intros [a rel] [_ Hv]%Hold. unfold wanted. simpl.
    by rewrite Hv.
  - unfold delete_tasks_of. rewrite filter_nil_forall; [done|].
    intros [a rel] (-> & Hfu & _)%elem_of_file_listing.
    apply (agree_file_under dst _ (files w)) in Hfu; [|by apply same_shape_agree].
    destruct (Hback rel Hfu) as [Hskip Hsrcfile].
    unfold to_delete. simpl. rewrite Hskip. simpl.
    apply bool_decide_eq_false. intros Hnot. apply Hnot.
    apply elem_of_src_rel_paths. exists (src ++ rel).
    apply elem_of_file_listing. split; [done|]. split; [|done].
    eapply agree_file_under; [|done]. by apply same_shape_agree.
Qed.

(** C2, for folders that do not conflict: when the file system is a tree,
    neither folder lies inside the other, the source exists, and no file of
    the destination stands where the source has a directory, nor a directory
    where the source has a file to copy, a run of [sync_folders] with a
    positive number of threads returns normally, and the plan of a second run
    right after it has an empty copy set and an empty delete set. *)
Theorem sync_twice_converges (src dst : path) (threads : Z) (w : world) :
  compatible src dst (files w) → (0 < threads)%Z →
  ∃ w1, sync_folders cpu_count src dst threads w = (Ok tt, w1) ∧
        ∃ w2, sync_plan src dst w1 = (Ok ([], []), w2).
Proof.
  intros Hcompat Hthr.
  destruct (first_run_syncs src dst threads w Hcompat Hthr) as (w1 & Hrun & Hsynced).
  exists w1. split; [exact Hrun|]. by apply synced_plan_empty.
Qed.

End Convergence.

Lemma compatible_check_correct (src dst : path) (fs : gmap path entry) :
  compatible_check src dst fs = true → compatible src dst fs.
Proof.
  unfold compatible_check. rewrite !andb_true_iff, !forallb_forall.
  intros [[[[[Hwf Hsep] Hsrc] Hway] Hdirs] Hfiles]. split_and!.
  - by apply wf_check_correct.
  - by apply bool_decide_eq_true in Hsep.
  - done.
  - intros q [k ->] Hex. specialize (Hway (length q)). cbv zeta in Hway.
    rewrite take_app_length, Hex in Hway. apply Hway, in_seq.
    rewrite length_app. lia.
  - intros rel Hrel Hex. specialize (Hdirs (src ++ rel, rel)). simpl in Hdirs.
    rewrite Hex in Hdirs. apply Hdirs, list_elem_of_In, elem_of_dir_listing. done.
  - intros rel Hrel Hskip. apply negb_true_iff.
    apply (Hfiles (src ++ rel, rel)), list_elem_of_In, elem_of_file_listing. done.
Qed.

Lemma sync_twice_converges_witness :
  ∃ w1, sync_folders 4 ["src"] ["dst"] 4 example_world = (Ok tt, w1) ∧
        ∃ w2, sync_plan ["src"] ["dst"] w1 = (Ok ([], []), w2).
Proof.
  apply (sync_twice_converges 4 ["src"] ["dst"] 4 example_world).
  - apply compatible_check_correct. vm_compute. reflexivity.
  - lia.
Defined.

(** C2 does not hold for every pair of folders.  On [conflict_world] the
    first run returns normally, having failed to copy [d/x] (a file stands
    at [t/d]) and having deleted that file; the second run finds [d/x] to
    copy. *)
Lemma sync_twice_conflict :
  wf_check (files conflict_world) = true ∧
  (sync_folders 4 ["s"] ["t"] 4 conflict_world).1 = Ok tt ∧
  (sync_plan ["s"] ["t"] (sync_folders 4 ["s"] ["t"] 4 conflict_world).2).1
  = Ok ([(["s"; "d"; "x"], ["d"; "x"])], []).
Proof. vm_compute. done. Qed.

(** ** The order of the stages *)

(** When events of four classes come one class after the other, an event
    that only the first class has comes before one that the first class does
    not have. *)
Lemma lookup_before {A} (P Q : A → Prop) (l1 l2 : list A) (i j : nat) (x y : A) :
  Forall (λ e, ¬ Q e) l1 → Forall (λ e, ¬ P e) l2 →
  (l1 ++ l2) !! i = Some x → (l1 ++ l2) !! j = Some y → P x → Q y → i < j.
Proof.
  intros H1 H2 Hi Hj HP HQ.
  destruct (decide (i < length l1)) as [Hlt|Hge].
  - destruct (decide (j < length l1)) as [Hlt'|Hge']; [|lia].
    rewrite lookup_app_l in Hj by done.
    by destruct (proj1 (Forall_lookup _ _) H1 _ _ Hj).
  - rewrite lookup_app_r in Hi by lia.
    by destruct (proj1 (Forall_lookup _ _) H2 _ _ Hi).
Qed.

Section Ordering.
Context `{Hasher}.
Variable cpu_count : positive.

(** After the plan, the directory of every copy task's destination exists. *)
Lemma sync_plan_parents (src dst : path) (w w1 : world)
    (copy_tasks : list (path * path)) (delete_tasks : list path) :
  wf (files w) →
  sync_plan src dst w = (Ok (copy_tasks, delete_tasks), w1) →
  ∀ a rel, (a, rel) ∈ copy_tasks → path_exists (files w1) (parent (dst ++ rel)) = true.
Proof.
  intros Hwf [(_ & [=] & _)|(_ & ra & wa & Hmk & Hrest)]%sync_plan_inv.
  destruct (makedirs_step setup_event (λ _, True) dst (started src dst w))
    as [(_ & _ & _ & Hwfa) Hdst]; [done..|].
  rewrite Hmk in Hwfa, Hdst. simpl in Hwfa, Hdst.
  destruct ra as [[]|e]; [|by destruct Hrest].
  destruct Hrest as (rb & wb & Hsd & Hrest).
  apply sync_directories_effect in Hsd as ((_ & _ & Hadd & _) & Hex & _).
  destruct rb as [[]|e]; [|by destruct Hrest].
  destruct Hrest as (Hfiles & _ & _ & -> & _). rewrite Hfiles.
  intros a rel [(-> & Hfu & _)%elem_of_file_listing _]%elem_of_bool_filter.
  pose proof Hfu as (m & d & Hfile)%file_under_File.
  apply (dirs_added_file _ _ _ _ _ _ Hadd) in Hfile.
  destruct Hfu as (Hne & _). rewrite parent_app by done.
  rewrite (path_split rel Hne), app_assoc in Hfile.
  assert (isdir (files wa) (src ++ parent rel) = true) as Hpar.
  { apply (wf_prefix_isdir _ _ [basename rel]); [by apply Hwfa| |done].
    apply path_exists_true. by rewrite Hfile. }
  destruct (decide (parent rel = [])) as [->|Hne'].
  - rewrite app_nil_r. apply isdir_path_exists.
    eapply dirs_added_isdir; [done|]. by apply Hdst.
  - apply Hex; [done|]. split; [done|]. apply wf_reachable; [by apply Hwfa|done].
Qed.

(** The trace of a run: the events of the setup, then those of the copy
    phase, then those of the delete phase, then those of the removal of
    directories.  A run that returns normally went through the four stages,
    and a directory of the destination that has no directory of the source
    and is empty when the deletions are done is gone at the end. *)
Lemma sync_folders_stages (src dst : path) (threads : Z) (w w' : world) (r : result unit) :
  wf (files w) →
  sync_folders cpu_count src dst threads w = (r, w') →
  ∃ t1 t2 t3 t4,
    trace w' = trace w ++ t1 ++ t2 ++ t3 ++ t4 ∧
    Forall setup_event t1 ∧ Forall copy_event t2 ∧
    Forall delete_event t3 ∧ Forall cleanup_event t4 ∧
    (r = Ok tt →
     ∃ copy_tasks delete_tasks w1 w2 w3,
       sync_plan src dst w = (Ok (copy_tasks, delete_tasks), w1) ∧
       copy_phase cpu_count copy_tasks dst threads w1 = (Ok tt, w2) ∧
       delete_phase delete_tasks threads w2 = (Ok tt, w3) ∧
       ∀ rel, dir_under (files w3) dst rel → ¬ dir_under (files w3) src rel →
              children (files w3) (dst ++ rel) = [] → files w' !! (dst ++ rel) = None).
Proof.
  intros Hwf Hrun. unfold sync_folders in Hrun.
  apply bind_inv in Hrun as [([copy_tasks delete_tasks] & w1 & Hplan & Hrun)|(e & Hplan & ->)];
    pose proof (sync_plan_grows _ _ _ _ _ Hplan) as (_ & (t1 & Ht1 & HF1) & _ & Hwf1).
  2: { exists t1, [], [], []. rewrite !app_nil_r. by split_and!. }
  pose proof (sync_plan_parents _ _ _ _ _ _ Hwf Hplan) as Hpar.
  apply bind_inv in Hrun as [([] & w2 & Hcopy & Hrun)|(e & Hcopy & ->)];
    pose proof (copy_phase_effect _ _ _ _ _ _ _ Hcopy (Hwf1 Hwf) Hpar)
      as (Hwf2 & _ & (t2 & Ht2 & HF2) & _).
  2: { exists t1, t2, [], []. rewrite !app_nil_r, Ht2, Ht1, <- app_assoc. by split_and!. }
  apply bind_inv in Hrun as [([] & w3 & Hdel & Hrun)|(e & Hdel & ->)];
    pose proof (delete_phase_effect _ _ _ _ _ Hdel) as ((_ & (t3 & Ht3 & HF3) & _ & _) & _).
  2: { exists t1, t2, t3, []. rewrite !app_nil_r, Ht3, Ht2, Ht1, <- !app_assoc.
       by split_and!. }
  apply bind_inv in Hrun as [([] & ? & [_ ->]%emit_inv & Hrun)|(? & [=] & _)].
  apply remove_obsolete_directories_effect in Hrun
    as (-> & (_ & (t4 & Ht4 & HF4) & _ & _) & Hgone).
  simpl in Ht4, Hgone.
  exists t1, t2, t3, (Log INFO MsgCheckDirs :: t4).
  split_and!; try done.
  - rewrite Ht4, Ht3, Ht2, Ht1, <- !app_assoc. done.
  - by constructor.
  - intros _. by exists copy_tasks, delete_tasks, w1, w2, w3.
Qed.

(** C8: in a run of [sync_folders] on a file system that is a tree, every
    creation of a directory comes before every copy of a file and every
    deletion of a file comes before every removal of a directory; and when
    the run returns normally, a directory of the destination that has no
    directory of the source and is empty once the files were deleted is
    removed by the same run. *)
Theorem sync_folders_ordering (src dst : path) (threads : Z) (w w' : world)
    (r : result unit) :
  wf (files w) →
  sync_folders cpu_count src dst threads w = (r, w') →
  ∃ run,
    trace w' = trace w ++ run ∧
    (∀ i j p a b, run !! i = Some (Mkdir p) → run !! j = Some (CopyFile a b) → i < j) ∧
    (∀ i j p q, run !! i = Some (Remove p) → run !! j = Some (Rmdir q) → i < j) ∧
    (r = Ok tt →
     ∃ copy_tasks delete_tasks w1 w2 w3,
       sync_plan src dst w = (Ok (copy_tasks, delete_tasks), w1) ∧
       copy_phase cpu_count copy_tasks dst threads w1 = (Ok tt, w2) ∧
       delete_phase delete_tasks threads w2 = (Ok tt, w3) ∧
       ∀ rel, dir_under (files w3) dst rel → ¬ dir_under (files w3) src rel →
              children (files w3) (dst ++ rel) = [] → files w' !! (dst ++ rel) = None).
Proof.
  intros Hwf Hrun.
  destruct (sync_folders_stages src dst threads w w' r Hwf Hrun)
    as (t1 & t2 & t3 & t4 & Htrace & HF1 & HF2 & HF3 & HF4 & Hok).
  exists (t1 ++ t2 ++ t3 ++ t4). split_and!; [done| | |done].
  - intros i j p a b Hi Hj.
    apply (lookup_before (λ e, ∃ p, e = Mkdir p) (λ e, ∃ a b, e = CopyFile a b)
             t1 (t2 ++ t3 ++ t4) i j (Mkdir p) (CopyFile a b));
      [| |done|done|by eexists|by eexists _, _].
    + eapply Forall_impl; [exact HF1|]. by intros [] ? (? & ? & ?).
    + rewrite !Forall_app. split_and!;
        (eapply Forall_impl; [eassumption|]); by intros [] ? (? & ?).
  - intros i j p q Hi Hj. rewrite !app_assoc in Hi, Hj.
    apply (lookup_before (λ e, ∃ p, e = Remove p) (λ e, ∃ q, e = Rmdir q)
             ((t1 ++ t2) ++ t3) t4 i j (Remove p) (Rmdir q));
      [| |done|done|by eexists|by eexists].
    + rewrite !Forall_app. split_and!;
        (eapply Forall_impl; [eassumption|]); by intros [] ? (? & ?).
    + eapply Forall_impl; [exact HF4|]. by intros [] ? (? & ?).
Qed.

End Ordering.

Lemma sync_folders_ordering_witness :
  files (sync_folders 4 ["src"] ["dst"] 4 stale_world).2 !! ["dst"; "stale"] = None ∧
  ∀ i j p q,
    trace (sync_folders 4 ["src"] ["dst"] 4 stale_world).2 !! i = Some (Remove p) →
    trace (sync_folders 4 ["src"] ["dst"] 4 stale_world).2 !! j = Some (Rmdir q) →
    i < j.
Proof.
  assert (wf (files stale_world)) as Hwf
    by (apply wf_check_correct; vm_compute; reflexivity).
  assert (sync_folders 4 ["src"] ["dst"] 4 stale_world
          = (Ok tt, (sync_folders 4 ["src"] ["dst"] 4 stale_world).2)) as Hrun
    by (vm_compute; reflexivity).
  destruct (sync_folders_ordering 4 ["src"] ["dst"] 4 stale_world _ (Ok tt) Hwf Hrun)
    as (run & Htrace & _ & Horder & Hok).
  destruct (Hok eq_refl) as (copy_tasks & delete_tasks & w1 & w2 & w3
                             & Hplan & Hcopy & Hdel & Hgone).
  split.
  - vm_compute in Hplan. injection Hplan as <- <- <-.
    vm_compute in Hcopy. injection Hcopy as <-.
    vm_compute in Hdel. injection Hdel as <-.
    apply (Hgone ["stale"]).
    + split; [discriminate|]. apply reachable_cons.
      split; [vm_compute; reflexivity|]. apply reachable_nil. vm_compute. reflexivity.
    + intros [_ Hr]. apply reachable_end in Hr. vm_compute in Hr. discriminate.
    + vm_compute. reflexivity.
  - rewrite Htrace. exact Horder.
Defined.

Lemma remove_obsolete_directories_spec_witness :
  isdir (files (remove_obsolete_directories ["src"] ["dst"] stale_world).2)
        ["dst"; "keep"] = true ∧
  sort_by_depth (dir_listing (files stale_world) ["dst"])
    ≡ₚ dir_listing (files stale_world) ["dst"].
Proof.
  destruct (remove_obsolete_directories_spec ["src"] ["dst"] stale_world)
    as (_ & Hperm & _ & _ & _ & Hkeep).
  split; [|exact Hperm].
  apply (Hkeep ["keep"]).
  - split; [discriminate|]. apply reachable_cons.
    split; [vm_compute; reflexivity|]. apply reachable_nil. vm_compute. reflexivity.
  - split; [discriminate|]. apply reachable_cons.
    split; [vm_compute; reflexivity|]. apply reachable_nil. vm_compute. reflexivity.
Defined.

(** * More about the program *)

(** ** A run changes the destination only *)

Lemma within_refl (dst : path) (fs fs' : gmap path entry) :
  same_shape fs fs' → within dst fs fs'.
Proof. intros Hs q. left. apply Hs. Qed.

Lemma within_trans (dst : path) (fs1 fs2 fs3 : gmap path entry) :
  within dst fs1 fs2 → within dst fs2 fs3 → within dst fs1 fs3.
Proof.
  intros H12 H23 q.
  destruct (H12 q) as [Hs|[Hd|(Hp & Hn & Hd)]]; [|by right; left|].
  - destruct (H23 q) as [Hs'|[Hd|(Hp & Hn & Hd)]]; [|by right; left|].
    + left. congruence.
    + right. right. split_and!; [done| |done].
      apply shape_at_None. rewrite <- Hs. by apply shape_at_None.
  - destruct (H23 q) as [Hs'|[?|(_ & Hn' & _)]]; [|by right; left|].
    + right. right. split_and!; [done..|].
      apply isdir_shape. rewrite Hs'. by apply isdir_shape.
    + apply isdir_exists in Hd as [? ?]. congruence.
Qed.

Lemma within_dirs_added (L : path → Prop) (dst : path) (fs fs' : gmap path entry) :
  (∀ q, L q → ∃ x, q `prefix_of` dst ++ x) → dirs_added L fs fs' → within dst fs fs'.
Proof.
  intros HL Hadd q. destruct (Hadd q) as [?|(Hn & Hd & [x Hq]%HL)]; [by left|].
  right. destruct (prefix_weak_total _ _ _ Hq (prefix_app_r dst dst x (reflexivity _)))
    as [?|?]; [by right|by left].
Qed.

Lemma within_removed (D : path → Prop) (dirs : bool) (dst : path) (fs fs' : gmap path entry) :
  (∀ q, D q → dst `prefix_of` q) → removed D dirs fs fs' → within dst fs fs'.
Proof.
  intros HD Hrem q. destruct (Hrem q) as [?|(?%HD & _)]; [by left|by right; left].
Qed.

Lemma within_upd (dst q : path) (o : option entry) (fs fs' : gmap path entry) :
  dst `prefix_of` q → shape_upd fs q o fs' → within dst fs fs'.
Proof.
  intros Hq Hupd p. destruct (decide (p = q)) as [->|Hne]; [by right; left|].
  left. by eapply shape_upd_other.
Qed.

Section Frame.
Context `{Hasher}.
Variable cpu_count : positive.

(** One copy task, whatever the file system: it never raises, and what it
    creates or writes is at the destination. *)
Lemma copy_task_within (dst a rel : path) (w w' : world) (r : result unit) :
  copy_task dst (a, rel) w = (r, w') → r = Ok tt ∧ within dst (files w) (files w').
Proof.
  intros Hrun. unfold copy_task, copy_file in Hrun.
  destruct (makedirs_step (λ _, True) (λ q, q `prefix_of` parent (dst ++ rel))
              (parent (dst ++ rel)) w) as [(_ & _ & Hadd & _) _]; [done..|].
  assert (within dst (files w) (files (makedirs (parent (dst ++ rel)) w).2)) as Hmk.
  { eapply within_dirs_added; [|exact Hadd]. intros q Hq. exists rel.
    etrans; [exact Hq|apply parent_prefix]. }
  clear Hadd.
  assert (∀ w1 r2 w2, copy2 a (dst ++ rel) w1 = (r2, w2) →
                      within dst (files w1) (files w2)) as Hcp.
  { intros w1 r2 w2
      [(_ & _ & _ & (m & d & _ & Hupd) & _)
      |[(_ & _ & _ & (m & d & _ & Hupd) & _)|(? & _ & ->)]]%copy2_inv.
    - eapply within_upd; [|exact Hupd]. by apply prefix_app_r.
    - eapply within_upd; [|exact Hupd]. rewrite <- app_assoc. by apply prefix_app_r.
    - by apply within_refl. }
  apply try_except_inv in Hrun as [([] & Hrun & ->)|(e & w1 & Hrun & [-> ->]%emit_inv)].
  - split; [done|].
    apply bind_inv in Hrun as [([] & w2 & Hrun & [_ ->]%emit_inv)|(? & ? & [=])].
    apply bind_inv in Hrun as [([] & w1 & Hmk' & Hcopy)|(? & ? & [=])].
    rewrite Hmk' in Hmk. simpl in *. eapply within_trans; [exact Hmk|]. by eapply Hcp.
  - split; [done|]. simpl.
    apply bind_inv in Hrun as [([] & w2 & Hrun & [[=] _]%emit_inv)|(e' & Hrun & _)].
    apply bind_inv in Hrun as [([] & w2 & Hmk' & Hcopy)|(e'' & Hmk' & _)].
    + rewrite Hmk' in Hmk. simpl in *. eapply within_trans; [exact Hmk|]. by eapply Hcp.
    + by rewrite Hmk' in Hmk.
Qed.

Lemma copy_phase_within (copy_tasks : list (path * path)) (dst : path) (threads : Z)
    (w w' : world) (r : result unit) :
  copy_phase cpu_count copy_tasks dst threads w = (r, w') →
  within dst (files w) (files w').
Proof.
  intros Hrun. destruct (decide (copy_tasks = [])) as [->|Hne].
  { apply emit_inv in Hrun as [_ ->]. by apply within_refl. }
  rewrite copy_phase_unfold in Hrun by done.
  destruct (threads <=? 0)%Z; [injection Hrun as _ <-; by apply within_refl|].
  assert (hoare (λ wc, within dst (files w) (files wc))
            (for_each copy_tasks (copy_task dst))
            (λ _ wc, within dst (files w) (files wc))) as Hloop.
  { eapply hoare_conseq;
      [apply (hoare_for_each copy_tasks (copy_task dst)
                (λ _ wc, within dst (files w) (files wc))
                (λ _ wc, within dst (files w) (files wc)))| |].
    - intros done [a rel] rest _. apply hoare_intro. intros wc rc wc' Hin Hstep.
      apply copy_task_within in Hstep as [-> Hstep]. by eapply within_trans.
    - done.
    - by intros [[]|e] wc. }
  assert (within dst (files w) (files (pooled cpu_count copy_tasks w))) as Hinit
    by by apply within_refl.
  apply bind_inv in Hrun as [([] & w1 & Hrun & [_ ->]%emit_inv)|(e & Hrun & _)];
    exact (hoare_elim _ _ _ _ _ _ Hloop Hinit Hrun).
Qed.

(** With a positive number of threads the copy phase returns normally,
    whatever the file system: every failure of a task is caught and
    logged. *)
Lemma copy_phase_ok (copy_tasks : list (path * path)) (dst : path) (threads : Z)
    (w w' : world) (r : result unit) :
  (0 < threads)%Z → copy_phase cpu_count copy_tasks dst threads w = (r, w') → r = Ok tt.
Proof.
  intros Hthr Hrun. destruct (decide (copy_tasks = [])) as [->|Hne].
  { by apply emit_inv in Hrun as [-> _]. }
  rewrite copy_phase_unfold in Hrun by done.
  destruct (Z.leb_spec threads 0); [lia|].
  assert (hoare (λ _, True) (for_each copy_tasks (copy_task dst)) (λ r _, r = Ok tt))
    as Hloop.
  { eapply hoare_conseq;
      [apply (hoare_for_each copy_tasks (copy_task dst) (λ _ _, True) (λ _ _, False))| |].
    - intros done [a rel] rest _. apply hoare_intro. intros wc rc wc' _ Hstep.
      by apply copy_task_within in Hstep as [-> _].
    - done.
    - by intros [[]|e] wc. }
  apply bind_inv in Hrun as [([] & w1 & Hrun & [-> _]%emit_inv)|(e & Hrun & ->)]; [done|].
  exact (hoare_elim _ _ _ _ _ _ Hloop I Hrun).
Qed.

(** The plan creates directories only, at the destination or above it. *)
Lemma sync_plan_within (src dst : path) (w w' : world)
    (r : result (list (path * path) * list path)) :
  sync_plan src dst w = (r, w') → within dst (files w) (files w').
Proof.
  intros [(_ & _ & ->)|(_ & ra & wa & Hmk & Hrest)]%sync_plan_inv;
    [by apply within_refl|].
  destruct (makedirs_step (λ _, True) (λ q, q `prefix_of` dst) dst (started src dst w))
    as [(_ & _ & Hadd & _) _]; [done..|].
  rewrite Hmk in Hadd. simpl in Hadd.
  assert (within dst (files w) (files wa)) as Ha.
  { eapply within_dirs_added; [|exact Hadd]. intros q Hq. exists []. by rewrite app_nil_r. }
  destruct ra as [[]|e]; [|by destruct Hrest as [_ ->]].
  destruct Hrest as (rb & w1 & Hsd & Hrest).
  apply sync_directories_effect in Hsd as ((_ & _ & Hadd1 & _) & _).
  assert (within dst (files w) (files w1)) as H1.
  { eapply within_trans; [exact Ha|]. eapply within_dirs_added; [|exact Hadd1].
    intros q (rel & _ & Hq). eauto. }
  destruct rb as [[]|e]; [|by destruct Hrest as [_ ->]].
  destruct Hrest as (Hf & _). by rewrite Hf.
Qed.

(** The delete set of a plan lies below the destination. *)
Lemma delete_tasks_below (src dst : path) (w w1 : world)
    (copy_tasks : list (path * path)) (delete_tasks : list path) :
  sync_plan src dst w = (Ok (copy_tasks, delete_tasks), w1) →
  ∀ q, q ∈ delete_tasks → ∃ rel, q = dst ++ rel ∧ rel ≠ [] ∧ file_under (files w1) dst rel.
Proof.
  intros (_ & _ & ->)%sync_plan_sets q
    (rel & (-> & Hfu & _)%elem_of_file_listing & _)%elem_of_delete_tasks.
  exists rel. split; [done|]. split; [by destruct Hfu|done].
Qed.

(** A run of [sync_folders] taken apart. *)
Lemma sync_folders_inv (src dst : path) (threads : Z) (w w' : world) (r : result unit) :
  sync_folders cpu_count src dst threads w = (r, w') →
  (∃ e, sync_plan src dst w = (Raise e, w') ∧ r = Raise e) ∨
  ∃ copy_tasks delete_tasks w1,
    sync_plan src dst w = (Ok (copy_tasks, delete_tasks), w1) ∧
    ((∃ e, copy_phase cpu_count copy_tasks dst threads w1 = (Raise e, w') ∧ r = Raise e) ∨
     ∃ w2, copy_phase cpu_count copy_tasks dst threads w1 = (Ok tt, w2) ∧
       ((∃ e, delete_phase delete_tasks threads w2 = (Raise e, w') ∧ r = Raise e) ∨
        ∃ w3, delete_phase delete_tasks threads w2 = (Ok tt, w3) ∧
              remove_obsolete_directories src dst
                (World (files w3) (clock w3) (trace w3 ++ [Log INFO MsgCheckDirs]))
              = (r, w'))).
Proof.
  unfold sync_folders. intros Hrun.
  apply bind_inv in Hrun as [([copy_tasks delete_tasks] & w1 & Hplan & Hrun)|(e & Hplan & ->)];
    [|left; eauto].
  right. exists copy_tasks, delete_tasks, w1. split; [done|].
  apply bind_inv in Hrun as [([] & w2 & Hcopy & Hrun)|(e & Hcopy & ->)]; [|left; eauto].
  right. exists w2. split; [done|].
  apply bind_inv in Hrun as [([] & w3 & Hdel & Hrun)|(e & Hdel & ->)]; [|left; eauto].
  right. exists w3. split; [done|].
  by apply bind_inv in Hrun as [([] & ? & [_ ->]%emit_inv & Hrun)|(? & [=] & _)].
Qed.

Lemma sync_folders_within (src dst : path) (threads : Z) (w w' : world) (r : result unit) :
  sync_folders cpu_count src dst threads w = (r, w') → within dst (files w) (files w').
Proof.
  intros [(e & Hplan & _)|(copy_tasks & delete_tasks & w1 & Hplan & Hrest)]%sync_folders_inv;
    pose proof (sync_plan_within _ _ _ _ _ Hplan) as H1; [done|].
  destruct Hrest as [(e & Hcopy & _)|(w2 & Hcopy & Hrest)];
    pose proof (copy_phase_within _ _ _ _ _ _ Hcopy) as H2;
    [by eapply within_trans|].
  assert (within dst (files w) (files w2)) as H12 by by eapply within_trans.
  assert (∀ w3 r3, delete_phase delete_tasks threads w2 = (r3, w3) →
                   within dst (files w) (files w3)) as Hdelete.
  { intros w3 r3 [(_ & _ & Hrem & _) _]%delete_phase_effect.
    eapply within_trans; [exact H12|]. eapply within_removed; [|exact Hrem].
    intros q (rel & -> & _)%(delete_tasks_below _ _ _ _ _ _ Hplan).
    by apply prefix_app_r. }
  destruct Hrest as [(e & Hdel & _)|(w3 & Hdel & Hrod)]; [by eapply Hdelete|].
  apply remove_obsolete_directories_effect in Hrod as (_ & (_ & _ & Hrem & _) & _).
  eapply within_trans; [by eapply Hdelete|]. eapply within_removed; [|exact Hrem].
  intros q (rel & -> & _). by apply prefix_app_r.
Qed.

(** X1: whatever its result, a run of [sync_folders] adds, removes and
    writes nothing outside the destination folder, except that it creates
    the missing directories above it; when neither folder lies in the other,
    the source folder and everything below it are after the run what they
    were before: the same entries, the same files with the same contents and
    modification times. *)
Theorem sync_folders_changes_destination_only (src dst : path) (threads : Z)
    (w w' : world) (r : result unit) :
  sync_folders cpu_count src dst threads w = (r, w') →
  (∀ q, ¬ dst `prefix_of` q →
        shape_at (files w') q = shape_at (files w) q ∨
        (q `prefix_of` dst ∧ files w !! q = None ∧ isdir (files w') q = true)) ∧
  (separate src dst →
   ∀ x, shape_at (files w') (src ++ x) = shape_at (files w) (src ++ x)).
Proof.
  intros Hin%sync_folders_within. split.
  - intros q Hq. destruct (Hin q) as [?|[?|?]]; [by left|done|by right].
  - intros Hsep x. destruct (Hin (src ++ x)) as [?|[Hd|(Hp & _)]]; [done| |].
    + destruct Hsep as [Hsd Hds]. destruct Hd as [k Hk].
      destruct (prefix_weak_total src dst (src ++ x)) as [?|?];
        [by apply prefix_app_r|by exists k|done..].
    + by apply (separate_above _ _ _ x Hsep) in Hp.
Qed.

End Frame.

(** ** Obsolete directories that hold no file *)

Lemma bare_child (fs : gmap path entry) (p : path) (n : string) :
  bare fs p → bare fs (p ++ [n]).
Proof. intros Hb x m d. rewrite <- app_assoc. apply Hb. Qed.

(** The loop of [remove_obsolete_directories] on a list that is sorted
    deepest first and holds, with a directory, its sub-directories: every
    directory of the list that is not a directory of the source and holds no
    file is removed, its sub-directories before it. *)
Lemma obsolete_loop_clears (src_dirs : gset path) (dst : path) (l : list (path * path))
    (w0 : world) :
  StronglySorted deeper_first l →
  (∀ abs rel, (abs, rel) ∈ l → abs = dst ++ rel ∧ rel ≠ []) →
  (∀ rel n, (dst ++ rel, rel) ∈ l → isdir (files w0) (dst ++ rel ++ [n]) = true →
            (dst ++ rel ++ [n], rel ++ [n]) ∈ l) →
  (∀ rel n, rel ++ [n] ∈ src_dirs → rel ≠ [] → rel ∈ src_dirs) →
  hoare (λ w, w = w0)
    (for_fold l (remove_if_obsolete src_dirs) 0)
    (λ r w, ∀ abs rel, (abs, rel) ∈ l → rel ∉ src_dirs →
                       isdir (files w0) abs = true → bare (files w0) abs →
                       files w !! abs = None).
Proof.
  intros Hsorted Hshape Hclosed Hsrc.
  set (Inv := λ (done : list (path * path)) (_ : nat) (w : world),
         removed (λ _, True) true (files w0) (files w) ∧
         ∀ abs rel, (abs, rel) ∈ done → rel ∉ src_dirs →
                    isdir (files w0) abs = true → bare (files w0) abs →
                    files w !! abs = None).
  eapply hoare_conseq;
    [apply (hoare_for_fold l (remove_if_obsolete src_dirs) Inv (λ _ _, False))| |].
  - intros done [abs rel] rest c Hl. apply hoare_intro.
    intros w r w' [Hrem Hdone] Hrun.
    assert ((abs, rel) ∈ l) as Hin by (rewrite Hl; apply elem_of_app; right; by left).
    destruct (Hshape _ _ Hin) as [-> Hne].
    assert (∀ y, y ∈ rest → count_sep y.2 ≤ count_sep rel) as Hrest.
    { rewrite Hl in Hsorted. apply StronglySorted_app_1_r in Hsorted.
      apply StronglySorted_inv in Hsorted as [_ Hall].
      intros y Hy. by apply (proj1 (Forall_forall _ _) Hall y). }
    (* a sub-directory that holds no file was tried before, and is gone *)
    assert (rel ∉ src_dirs → bare (files w0) (dst ++ rel) →
            ∀ n, files w !! ((dst ++ rel) ++ [n]) = None) as Hempty.
    { intros Hobs Hbare n.
      destruct (files w !! ((dst ++ rel) ++ [n])) as [e|] eqn:He; [exfalso|done].
      destruct (removed_exists _ _ _ _ _ Hrem (mk_is_Some _ _ He)) as [e0 He0].
      destruct e0 as [m d|m]; [by apply Hbare in He0|].
      assert (isdir (files w0) (dst ++ rel ++ [n]) = true) as Hd
        by (unfold isdir; by rewrite app_assoc, He0).
      pose proof (Hclosed rel n Hin Hd) as Hsub.
      rewrite Hl in Hsub.
      apply elem_of_app in Hsub as [Hsub|[Hsub|Hsub]%elem_of_cons].
      - rewrite <- app_assoc in He. rewrite (Hdone _ _ Hsub) in He; [done| |done|].
        + intros Hs. apply Hobs. by eapply Hsrc.
        + rewrite app_assoc. by apply bare_child.
      - injection Hsub as _ Hsub. apply (f_equal length) in Hsub.
        rewrite length_app in Hsub. simpl in Hsub. lia.
      - apply Hrest in Hsub. unfold count_sep in Hsub. simpl in Hsub.
        rewrite length_app in Hsub. simpl in Hsub. destruct rel; [done|simpl in Hsub; lia]. }
    apply remove_if_obsolete_inv in Hrun
      as [(Hs & -> & ->)
         |[(Hobs & Hd & _ & Hch & -> & _ & _ & Hupd)
          |[(Hobs & Hd & Hch & -> & ->)|(Hobs & Hbad & -> & e & ->)]]]; simpl.
    + split; [done|].
      intros abs' rel' [Hin'|[= -> ->]%list_elem_of_singleton]%elem_of_app; [|done].
      by apply Hdone.
    + split.
      * eapply removed_trans; [exact Hrem|]. eapply removed_weaken; [done|].
        apply removed_upd; [by apply isdir_exists|done..].
      * intros abs' rel' [Hin'|[= -> ->]%list_elem_of_singleton]%elem_of_app Hobs' Hd' Hb'.
        -- destruct (decide (abs' = dst ++ rel)) as [->|Hneq].
           ++ apply shape_at_None. by apply shape_upd_same in Hupd.
           ++ apply shape_at_None. rewrite (shape_upd_other _ _ _ _ _ Hupd) by done.
              apply shape_at_None. by apply Hdone with rel'.
        -- apply shape_at_None. by apply shape_upd_same in Hupd.
    + split; [done|].
      intros abs' rel' [Hin'|[= -> ->]%list_elem_of_singleton]%elem_of_app Hobs' Hd' Hb';
        [by apply Hdone with rel'|].
      destruct Hch. destruct (children (files w) (dst ++ rel)) as [|n ns] eqn:Hch; [done|].
      assert (n ∈ children (files w) (dst ++ rel)) as Hn by (rewrite Hch; by left).
      apply elem_of_children in Hn as [e He]. by rewrite Hempty in He.
    + split; [done|].
      intros abs' rel' [Hin'|[= -> ->]%list_elem_of_singleton]%elem_of_app Hobs' Hd' Hb';
        [by apply Hdone with rel'|].
      destruct Hbad as [Hnd|Hnil]; [|by destruct dst, rel].
      destruct (Hrem (dst ++ rel)) as [Hs|(_ & _ & _ & ?)]; [|done].
      apply isdir_shape in Hd'. rewrite <- Hs in Hd'. apply isdir_shape in Hd'. congruence.
  - intros w ->. split; [by apply removed_refl|]. by intros ?? ?%elem_of_nil.
  - intros [c|e] w; [|done]. by intros [_ ?].
Qed.

Lemma obsolete_directories_gone (src dst : path) (w w' : world) (r : result unit) :
  remove_obsolete_directories src dst w = (r, w') →
  ∀ rel, dir_under (files w) dst rel → ¬ dir_under (files w) src rel →
         bare (files w) (dst ++ rel) → files w' !! (dst ++ rel) = None.
Proof.
  intros Hrun rel Hdst Hsrc Hbare.
  rewrite remove_obsolete_directories_unfold in Hrun.
  set (l := sort_by_depth (dir_listing (files w) dst)) in *.
  set (src_dirs := list_to_set (map snd (dir_listing (files w) src)) : gset path) in *.
  assert (∀ abs rel, (abs, rel) ∈ l ↔ abs = dst ++ rel ∧ dir_under (files w) dst rel) as Hl.
  { intros abs' rel'. unfold l. rewrite sort_by_depth_perm. apply elem_of_dir_listing. }
  assert (hoare (λ wc, wc = walked src dst w)
            (for_fold l (remove_if_obsolete src_dirs) 0)
            (λ r wc, ∀ abs rel, (abs, rel) ∈ l → rel ∉ src_dirs →
                                isdir (files w) abs = true → bare (files w) abs →
                                files wc !! abs = None)) as Hloop.
  { apply (obsolete_loop_clears src_dirs dst l (walked src dst w)).
    - apply sort_by_depth_sorted.
    - intros abs' rel' [-> [Hne _]]%Hl. done.
    - intros rel' n [_ [Hne Hr]]%Hl Hd. apply Hl. split; [done|].
      split; [by destruct rel'|]. apply reachable_snoc. done.
    - intros rel' n Hin%elem_of_src_dirs Hne. apply elem_of_src_dirs.
      eapply dir_under_prefix; [exact Hin|by apply prefix_app_r|done]. }
  assert (∀ rc wc, for_fold l (remove_if_obsolete src_dirs) 0 (walked src dst w) = (rc, wc) →
                   files wc !! (dst ++ rel) = None) as Hgone.
  { intros rc wc Hfold.
    apply (hoare_elim _ _ _ _ _ _ Hloop eq_refl Hfold (dst ++ rel) rel).
    - by apply Hl.
    - by intros ?%elem_of_src_dirs.
    - destruct Hdst as [_ Hr]. by apply reachable_end in Hr.
    - done. }
  apply bind_inv in Hrun as [(c & w1 & Hfold & Hlog)|(e & Hfold & _)]; [|by eapply Hgone].
  pose proof (Hgone _ _ Hfold) as Hnone.
  destruct (0 <? c); apply emit_inv in Hlog as [_ ->]; done.
Qed.

(** X2: [remove_obsolete_directories] never raises, and it removes every
    directory of the destination that is not a directory of the source and
    has no file in it or below it, together with the directories in it: the
    deepest are removed first, so that each is empty when its turn comes. *)
Theorem remove_obsolete_directories_clears (src dst : path) (w : world) :
  (remove_obsolete_directories src dst w).1 = Ok tt ∧
  ∀ rel, dir_under (files w) dst rel → ¬ dir_under (files w) src rel →
         (∀ x m d, files w !! (dst ++ rel ++ x) ≠ Some (File m d)) →
         files (remove_obsolete_directories src dst w).2 !! (dst ++ rel) = None.
Proof.
  destruct (remove_obsolete_directories src dst w) as [r w'] eqn:Hrun. simpl. split.
  { by apply remove_obsolete_directories_effect in Hrun as [-> _]. }
  intros rel Hdst Hsrc Hbare. eapply obsolete_directories_gone; [exact Hrun|done..|].
  intros x m d. rewrite <- app_assoc. apply Hbare.
Qed.

Lemma remove_obsolete_directories_clears_witness :
  files (remove_obsolete_directories ["src"] ["dst"] nested_world).2 !! ["dst"; "old"] = None.
Proof.
  destruct (remove_obsolete_directories_clears ["src"] ["dst"] nested_world) as [_ Hclear].
  apply (Hclear ["old"]).
  - split; [discriminate|]. apply reachable_cons.
    split; [vm_compute; reflexivity|]. apply reachable_nil. vm_compute. reflexivity.
  - intros [_ Hr]. apply reachable_end in Hr. vm_compute in Hr. discriminate.
  - intros x m d Hx.
    assert (is_file <$> files nested_world !! (["dst"] ++ ["old"] ++ x) = Some true) as Hf
      by (by rewrite Hx).
    apply elem_of_list_to_map_2 in Hx. vm_compute in Hx.
    repeat (apply elem_of_cons in Hx as [Hx|Hx]; [by injection Hx|]).
    by apply elem_of_nil in Hx.
Defined.

(** ** What a run leaves at the destination *)

Section Outcome.
Context `{Hasher}.
Variable cpu_count : positive.

(** The run of [sync_folders] on folders that do not conflict, from its
    first world to its last: the source is left as it is; the directories of
    the destination are those of the source; its files are the files of the
    source that are not skipped, each a copy of the source file when
    [should_copy] asked for it and the file that was there when it did
    not. *)
Lemma first_run_outcome (src dst : path) (threads : Z) (w : world) :
  compatible src dst (files w) → (0 < threads)%Z →
  ∃ w', sync_folders cpu_count src dst threads w = (Ok tt, w') ∧
    wf (files w') ∧
    agree_below src (files w) (files w') ∧
    isdir (files w') dst = true ∧
    (∀ rel, rel ≠ [] →
            isdir (files w') (dst ++ rel) = true ↔ dir_under (files w) src rel) ∧
    (∀ rel m d,
       files w' !! (dst ++ rel) = Some (File m d) ↔
       file_under (files w) src rel ∧ should_skip_file (basename rel) = false ∧
       match verdict (files w) (src ++ rel) (dst ++ rel) with
       | Ok true => files w !! (src ++ rel) = Some (File m d)
       | _ => files w !! (dst ++ rel) = Some (File m d)
       end).
Proof.
  intros Hcompat Hthr.
  pose proof Hcompat as (Hwf & Hsep & Hsrc & Hway & Hdirs & Hfiles).
  destruct (setup_prepares src dst w Hcompat)
    as (wa & w1 & Hmk & Hsd & Hwf1 & Hclock1 & Hadd & Hdst1 & Hmirror).
  pose proof (mirrored_agree _ _ _ _ Hsep Hadd) as Hagree1.
  set (src_files := file_listing (files w1) src true).
  pose proof (λ a rel, prepared_source src dst (files w) (files w1) a rel
                         Hcompat Hadd Hdst1 Hmirror) as Hsource.
  fold src_files in Hsource.
  (* the plan *)
  destruct (sync_plan src dst w) as [rp wp] eqn:Hplan.
  pose proof Hplan as [(Hno & _)|(_ & ra & wa' & Hmk' & Hrest)]%sync_plan_inv;
    [congruence|].
  rewrite Hmk in Hmk'. injection Hmk' as <- <-.
  destruct Hrest as (rb & w1' & Hsd' & Hrest). rewrite Hsd in Hsd'. injection Hsd' as <- <-.
  destruct Hrest as (Hfp & Hcp & _ & Hrp). cbv zeta in Hrp. fold src_files in Hrp.
  assert (Forall (decided (files w1) dst) src_files) as Hdec.
  { apply Forall_forall. intros [a rel] Hin.
    destruct (Hsource a rel Hin) as (-> & _ & _ & (m & d & Hf) & Hnd & _).
    by eapply verdict_decided. }
  destruct rp as [[copy_tasks delete_tasks]|e]; [|by destruct (Hrp Hdec)].
  destruct Hrp as (Hcopy & _ & Hdel).
  assert (∀ a rel, (a, rel) ∈ copy_tasks ↔
                   (a, rel) ∈ src_files ∧ wanted (files w1) dst (a, rel) = true) as Hincopy.
  { intros a rel. rewrite Hcopy. apply elem_of_bool_filter. }
  assert (∀ p, p ∈ delete_tasks ↔
               ∃ rel, (p, rel) ∈ file_listing (files w1) dst false ∧
                      (should_skip_file (basename rel) = true ∨
                       ¬ ∃ a, (a, rel) ∈ src_files)) as Hindel.
  { intros p. rewrite Hdel, elem_of_delete_tasks.
    by setoid_rewrite elem_of_src_rel_paths. }
  (* the copies *)
  assert (copy_ready (files wp) src dst copy_tasks) as Hready.
  { rewrite Hfp. intros a rel [Hin _]%Hincopy.
    by destruct (Hsource a rel Hin) as (-> & _ & _ & ? & ? & ?). }
  destruct (copy_phase_sync cpu_count src dst copy_tasks threads wp)
    as (w2 & Hcopyrun & Hwf2 & Hother & Hdone); [by rewrite Hfp|done..|].
  rewrite Hfp in Hother, Hdone.
  assert (∀ rel, (src ++ rel, rel) ∈ copy_tasks →
                 (∃ m d, files w1 !! (src ++ rel) = Some (File m d)) ∧
                 isdir (files w1) (dst ++ rel) = false) as Hreads.
  { intros rel [Hin _]%Hincopy.
    by destruct (Hsource _ rel Hin) as (_ & _ & _ & ? & ? & _). }
  (* the deletions *)
  destruct (delete_phase delete_tasks threads w2) as [r3 w3] eqn:Hdelrun.
  pose proof (delete_phase_effect _ _ _ _ _ Hdelrun)
    as ((Hc3 & _ & Hrem3 & Hwf3) & Hok3).
  destruct (Hok3 Hthr) as [-> Hgone]. clear Hok3.
  (* the obsolete directories *)
  set (w3' := World (files w3) (clock w3) (trace w3 ++ [Log INFO MsgCheckDirs])).
  destruct (remove_obsolete_directories src dst w3') as [r4 w4] eqn:Hrod.
  pose proof (remove_obsolete_directories_effect _ _ _ _ _ Hrod)
    as (-> & (Hc4 & _ & Hrem4 & Hwf4) & _).
  simpl in Hrem4, Hwf4.
  exists w4. split.
  { unfold sync_folders. rewrite (bind_ok _ _ _ _ _ Hplan). cbv beta iota.
    rewrite (bind_ok _ _ _ _ _ Hcopyrun), (bind_ok _ _ _ _ _ Hdelrun).
    erewrite bind_ok by reflexivity. exact Hrod. }
  (* nothing of the source is a place the run writes to *)
  assert (∀ q, q ∈ delete_tasks → ∃ rel, q = dst ++ rel ∧ rel ≠ []) as Hdelpath.
  { intros q (rel & (-> & (Hne & _) & _)%elem_of_file_listing & _)%Hindel. eauto. }
  assert (∀ q, obsolete (files w3) src dst q → ∃ rel, q = dst ++ rel ∧ rel ≠ []) as Hobspath.
  { intros q (rel & -> & [Hne _] & _). eauto. }
  assert (agree_below src (files w1) (files w3)) as Hagree3.
  { intros x. eapply (pipeline_frame3 src dst copy_tasks delete_tasks); eauto.
    - intros rel _. by apply separate_neq.
    - intros (rel & Heq & _)%Hdelpath. by apply separate_neq in Heq. }
  assert (agree_below src (files w1) (files w4)) as Hagree4.
  { intros x. rewrite <- Hagree3.
    destruct (Hrem4 (src ++ x)) as [?|((rel & Heq & _)%Hobspath & _)]; [done|].
    by apply separate_neq in Heq. }
  assert (agree_below src (files w) (files w4)) as Hagree
    by by eapply agree_below_trans.
  assert (∀ a rel, (a, rel) ∈ src_files → dst ++ rel ∉ delete_tasks) as Hkept.
  { intros a rel Hin (rel' & (Heq & _)%elem_of_file_listing & Hwhy)%Hindel.
    apply app_inv_head in Heq as <-.
    destruct (Hsource a rel Hin) as (_ & _ & Hskip & _).
    destruct Hwhy as [?|Hno]; [congruence|]. apply Hno. eauto. }
  (* the source files of the plan are those of the first world, with the
     same answers of [should_copy] *)
  assert (∀ rel, file_under (files w) src rel → should_skip_file (basename rel) = false →
                 (src ++ rel, rel) ∈ src_files) as Hlisted.
  { intros rel Hfu Hskip. apply elem_of_file_listing. split; [done|]. split; [|done].
    by eapply agree_file_under. }
  assert (∀ a rel, (a, rel) ∈ src_files →
                   shape_at (files w1) (dst ++ rel) = shape_at (files w) (dst ++ rel)) as Hsame.
  { intros a rel Hin. destruct (Hsource a rel Hin) as (_ & _ & _ & _ & Hnd & _).
    destruct (Hadd (dst ++ rel)) as [?|(_ & ? & _)]; [done|congruence]. }
  assert (∀ a rel, (a, rel) ∈ src_files →
            verdict (files w1) (src ++ rel) (dst ++ rel)
            = verdict (files w) (src ++ rel) (dst ++ rel)) as Hverdict.
  { intros a rel Hin. destruct (Hsource a rel Hin) as (_ & Hfu & Hskip & _).
    apply verdict_agree; [apply Hagree1|by eapply Hsame| |].
    - destruct (file_under_File _ _ _ Hfu) as (m & d & ->). done.
    - pose proof (Hfiles rel Hfu Hskip) as Hnd. unfold isdir in Hnd.
      destruct (files w !! (dst ++ rel)) as [[]|]; done. }
  assert (isdir (files w4) dst = true) as Hdst4.
  { eapply (pipeline_dir src dst copy_tasks delete_tasks); eauto.
    intros (rel & Heq & Hne)%Hobspath. rewrite <- (app_nil_r dst) in Heq at 1.
    by apply app_inv_head in Heq. }
  (* the files of the destination *)
  assert (∀ rel m d,
            files w4 !! (dst ++ rel) = Some (File m d) ↔
            file_under (files w) src rel ∧ should_skip_file (basename rel) = false ∧
            match verdict (files w) (src ++ rel) (dst ++ rel) with
            | Ok true => files w !! (src ++ rel) = Some (File m d)
            | _ => files w !! (dst ++ rel) = Some (File m d)
            end) as Hallfiles.
  { intros rel m d. split.
    - intros Hf4.
      assert (rel ≠ []) as Hne.
      { intros ->. rewrite app_nil_r in Hf4. unfold isdir in Hdst4. by rewrite Hf4 in Hdst4. }
      destruct (pipeline_file src dst copy_tasks delete_tasks _ _ _ _ _
                  Hother Hdone Hrem3 Hgone Hrem4 _ _ _ Hf4)
        as [Hnodel [(rel' & Hc & <-%app_inv_head & Hf1)|[Hnocopy Hf1]]].
      + pose proof Hc as [Hin Hw]%Hincopy.
        destruct (Hsource _ _ Hin) as (_ & Hfu & Hskip & _).
        split; [done|]. split; [done|].
        rewrite <- (Hverdict _ _ Hin). unfold wanted in Hw. simpl in Hw.
        destruct (verdict (files w1) (src ++ rel) (dst ++ rel)) as [[]|]; try done.
        apply shape_at_File. rewrite <- Hagree1. by apply shape_at_File.
      + assert ((dst ++ rel, rel) ∈ file_listing (files w1) dst false) as Hlist.
        { apply elem_of_file_listing. split; [done|]. split; [|done].
          by eapply wf_file_under. }
        assert (∃ a, (a, rel) ∈ src_files) as [a Hin].
        { destruct (decide (rel ∈ (list_to_set (map snd src_files) : gset path)))
            as [?%elem_of_src_rel_paths|Hno]; [done|].
          destruct Hnodel. apply Hindel. exists rel. split; [done|]. right.
          by rewrite <- elem_of_src_rel_paths. }
        destruct (Hsource _ _ Hin) as (-> & Hfu & Hskip & _).
        split; [done|]. split; [done|].
        rewrite <- (Hverdict _ _ Hin).
        rewrite Forall_forall in Hdec. destruct (Hdec _ Hin) as [answer Hv]. simpl in Hv.
        rewrite Hv. destruct answer.
        * destruct (Hnocopy rel); [|done]. apply Hincopy. split; [done|].
          unfold wanted. simpl. by rewrite Hv.
        * apply shape_at_File. rewrite <- (Hsame _ _ Hin). by apply shape_at_File.
    - intros (Hfu & Hskip & Hcase).
      pose proof (Hlisted rel Hfu Hskip) as Hin.
      rewrite <- (Hverdict _ _ Hin) in Hcase.
      eapply (pipeline_keeps delete_tasks); eauto.
      rewrite Forall_forall in Hdec. destruct (Hdec _ Hin) as [answer Hv]. simpl in Hv.
      rewrite Hv in Hcase. apply shape_at_File. destruct answer.
      + rewrite Hdone.
        * rewrite Hagree1. by apply shape_at_File.
        * apply Hincopy. split; [done|]. unfold wanted. simpl. by rewrite Hv.
      + rewrite Hother.
        * rewrite (Hsame _ _ Hin). by apply shape_at_File.
        * intros rel' [_ Hw]%Hincopy Heq. apply app_inv_head in Heq as <-.
          unfold wanted in Hw. simpl in Hw. by rewrite Hv in Hw. }
  split_and!; [by auto|done|done| |done].
  intros rel Hne. split.
  - intros Hd4.
    destruct (decide ((src ++ rel, rel) ∈ dir_listing (files w) src))
      as [[_ ?]%elem_of_dir_listing|Hno]; [done|]. exfalso.
    assert (isdir (files w3) (dst ++ rel) = true) as Hd3
      by by eapply removed_isdir.
    assert (files w4 !! (dst ++ rel) = None) as Hnone.
    { apply (obsolete_directories_gone src dst w3' w4 (Ok tt) Hrod rel).
      - by apply wf_dir_under; [apply Hwf3|..].
      - intros Hd. apply Hno, elem_of_dir_listing. split; [done|].
        eapply agree_dir_under; [|exact Hd]. apply agree_below_sym.
        eapply agree_below_trans; [exact Hagree1|exact Hagree3].
      - intros x m d Hx. simpl in Hx.
        destruct (decide (x = [])) as [->|Hx0].
        { rewrite app_nil_r in Hx. unfold isdir in Hd3. by rewrite Hx in Hd3. }
        assert (files w4 !! (dst ++ rel ++ x) = Some (File m d)) as Hx4.
        { rewrite app_assoc. destruct (Hrem4 ((dst ++ rel) ++ x)) as [Hs|(_ & _ & Hd & _)].
          - apply shape_at_File. rewrite Hs. by apply shape_at_File.
          - unfold isdir in Hd. by rewrite Hx in Hd. }
        apply Hallfiles in Hx4 as [(_ & Hr & _) _].
        rewrite parent_app in Hr by done.
        apply Hno, elem_of_dir_listing. split; [done|]. split; [done|].
        eapply reachable_prefix; [exact Hr|by apply prefix_app_r]. }
    apply isdir_exists in Hd4 as [? ?]. congruence.
  - intros Hd0.
    eapply (pipeline_dir src dst copy_tasks delete_tasks); eauto.
    intros (rel' & Heq & _ & Hno). apply app_inv_head in Heq as <-. apply Hno.
    eapply agree_dir_under; [|exact Hd0].
    eapply agree_below_trans; [exact Hagree1|exact Hagree3].
Qed.

End Outcome.

Section Mirror.
Context `{Hasher}.
Variable cpu_count : positive.

(** X3: on folders that do not conflict, a run returns normally and leaves
    the destination with the directories of the source and no other: each
    directory of the source has its directory, also when it is empty, and
    each directory that the source does not have is removed. *)
Theorem sync_folders_mirrors_directories (src dst : path) (threads : Z) (w : world) :
  compatible src dst (files w) → (0 < threads)%Z →
  ∃ w', sync_folders cpu_count src dst threads w = (Ok tt, w') ∧
        isdir (files w') dst = true ∧
        ∀ rel, rel ≠ [] →
               isdir (files w') (dst ++ rel) = true ↔ dir_under (files w) src rel.
Proof.
  intros Hcompat Hthr.
  destruct (first_run_outcome cpu_count src dst threads w Hcompat Hthr)
    as (w' & Hrun & _ & _ & Hdst & Hdirs & _).
  by exists w'.
Qed.

(** X4: on folders that do not conflict, a run leaves, for each file of the
    source that is not skipped, a file at the same relative path of the
    destination: a copy of the source file, content and modification time,
    when [should_copy] answers true before the run, and the file that was
    there, untouched, when it answers false, whatever the two contents. *)
Theorem sync_folders_copies_files (src dst : path) (threads : Z) (w : world) :
  compatible src dst (files w) → (0 < threads)%Z →
  ∃ w', sync_folders cpu_count src dst threads w = (Ok tt, w') ∧
        ∀ rel, file_under (files w) src rel → should_skip_file (basename rel) = false →
          ∃ (answer : bool) m d,
            should_copy (src ++ rel) (dst ++ rel) w = (Ok answer, w) ∧
            files w !! (if answer then src ++ rel else dst ++ rel) = Some (File m d) ∧
            files w' !! (dst ++ rel) = Some (File m d).
Proof.
  intros Hcompat Hthr.
  destruct (first_run_outcome cpu_count src dst threads w Hcompat Hthr)
    as (w' & Hrun & _ & _ & _ & _ & Hfiles).
  exists w'. split; [done|]. intros rel Hfu Hskip.
  destruct Hcompat as (_ & _ & _ & _ & _ & Hnodir).
  destruct (file_under_File _ _ _ Hfu) as (m & d & Hsrc).
  destruct (verdict_decided (files w) (src ++ rel) (dst ++ rel) m d Hsrc
              (Hnodir rel Hfu Hskip)) as [answer Hv].
  rewrite should_copy_run, Hv. destruct answer.
  - exists true, m, d. split_and!; [done..|]. apply Hfiles. by rewrite Hv.
  - destruct (verdict_false_exists _ _ _ Hv) as [e He].
    pose proof (Hnodir rel Hfu Hskip) as Hnd. unfold isdir in Hnd. rewrite He in Hnd.
    destruct e as [m' d'|]; [|done].
    exists false, m', d'. split_and!; [done..|]. apply Hfiles. by rewrite Hv.
Qed.

(** X5: on folders that do not conflict, every file that a run leaves at
    the destination stands at the relative path of a file of the source
    that is not skipped: the files the source does not have and the files
    with a skipped name are gone, whether the source has such a file or
    not. *)
Theorem sync_folders_purges (src dst : path) (threads : Z) (w : world) :
  compatible src dst (files w) → (0 < threads)%Z →
  ∃ w', sync_folders cpu_count src dst threads w = (Ok tt, w') ∧
        ∀ rel m d, files w' !! (dst ++ rel) = Some (File m d) →
                   file_under (files w) src rel ∧ should_skip_file (basename rel) = false.
Proof.
  intros Hcompat Hthr.
  destruct (first_run_outcome cpu_count src dst threads w Hcompat Hthr)
    as (w' & Hrun & _ & _ & _ & _ & Hfiles).
  exists w'. split; [done|]. intros rel m d Hf. by apply Hfiles in Hf as (? & ? & _).
Qed.

(** X6: when the source path is a file and not a directory, the scans of
    the source find nothing, and a run empties the destination: every file
    is deleted and every directory below the destination folder is
    removed. *)
Theorem sync_folders_file_source (src dst : path) (threads : Z) (w : world) :
  compatible src dst (files w) → (0 < threads)%Z →
  isdir (files w) src = false →
  ∃ w', sync_folders cpu_count src dst threads w = (Ok tt, w') ∧
        isdir (files w') dst = true ∧
        ∀ rel, rel ≠ [] → files w' !! (dst ++ rel) = None.
Proof.
  intros Hcompat Hthr Hfile.
  destruct (first_run_outcome cpu_count src dst threads w Hcompat Hthr)
    as (w' & Hrun & _ & _ & Hdst & Hdirs & Hfiles).
  exists w'. split; [done|]. split; [done|]. intros rel Hne.
  assert (∀ q, ¬ reachable (files w) src q) as Hnone.
  { intros q Hr. apply (reachable_prefix _ _ _ []) in Hr; [|apply prefix_nil].
    apply reachable_nil in Hr. congruence. }
  destruct (files w' !! (dst ++ rel)) as [[m d|m]|] eqn:He; [| |done].
  - apply Hfiles in He as [(_ & Hr & _) _]. by apply Hnone in Hr.
  - assert (isdir (files w') (dst ++ rel) = true) as Hd by (unfold isdir; by rewrite He).
    apply Hdirs in Hd as [_ Hr]; [|done]. by apply Hnone in Hr.
Qed.

(** X24: a run into a destination folder that does not exist or holds
    nothing returns normally, creates the folder and leaves in it a copy of
    every file of the source that is not skipped, with its content and its
    modification time, and the image of every directory of the source; this
    is what the three tests of the file look for. *)
Theorem sync_folders_into_empty (src dst : path) (threads : Z) (w : world) :
  wf (files w) → separate src dst → path_exists (files w) src = true →
  clear_way (files w) dst →
  (∀ rel, rel ≠ [] → files w !! (dst ++ rel) = None) →
  (0 < threads)%Z →
  ∃ w', sync_folders cpu_count src dst threads w = (Ok tt, w') ∧
        isdir (files w') dst = true ∧
        (∀ rel, dir_under (files w) src rel → isdir (files w') (dst ++ rel) = true) ∧
        (∀ rel, file_under (files w) src rel → should_skip_file (basename rel) = false →
                is_Some (files w' !! (dst ++ rel)) ∧
                files w' !! (dst ++ rel) = files w !! (src ++ rel)).
Proof.
  intros Hwf Hsep Hsrc Hway Hempty Hthr.
  assert (compatible src dst (files w)) as Hcompat.
  { split_and!; [done..| |].
    - intros rel [Hne _] Hex. apply path_exists_true in Hex as [? Hex].
      by rewrite Hempty in Hex.
    - intros rel [Hne _] _. unfold isdir. by rewrite Hempty. }
  destruct (first_run_outcome cpu_count src dst threads w Hcompat Hthr)
    as (w' & Hrun & _ & _ & Hdst & Hdirs & Hfiles).
  exists w'. split_and!; [done..| |].
  - intros rel Hd. apply Hdirs; [by destruct Hd|done].
  - intros rel Hfu Hskip. destruct (file_under_File _ _ _ Hfu) as (m & d & Hf).
    assert (files w' !! (dst ++ rel) = Some (File m d)) as Hcopy.
    { apply Hfiles. split; [done|]. split; [done|]. unfold verdict.
      rewrite Hempty by by destruct Hfu. done. }
    rewrite Hcopy, Hf. eauto.
Qed.

Lemma synced_plan_same (src dst : path) (w wp : world)
    (r : result (list (path * path) * list path)) :
  synced src dst (files w) → sync_plan src dst w = (r, wp) →
  same_shape (files w) (files wp).
Proof.
  intros (Hwf & Hsep & Hsrc & Hdst & Hdirs & _) Hplan.
  pose proof Hplan as [(Hno & _)|(_ & ra & wa & Hmk & Hrest)]%sync_plan_inv;
    [congruence|].
  rewrite makedirs_exists in Hmk by (by try apply isdir_path_exists).
  simpl in Hmk. rewrite Hdst in Hmk. injection Hmk as <- <-.
  destruct Hrest as (rb & w1 & Hsd & Hrest).
  pose proof (sync_directories_effect _ _ _ _ _ Hsd) as ((_ & _ & Hadd & _) & _).
  simpl in Hadd.
  assert (same_shape (files w) (files w1)) as Hsame.
  { intros q. destruct (Hadd q) as [?|(Hnone & _ & rel & Hrel & Hpre)]; [done|].
    exfalso. apply path_exists_false in Hnone.
    rewrite (wf_prefix_exists _ _ _ Hwf Hpre) in Hnone; [done|].
    by apply isdir_path_exists, Hdirs. }
  destruct rb as [[]|e]; [|by destruct Hrest as [_ ->]].
  destruct Hrest as (Hfp & _). by rewrite Hfp.
Qed.

(** X7: on folders that do not conflict, a second run right after the first
    returns normally and changes nothing: no directory is created or
    removed, no file is written or deleted.  Its two sets are empty, so that
    no pool is started and even a thread count that is not positive goes
    unnoticed. *)
Theorem sync_twice_unchanged (src dst : path) (threads threads' : Z) (w : world) :
  compatible src dst (files w) → (0 < threads)%Z →
  ∃ w1 w2, sync_folders cpu_count src dst threads w = (Ok tt, w1) ∧
           sync_folders cpu_count src dst threads' w1 = (Ok tt, w2) ∧
           ∀ q, shape_at (files w2) q = shape_at (files w1) q.
Proof.
  intros Hcompat Hthr.
  destruct (first_run_outcome cpu_count src dst threads w Hcompat Hthr)
    as (w1 & Hrun & Hwf1 & Hagree & Hdst & Hdirs & _).
  destruct (first_run_syncs cpu_count src dst threads w Hcompat Hthr)
    as (w1' & Hrun' & Hsynced).
  rewrite Hrun in Hrun'. injection Hrun' as <-.
  destruct (synced_plan_empty src dst w1 Hsynced) as (wp & Hplan).
  pose proof (synced_plan_same _ _ _ _ _ Hsynced Hplan) as Hsame.
  set (w3 := World (files wp) (clock wp)
               (((trace wp ++ [Log INFO MsgNoCopy]) ++ [Log INFO MsgNoDelete])
                ++ [Log INFO MsgCheckDirs])).
  destruct (remove_obsolete_directories src dst w3) as [r4 w4] eqn:Hrod.
  pose proof (remove_obsolete_directories_effect _ _ _ _ _ Hrod)
    as (-> & (_ & _ & Hrem & _) & _).
  exists w1, w4. split; [done|]. split.
  { unfold sync_folders. rewrite (bind_ok _ _ _ _ _ Hplan). cbv beta iota.
    unfold copy_phase, delete_phase.
    do 3 (erewrite bind_ok by reflexivity). exact Hrod. }
  intros q. destruct (Hrem q) as [Hs|((rel & -> & Hd & Hno) & _)].
  - rewrite Hs. simpl. apply Hsame.
  - destruct Hno. simpl in Hd. pose proof Hd as [Hne Hr].
    apply reachable_end in Hr. rewrite (same_shape_isdir _ _ _ Hsame) in Hr.
    apply Hdirs in Hr; [|done].
    eapply agree_dir_under; [|exact Hr]. simpl.
    eapply agree_below_trans; [exact Hagree|]. by apply same_shape_agree.
Qed.

(** X8: a run of [sync_folders] that raises has copied no file and deleted
    nothing: all it may have done is create directories.  With a positive
    thread count it raises only while it makes its plan; otherwise the
    exception is the [ValueError] of a pool that is given no thread. *)
Theorem sync_folders_raises_early (src dst : path) (threads : Z) (w w' : world) (e : exn) :
  sync_folders cpu_count src dst threads w = (Raise e, w') →
  (sync_plan src dst w = (Raise e, w') ∨ ((threads ≤ 0)%Z ∧ e = ValueError)) ∧
  ∀ q, shape_at (files w') q = shape_at (files w) q ∨
       (files w !! q = None ∧ isdir (files w') q = true).
Proof.
  assert (∀ w1 w2, grows setup_event (λ _, True) w w1 → files w2 = files w1 →
            ∀ q, shape_at (files w2) q = shape_at (files w) q ∨
                 (files w !! q = None ∧ isdir (files w2) q = true)) as Hdirs.
  { intros w1 w2 (_ & _ & Hadd & _) Heq q. rewrite Heq.
    destruct (Hadd q) as [?|(? & ? & _)]; [by left|by right]. }
  intros [(e' & Hplan & [= <-])|(copy_tasks & delete_tasks & w1 & Hplan & Hrest)]%sync_folders_inv;
    pose proof (sync_plan_grows _ _ _ _ _ Hplan) as Hgrows.
  { split; [by left|]. by eapply Hdirs. }
  assert (∀ w2 r2, (threads ≤ 0)%Z →
            copy_phase cpu_count copy_tasks dst threads w1 = (r2, w2) →
            files w2 = files w1 ∧ (∀ e2, r2 = Raise e2 → e2 = ValueError)) as Hcopy0.
  { intros w2 r2 Hle Hcopy. destruct (decide (copy_tasks = [])) as [->|Hne].
    - apply emit_inv in Hcopy as [-> ->]. done.
    - rewrite copy_phase_unfold in Hcopy by done.
      destruct (Z.leb_spec threads 0); [|lia]. injection Hcopy as <- <-.
      split; [done|]. by intros ? [= <-]. }
  assert (∀ w2 w3 r3, (threads ≤ 0)%Z →
            delete_phase delete_tasks threads w2 = (r3, w3) →
            files w3 = files w2 ∧ (∀ e3, r3 = Raise e3 → e3 = ValueError)) as Hdel0.
  { intros w2 w3 r3 Hle Hdel. unfold delete_phase, thread_pool in Hdel.
    destruct delete_tasks as [|p tasks].
    - apply emit_inv in Hdel as [-> ->]. done.
    - destruct (Z.leb_spec threads 0); [|lia].
      apply bind_inv in Hdel as [(? & ? & [[=] _]%raise_inv & _)|(e3 & [[= <-] ->]%raise_inv & ->)].
      split; [done|]. by intros ? [= <-]. }
  destruct (Z.le_gt_cases threads 0) as [Hle|Hgt].
  - destruct Hrest as [(e' & Hcopy & [= <-])|(w2 & Hcopy & Hrest)].
    { destruct (Hcopy0 _ _ Hle Hcopy) as [Hf He]. split; [right; auto|by eapply Hdirs]. }
    destruct (Hcopy0 _ _ Hle Hcopy) as [Hf2 _].
    destruct Hrest as [(e' & Hdel & [= <-])|(w3 & Hdel & Hrod)].
    { destruct (Hdel0 _ _ _ Hle Hdel) as [Hf3 He]. split; [right; auto|].
      eapply Hdirs; [done|congruence]. }
    by apply remove_obsolete_directories_effect in Hrod as [[=] _].
  - destruct Hrest as [(e' & Hcopy & _)|(w2 & Hcopy & Hrest)].
    { by apply copy_phase_ok in Hcopy. }
    destruct Hrest as [(e' & Hdel & _)|(w3 & Hdel & Hrod)].
    { apply delete_phase_effect in Hdel as [_ Hok]. by destruct (Hok Hgt) as [[=] _]. }
    by apply remove_obsolete_directories_effect in Hrod as [[=] _].
Qed.

End Mirror.

(** ** The scans *)

Lemma NoDup_flat_map_key {A B K} (key : A → K) (kb : B → K) (f : A → list B) (l : list A) :
  NoDup (map key l) → (∀ x, x ∈ l → NoDup (f x)) →
  (∀ x y, x ∈ l → y ∈ f x → kb y = key x) → NoDup (flat_map f l).
Proof.
  induction l as [|x l IH]; intros Hk Hf Hkb; simpl; [constructor|].
  simpl in Hk. apply NoDup_cons in Hk as [Hx Hk]. apply NoDup_app. split_and!.
  - apply Hf. by left.
  - intros y Hy (x' & Hx' & Hy')%elem_of_flat_map. apply Hx.
    apply list_elem_of_fmap. exists x'. split; [|done].
    rewrite <- (Hkb x y), <- (Hkb x' y); [done|by right|done|by left|done].
  - apply IH; [done|..].
    + intros x' Hx'. apply Hf. by right.
    + intros x' y Hx'. apply Hkb. by right.
Qed.

Lemma map_flat_map {A B C} (g : B → C) (f : A → list B) (l : list A) :
  map g (flat_map f l) = flat_map (λ x, map g (f x)) l.
Proof. induction l as [|x l IH]; simpl; [done|]. by rewrite map_app, IH. Qed.

Lemma filter_flat_map {A B} (P : B → bool) (f : A → list B) (l : list A) :
  List.filter P (flat_map f l) = flat_map (λ x, List.filter P (f x)) l.
Proof. induction l as [|x l IH]; simpl; [done|]. by rewrite List.filter_app, IH. Qed.

Lemma flat_map_ext_elem {A B} (f g : A → list B) (l : list A) :
  (∀ x, x ∈ l → f x = g x) → flat_map f l = flat_map g l.
Proof.
  induction l as [|x l IH]; intros Hfg; simpl; [done|].
  rewrite Hfg by by left. rewrite IH; [done|]. intros x' Hx'. apply Hfg. by right.
Qed.

(** [os.listdir] names each entry once. *)
Lemma NoDup_children (fs : gmap path entry) (top : path) : NoDup (children fs top).
Proof.
  unfold children. pose proof (NoDup_fst_map_to_list fs) as Hnd.
  induction (map_to_list fs) as [|[p e] l IH]; simpl; [constructor|].
  rewrite fmap_cons in Hnd. apply NoDup_cons in Hnd as [Hp Hnd].
  destruct (child_name top p) as [n|] eqn:Hn; [|by apply IH].
  apply NoDup_cons. split; [|by apply IH].
  intros ([p' e'] & Hin & Hkv)%list_elem_of_omap. simpl in *.
  apply child_name_Some in Hn, Hkv. apply Hp. apply list_elem_of_fmap.
  exists (p', e'). split; [simpl; congruence|done].
Qed.

Lemma NoDup_bool_filter {A} (f : A → bool) (l : list A) : NoDup l → NoDup (List.filter f l).
Proof.
  induction 1 as [|x l Hx Hl IH]; simpl; [constructor|].
  destruct (f x); [|done]. apply NoDup_cons. split; [|done].
  by intros [? _]%elem_of_bool_filter.
Qed.

(** [os.walk] visits each directory once. *)
Lemma NoDup_walk_fuel (fuel : nat) (fs : gmap path entry) (top : path) :
  NoDup (map (λ t, t.1.1) (walk_fuel fuel fs top)).
Proof.
  revert top. induction fuel as [|k IH]; intros top; simpl; [constructor|].
  destruct (listdir fs top) as [names|] eqn:Hls; [|constructor].
  apply listdir_Ok in Hls as [_ ->]. simpl.
  set (dirs := List.filter (λ n, isdir fs (top ++ [n])) (children fs top)).
  rewrite map_flat_map. apply NoDup_cons. split.
  - intros (d & _ & Hd)%elem_of_flat_map.
    apply list_elem_of_fmap in Hd as ([[root ds] fs'] & -> & Hin). simpl.
    apply elem_of_walk_fuel in Hin as (q & Hroot & _). simpl in Hroot.
    apply (f_equal length) in Hroot. rewrite !length_app in Hroot. simpl in Hroot. lia.
  - apply (NoDup_flat_map_key Some (λ r : path, r !! length top)).
    + apply (NoDup_fmap_2 Some). apply NoDup_bool_filter, NoDup_children.
    + intros d _. apply IH.
    + intros d r _ Hr.
      apply list_elem_of_fmap in Hr as ([[root ds] fs'] & -> & Hin). simpl.
      apply elem_of_walk_fuel in Hin as (q & -> & _).
      rewrite <- app_assoc. simpl. by apply list_lookup_middle.
Qed.

Lemma walk_fuel_names (fuel : nat) (fs : gmap path entry) (top root : path)
    (dirs nondirs : list string) :
  (root, dirs, nondirs) ∈ walk_fuel fuel fs top →
  (∃ q, root = top ++ q) ∧ NoDup dirs ∧ NoDup nondirs.
Proof.
  intros (q & -> & _ & _ & -> & ->)%elem_of_walk_fuel.
  split; [eauto|]. split; apply NoDup_bool_filter, NoDup_children.
Qed.

Lemma NoDup_file_listing (fs : gmap path entry) (base : path) (flt : bool) :
  NoDup (file_listing fs base flt).
Proof.
  unfold file_listing.
  apply (NoDup_flat_map_key (λ t, t.1.1) (λ y : path * path, parent y.1));
    [apply NoDup_walk_fuel|..].
  - intros [[root dirs] nondirs] (_ & _ & Hnd)%walk_fuel_names.
    apply (NoDup_flat_map_key id (λ y : path * path, basename y.1)); [by rewrite map_id|..].
    + intros f _. destruct (flt && should_skip_file f); repeat constructor.
      by intros ?%elem_of_nil.
    + intros f y _ Hy. destruct (flt && should_skip_file f); [by apply elem_of_nil in Hy|].
      apply list_elem_of_singleton in Hy as ->. simpl. apply basename_snoc.
  - intros [[root dirs] nondirs] y _ (f & _ & Hy)%elem_of_flat_map. simpl.
    destruct (flt && should_skip_file f); [by apply elem_of_nil in Hy|].
    apply list_elem_of_singleton in Hy as ->. simpl. apply parent_snoc.
Qed.

Lemma NoDup_dir_listing (fs : gmap path entry) (base : path) : NoDup (dir_listing fs base).
Proof.
  unfold dir_listing.
  apply (NoDup_flat_map_key (λ t, t.1.1) (λ y : path * path, parent y.1));
    [apply NoDup_walk_fuel|..].
  - intros [[root dirs] nondirs] (_ & Hnd & _)%walk_fuel_names.
    apply NoDup_fmap_2_strong; [|done].
    intros d d' _ _ [= Heq _]. by apply app_inv_head in Heq as [= ->].
  - intros [[root dirs] nondirs] y _ Hy. simpl.
    apply list_elem_of_fmap in Hy as (d & -> & _). simpl. apply parent_snoc.
Qed.

Lemma NoDup_snd_listing (base : path) (l : list (path * path)) :
  (∀ abs rel, (abs, rel) ∈ l → abs = base ++ rel) → NoDup l → NoDup (map snd l).
Proof.
  intros Hl Hnd. apply NoDup_fmap_2_strong; [|done].
  intros [a r] [a' r'] Hin Hin' Heq. simpl in Heq. subst r'.
  by rewrite (Hl _ _ Hin), (Hl _ _ Hin').
Qed.

(** The filtered scan is the unfiltered scan without the files whose name
    is skipped. *)
Lemma file_listing_filter (fs : gmap path entry) (base : path) :
  file_listing fs base true
  = List.filter (λ t, negb (should_skip_file (basename t.2))) (file_listing fs base false).
Proof.
  unfold file_listing. rewrite filter_flat_map. apply flat_map_ext_elem.
  intros [[root dirs] nondirs] [[q ->] _]%walk_fuel_names.
  rewrite filter_flat_map. apply flat_map_ext_elem. intros f _. simpl.
  rewrite <- app_assoc, relative_to_app, basename_snoc.
  by destruct (should_skip_file f).
Qed.

(** X9: a scan with the skip filter returns the list of the scan without
    it, in the same order, less the files whose name [should_skip_file]
    accepts; the name of a directory on the way to a file plays no part, so
    that the files in a directory named [__MACOSX] are kept. *)
Theorem scan_files_skip_filter (base_dir : path) (w : world) :
  ∃ all_files,
    scan_files base_dir false w
    = (Ok all_files, World (files w) (clock w) (trace w ++ [Walk base_dir])) ∧
    scan_files base_dir true w
    = (Ok (List.filter (λ t, negb (should_skip_file (basename t.2))) all_files),
       World (files w) (clock w) (trace w ++ [Walk base_dir])).
Proof.
  exists (file_listing (files w) base_dir false).
  by rewrite !scan_files_run, file_listing_filter.
Qed.

(** X10: each of the two scans lists an entry once: no relative path and no
    absolute path comes twice, the absolute path of a pair is the base
    directory joined with its relative path, and no relative path is both
    in the scan of the files and in the scan of the directories. *)
Theorem scan_paths_unique (base_dir : path) (apply_skip_filter : bool) (w : world) :
  ∃ file_list dir_list,
    (scan_files base_dir apply_skip_filter w).1 = Ok file_list ∧
    (scan_directories base_dir w).1 = Ok dir_list ∧
    NoDup (map snd file_list) ∧ NoDup (map fst file_list) ∧
    NoDup (map snd dir_list) ∧ NoDup (map fst dir_list) ∧
    (∀ abs_path rel_path, (abs_path, rel_path) ∈ file_list ++ dir_list →
                          abs_path = base_dir ++ rel_path ∧ rel_path ≠ []) ∧
    (∀ rel_path, rel_path ∈ map snd file_list → rel_path ∉ map snd dir_list).
Proof.
  exists (file_listing (files w) base_dir apply_skip_filter), (dir_listing (files w) base_dir).
  rewrite scan_files_run, scan_directories_run. simpl.
  assert (∀ abs rel, (abs, rel) ∈ file_listing (files w) base_dir apply_skip_filter →
                     abs = base_dir ++ rel) as Hf
    by (by intros abs rel (-> & _)%elem_of_file_listing).
  assert (∀ abs rel, (abs, rel) ∈ dir_listing (files w) base_dir → abs = base_dir ++ rel)
    as Hd by (by intros abs rel (-> & _)%elem_of_dir_listing).
  assert (∀ (l : list (path * path)),
            (∀ abs rel, (abs, rel) ∈ l → abs = base_dir ++ rel) → NoDup l →
            NoDup (map fst l)) as Hfst.
  { intros l Hl Hnd. apply NoDup_fmap_2_strong; [|done].
    intros [a r] [a' r'] Hin Hin' Heq. simpl in Heq. subst a'.
    rewrite (Hl _ _ Hin) in Hin'. apply Hl in Hin'. by apply app_inv_head in Hin' as ->. }
  split_and!; [done|done|..].
  - by eapply NoDup_snd_listing; [|apply NoDup_file_listing].
  - by apply Hfst; [|apply NoDup_file_listing].
  - by eapply NoDup_snd_listing; [|apply NoDup_dir_listing].
  - by apply Hfst; [|apply NoDup_dir_listing].
  - intros abs rel [(-> & [Hne _] & _)%elem_of_file_listing
                   |(-> & [Hne _])%elem_of_dir_listing]%elem_of_app; done.
  - intros rel ([a r] & -> & (_ & Hfu & _)%elem_of_file_listing)%list_elem_of_fmap
               ([a' r'] & Heq & (_ & Hdu)%elem_of_dir_listing)%list_elem_of_fmap.
    simpl in Heq. subst r'. by apply file_not_dir_under in Hfu.
Qed.

Section Tasks.
Context `{Hasher}.

(** X11: in a plan, no two copy tasks have the same relative path, so that
    no two of them write the same file of the destination, and no path
    comes twice in the delete set. *)
Theorem plan_tasks_unique (src dst : path) (w w' : world)
    (copy_tasks : list (path * path)) (delete_tasks : list path) :
  sync_plan src dst w = (Ok (copy_tasks, delete_tasks), w') →
  NoDup (map snd copy_tasks) ∧
  NoDup (map (λ t, dst ++ t.2) copy_tasks) ∧
  NoDup delete_tasks.
Proof.
  intros (_ & -> & ->)%sync_plan_sets.
  assert (NoDup (map snd (List.filter (wanted (files w') dst)
                            (file_listing (files w') src true)))) as Hcopy.
  { apply (NoDup_snd_listing src).
    - by intros abs rel [(-> & _)%elem_of_file_listing _]%elem_of_bool_filter.
    - apply NoDup_bool_filter, NoDup_file_listing. }
  split; [done|]. split.
  - rewrite <- (map_map snd (λ rel, dst ++ rel)).
    apply (NoDup_fmap_2 (λ rel, dst ++ rel)), Hcopy.
  - unfold delete_tasks_of. apply NoDup_fmap_2_strong.
    + intros [a r] [a' r'] [(-> & _)%elem_of_file_listing _]%elem_of_bool_filter
        [(-> & _)%elem_of_file_listing _]%elem_of_bool_filter Heq.
      simpl in Heq. by apply app_inv_head in Heq as ->.
    + apply NoDup_bool_filter, NoDup_file_listing.
Qed.

End Tasks.

(** ** Deleting and copying one file *)


(** X13: [delete_file_safe] never raises.  A file is removed and the
    removal is logged; a path that does not exist is logged as removed all
    the same; a directory is left in place with an error record. *)
Theorem delete_file_safe_cases (p : path) (w : world) :
  (delete_file_safe p w).1 = Ok tt ∧
  (∀ m d, files w !! p = Some (File m d) →
     delete_file_safe p w
     = (Ok tt, World (touch (clock w) (parent p) (delete p (files w))) (clock w)
                     (trace w ++ [Remove p; Log INFO (MsgRemoved p)]))) ∧
  (files w !! p = None →
     delete_file_safe p w
     = (Ok tt, World (files w) (clock w) (trace w ++ [Log INFO (MsgRemoved p)]))) ∧
  (isdir (files w) p = true →
     ∃ e, delete_file_safe p w
          = (Ok tt, World (files w) (clock w) (trace w ++ [Log ERROR (MsgRemoveError p e)]))).
Proof.
  unfold delete_file_safe, try_except, delete_file, bind, gets, remove, ret, log, emit,
    path_exists, isdir.
  cbv beta. destruct (files w !! p) as [[m d|m]|] eqn:Hp; cbv beta iota; rewrite ?Hp; simpl.
  - split_and!; [done| |done|done]. intros ? ? [= <- <-]. by rewrite <- app_assoc.
  - split_and!; [done|done|done|eauto].
  - done.
Qed.

Section OneFile.
Context `{Hasher}.

(** X14: when [copy_file] returns normally on a destination path that is
    not a directory, the destination is a file with the content and the
    modification time of the source, and [should_copy] on the two paths
    answers false from then on. *)
Theorem copy_file_settles (src_file dst_file : path) (w w' : world) :
  wf (files w) → isdir (files w) dst_file = false →
  copy_file src_file dst_file w = (Ok tt, w') →
  (∃ m d, files w !! src_file = Some (File m d) ∧
          files w' !! src_file = Some (File m d) ∧
          files w' !! dst_file = Some (File m d)) ∧
  should_copy src_file dst_file w' = (Ok false, w').
Proof.
  intros Hwf Hnd Hrun. unfold copy_file in Hrun.
  apply bind_inv in Hrun as [([] & w1 & Hmk & Hcopy)|(? & ? & [=])].
  destruct (makedirs_step (λ _, True) (λ q, q `prefix_of` parent dst_file)
              (parent dst_file) w) as [(_ & _ & Hadd & _) _]; [done..|].
  rewrite Hmk in Hadd. simpl in Hadd.
  assert (dst_file ≠ []) as Hne.
  { intros ->. destruct Hwf as [Hroot _]. congruence. }
  assert (isdir (files w1) dst_file = false) as Hnd1.
  { destruct (Hadd dst_file) as [Hs|(_ & _ & Hpre)].
    - rewrite <- Hnd. apply eq_true_iff_eq. by rewrite !isdir_shape, Hs.
    - exfalso. apply prefix_length in Hpre.
      rewrite <- (length_parent dst_file) in Hpre by done. lia. }
  apply copy2_inv in Hcopy
    as [(_ & _ & Hneq & (m & d & Hsrc & Hupd) & _)|[(_ & ? & _)|(? & [=] & _)]];
    [|congruence].
  assert (files w' !! src_file = Some (File m d)) as Hsrc'.
  { apply shape_at_File. rewrite (shape_upd_other _ _ _ _ _ Hupd) by done.
    by apply shape_at_File. }
  assert (files w' !! dst_file = Some (File m d)) as Hdst'.
  { apply shape_at_File. by apply shape_upd_same in Hupd. }
  split.
  - exists m, d. split_and!; [|done..]. by apply (dirs_added_file _ _ _ _ _ _ Hadd).
  - rewrite should_copy_run. f_equal. by eapply verdict_same_file.
Qed.

(** X15: the errors of [should_copy], which does not catch them and never
    changes the file system.  When the destination exists and the source
    does not, it raises [FileNotFoundError]; when the source is newer than
    the destination and one of the two is a directory, reading it for its
    hash raises. *)
Theorem should_copy_errors (src_file dst_file : path) (w : world) :
  (should_copy src_file dst_file w).2 = w ∧
  (path_exists (files w) dst_file = true → files w !! src_file = None →
   should_copy src_file dst_file w = (Raise FileNotFoundError, w)) ∧
  (∀ s d, files w !! src_file = Some s → files w !! dst_file = Some d →
          (entry_mtime s > entry_mtime d)%Z → is_file s && is_file d = false →
          ∃ e, should_copy src_file dst_file w = (Raise e, w)).
Proof.
  rewrite should_copy_run. simpl. split; [done|]. unfold verdict, path_exists. split.
  - intros Hdst Hsrc. destruct (files w !! dst_file); [|done]. by rewrite Hsrc.
  - intros s d -> -> Hgt Hdir. destruct (Z.gtb_spec (entry_mtime s) (entry_mtime d)); [|lia].
    destruct s, d; try done; eauto.
Qed.

(** X16: [file_hash] reads the file in blocks of 8192 bytes and returns the
    digest of its whole content, so that two files with the same content
    have the same hash, whatever their names and modification times; it
    raises on a path that does not exist and on a directory, and never
    changes anything. *)
Theorem file_hash_content (p : path) (w : world) :
  (∀ m data, files w !! p = Some (File m data) → file_hash p w = (Ok (digest data), w)) ∧
  (∀ p' m m' data, files w !! p = Some (File m data) → files w !! p' = Some (File m' data) →
                   file_hash p' w = file_hash p w) ∧
  (files w !! p = None → file_hash p w = (Raise FileNotFoundError, w)) ∧
  (isdir (files w) p = true → ∃ e, file_hash p w = (Raise e, w)).
Proof.
  split_and!.
  - intros m data Hp. rewrite file_hash_run. unfold read_file. by rewrite Hp.
  - intros p' m m' data Hp Hp'. rewrite !file_hash_run. unfold read_file. by rewrite Hp, Hp'.
  - intros Hp. rewrite file_hash_run. unfold read_file. by rewrite Hp.
  - intros Hd. rewrite file_hash_run. unfold read_file, isdir in *.
    destruct (files w !! p) as [[]|]; try done. eauto.
Qed.

End OneFile.

(** ** Creating the directories twice *)

Section Again.
Context `{Hasher}.
Variable cpu_count : positive.

(** When the mirror image of every directory of the source exists,
    [sync_directories] creates nothing and says so. *)
Lemma sync_directories_noop (src dst : path) (w : world) :
  (∀ rel, dir_under (files w) src rel → path_exists (files w) (dst ++ rel) = true) →
  sync_directories src dst w
  = (Ok tt, World (files w) (clock w) (trace w ++ [Walk src; Log INFO MsgNoNewDir])).
Proof.
  intros Hall. unfold sync_directories.
  rewrite (bind_ok _ _ _ _ _ (scan_directories_run src w)).
  set (w1 := World (files w) (clock w) (trace w ++ [Walk src])).
  match goal with |- context [for_fold _ ?b 0] => set (body := b) end.
  assert (∀ l c, (∀ a rel, (a, rel) ∈ l → dir_under (files w) src rel) →
                 for_fold l body c w1 = (Ok c, w1)) as Hloop.
  { induction l as [|[a rel] l IH]; intros c Hl; [done|].
    cbn [for_fold]. erewrite bind_ok; [apply IH|].
    - intros a' rel' Hin. apply (Hl a'). by right.
    - unfold body. erewrite bind_ok by (unfold gets; reflexivity).
      simpl. rewrite Hall; [done|]. apply (Hl a). by left. }
  erewrite bind_ok.
  2: { apply Hloop. by intros a rel [_ ?]%elem_of_dir_listing. }
  simpl. unfold log, emit. simpl. by rewrite <- app_assoc.
Qed.

(** X17: after a call of [sync_directories] that returns normally, on
    folders neither of which lies in the other, the mirror image of every
    directory of the source exists, and a second call creates nothing: it
    walks the source, logs that there is no new directory and leaves the
    file system as it is. *)
Theorem sync_directories_twice (src dst : path) (w w1 : world) :
  separate src dst →
  sync_directories src dst w = (Ok tt, w1) →
  (∀ rel, dir_under (files w) src rel → path_exists (files w1) (dst ++ rel) = true) ∧
  (∀ q m d, files w1 !! q = Some (File m d) ↔ files w !! q = Some (File m d)) ∧
  sync_directories src dst w1
  = (Ok tt, World (files w1) (clock w1) (trace w1 ++ [Walk src; Log INFO MsgNoNewDir])).
Proof.
  intros Hsep Hrun.
  apply sync_directories_effect in Hrun as ((_ & _ & Hadd & _) & Hex & _).
  specialize (Hex eq_refl).
  assert (agree_below src (files w) (files w1)) as Hagree.
  { apply (mirrored_agree _ _ _ dst Hsep). eapply dirs_added_weaken; [|exact Hadd].
    intros q (rel & Hrel & Hq). by eapply mirrored_prefix. }
  split; [done|]. split.
  - intros q m d. by apply (dirs_added_file _ _ _ _ _ _ Hadd).
  - apply sync_directories_noop. intros rel Hrel. apply Hex.
    eapply agree_dir_under; [|exact Hrel]. by apply agree_below_sym.
Qed.

(** ** A thread count that is not positive *)

(** X18: with a thread count that is not positive, [sync_folders] still
    makes its plan and creates the directories.  It raises [ValueError] when
    the pool of the first set that is not empty is set up, before any file
    is copied or deleted; when both sets are empty it returns normally. *)
Theorem sync_folders_thread_count (src dst : path) (threads : Z) (w w1 : world)
    (copy_tasks : list (path * path)) (delete_tasks : list path) :
  (threads ≤ 0)%Z →
  sync_plan src dst w = (Ok (copy_tasks, delete_tasks), w1) →
  (copy_tasks ≠ [] →
   sync_folders cpu_count src dst threads w
   = (Raise ValueError, pooled cpu_count copy_tasks w1)) ∧
  (copy_tasks = [] → delete_tasks ≠ [] →
   sync_folders cpu_count src dst threads w
   = (Raise ValueError, World (files w1) (clock w1) (trace w1 ++ [Log INFO MsgNoCopy]))) ∧
  (copy_tasks = [] → delete_tasks = [] →
   sync_folders cpu_count src dst threads w
   = remove_obsolete_directories src dst
       (World (files w1) (clock w1)
          (trace w1 ++ [Log INFO MsgNoCopy; Log INFO MsgNoDelete; Log INFO MsgCheckDirs])) ∧
   (sync_folders cpu_count src dst threads w).1 = Ok tt).
Proof.
  intros Hthr Hplan. unfold sync_folders. rewrite (bind_ok _ _ _ _ _ Hplan). cbv beta iota.
  split_and!.
  - intros Hne. rewrite (bind_raise _ _ _ ValueError (pooled cpu_count copy_tasks w1)); [done|].
    rewrite copy_phase_unfold by done. by destruct (Z.leb_spec threads 0); [|lia].
  - intros -> Hne. erewrite bind_ok by reflexivity.
    erewrite bind_raise; [done|]. unfold delete_phase, thread_pool.
    destruct delete_tasks; [done|]. by destruct (Z.leb_spec threads 0); [|lia].
  - intros -> ->. do 3 (erewrite bind_ok by reflexivity). simpl.
    rewrite <- !app_assoc. simpl. split; [done|].
    destruct (remove_obsolete_directories _ _ _) as [r w'] eqn:Hrod.
    by apply remove_obsolete_directories_effect in Hrod as [-> _].
Qed.

(** ** Few files *)

(** X19: with fewer than 200 files to copy the pool has one worker process,
    which gets all the tasks in one chunk, however many processors there
    are. *)
Theorem make_chunks_few {A} (tasks : list A) :
  0 < length tasks < 200 →
  num_processes cpu_count (Z.of_nat (length tasks)) = 1%Z ∧
  make_chunks cpu_count tasks = [tasks].
Proof.
  intros Hlen.
  assert (num_processes cpu_count (Z.of_nat (length tasks)) = 1%Z) as HN.
  { unfold num_processes.
    assert (Z.of_nat (length tasks) / 100 ≤ 1)%Z
      by (apply Z.lt_succ_r, Z.div_lt_upper_bound; lia).
    lia. }
  split; [done|]. unfold make_chunks, chunk_size, py_range. rewrite HN, Z.div_1_r.
  set (n := Z.of_nat (length tasks)).
  destruct (Z.to_nat (n - 0)) as [|k] eqn:Hk; [lia|]. cbn [range_fuel].
  destruct (Z.ltb_spec 0 n); [|lia].
  assert (range_fuel k (0 + (n + 1)) n (n + 1) = []) as ->.
  { destruct k; [done|]. cbn [range_fuel]. by destruct (Z.ltb_spec (0 + (n + 1)) n); [lia|]. }
  simpl. unfold slice. f_equal. rewrite drop_0. apply take_ge. lia.
Qed.

End Again.

(** ** [sync_worker] *)

Lemma for_each_ext {A} (f g : A → M unit) (l : list A) :
  (∀ x w, f x w = g x w) → ∀ w, for_each l f w = for_each l g w.
Proof.
  intros Hfg. induction l as [|x l IH]; intros w; [done|].
  cbn [for_each]. unfold bind. rewrite Hfg. destruct (g x w) as [[[]|e] w1]; [apply IH|done].
Qed.

Section Worker.
Context `{Hasher}.

Lemma copy_worker_one (dst : path) (t : path * path) (threads : Z) (w : world) :
  (0 < threads)%Z → copy_worker ([t], dst, threads) w = copy_task dst t w.
Proof.
  intros Hthr. rewrite copy_worker_tasks by done. cbn [for_each]. unfold bind.
  destruct t as [a rel]. destruct (copy_task dst (a, rel) w) as [r w'] eqn:Hrun.
  by apply copy_task_within in Hrun as [-> _].
Qed.

(** X20: [sync_worker] with a positive thread count never raises.  With
    the tasks of its pool run one after the other, it does for each task of
    its chunk what [copy_worker] does for that task when [should_copy]
    answers true, and nothing at all, not even a log record, when
    [should_copy] answers false or raises.  With a thread count that is not
    positive it raises [ValueError] and does nothing. *)
Theorem sync_worker_tasks (chunk : list (path * path)) (dst : path) (threads : Z)
    (w : world) :
  ((threads ≤ 0)%Z → sync_worker (chunk, dst, threads) w = (Raise ValueError, w)) ∧
  ((0 < threads)%Z →
   (sync_worker (chunk, dst, threads) w).1 = Ok tt ∧
   sync_worker (chunk, dst, threads) w
   = for_each chunk
       (λ t wc, match should_copy t.1 (dst ++ t.2) wc with
                | (Ok true, _) => copy_worker ([t], dst, threads) wc
                | _ => (Ok tt, wc)
                end) w).
Proof.
  unfold sync_worker, thread_pool. split.
  - intros Hthr. by destruct (Z.leb_spec threads 0); [|lia].
  - intros Hthr. destruct (Z.leb_spec threads 0); [lia|].
    match goal with |- context [for_each chunk ?f w] => set (task := f) end.
    assert (∀ t wc, task t wc
                    = match should_copy t.1 (dst ++ t.2) wc with
                      | (Ok true, _) => copy_worker ([t], dst, threads) wc
                      | _ => (Ok tt, wc)
                      end) as Htask.
    { intros [a rel] wc. rewrite copy_worker_one by done.
      unfold task, submit. cbn [fst snd]. rewrite should_copy_run.
      destruct (verdict (files wc) a (dst ++ rel)) as [[]|e] eqn:Hv.
      - destruct (copy_task dst (a, rel) wc) as [r wc'] eqn:Hrun.
        pose proof (copy_task_within _ _ _ _ _ _ Hrun) as [-> _].
        apply try_except_ok. rewrite (bind_ok _ _ _ true wc); [exact Hrun|].
        by rewrite should_copy_run, Hv.
      - apply try_except_ok. rewrite (bind_ok _ _ _ false wc); [done|].
        by rewrite should_copy_run, Hv.
      - rewrite (try_except_raise _ _ _ e wc); [done|]. apply bind_raise.
        by rewrite should_copy_run, Hv. }
    assert (∀ l wc, (for_each l task wc).1 = Ok tt) as Hok.
    { induction l as [|t l IH]; intros wc; [done|]. cbn [for_each]. unfold bind.
      rewrite Htask. destruct (should_copy t.1 (dst ++ t.2) wc) as [[[]|e] wc1];
        [|apply IH..].
      rewrite copy_worker_one by done. destruct t as [a rel].
      destruct (copy_task dst (a, rel) wc) as [r wc'] eqn:Hrun.
      apply copy_task_within in Hrun as [-> _]. apply IH. }
    split; [apply Hok|]. by apply for_each_ext.
Qed.

End Worker.

(** ** [remove_obsolete_files] *)

Lemma delete_tasks_of_snoc (src_rel_paths : gset path) (l : list (path * path))
    (x : path * path) :
  delete_tasks_of src_rel_paths (l ++ [x])
  = delete_tasks_of src_rel_paths l ++ (if to_delete src_rel_paths x then [x.1] else []).
Proof.
  unfold delete_tasks_of. rewrite List.filter_app, map_app. simpl.
  by destruct (to_delete src_rel_paths x).
Qed.

Section FilesProof.
Variables (msg_system_removed msg_obsolete_removed : path → message).
Variables (msg_system_error msg_obsolete_error : path → exn → message).
Variable msg_files_removed : nat → message.
Variable msg_no_obsolete_file : message.

Abbreviation remove_if_obsolete_file' :=
  (remove_if_obsolete_file msg_system_removed msg_obsolete_removed
     msg_system_error msg_obsolete_error).
Abbreviation remove_obsolete_files' :=
  (remove_obsolete_files msg_system_removed msg_obsolete_removed
     msg_system_error msg_obsolete_error msg_files_removed msg_no_obsolete_file).

(** One guarded deletion: it never raises, and the path is gone unless it
    is a directory. *)
Lemma guarded_delete (p : path) (ok : message) (err : exn → message) (c : nat)
    (w w' : world) (r : result nat) :
  try_except (delete_file p ;; log INFO ok ;; ret (S c))
    (λ e, log ERROR (err e) ;; ret c) w = (r, w') →
  (∃ c', r = Ok c') ∧
  (isdir (files w) p = false → shape_upd (files w) p None (files w')) ∧
  (isdir (files w) p = true → same_shape (files w) (files w')).
Proof.
  unfold delete_file, bind, try_except, gets, remove, ret, log, emit, path_exists, isdir.
  cbv beta. destruct (files w !! p) as [[m d|m]|] eqn:Hp; cbv beta iota; rewrite ?Hp; simpl.
  - intros [= <- <-]. split; [eauto|]. split; [|done]. intros _ q. simpl.
    rewrite shape_at_touch, shape_at_delete. done.
  - intros [= <- <-]. split; [eauto|]. split; [done|]. by intros _ q.
  - intros [= <- <-]. split; [eauto|]. split; [|done]. intros _ q. simpl.
    case_decide as Hq; [|done]. subst q. by apply shape_at_None.
Qed.

Lemma remove_if_obsolete_file_effect (S : gset path) (abs_dst rel : path) (c : nat)
    (w w' : world) (r : result nat) :
  remove_if_obsolete_file' S (abs_dst, rel) c w = (r, w') →
  (∃ c', r = Ok c') ∧
  if to_delete S (abs_dst, rel) && negb (isdir (files w) abs_dst)
  then shape_upd (files w) abs_dst None (files w')
  else same_shape (files w) (files w').
Proof.
  unfold remove_if_obsolete_file, to_delete. cbn [fst snd].
  destruct (should_skip_file (basename rel)); cbn [orb].
  - intros (Hok & Hfile & Hdir)%guarded_delete. split; [done|].
    destruct (isdir (files w) abs_dst); simpl; auto.
  - destruct (bool_decide (rel ∉ S)); cbn [andb].
    + intros (Hok & Hfile & Hdir)%guarded_delete. split; [done|].
      destruct (isdir (files w) abs_dst); simpl; auto.
    + intros [-> ->]%ret_inv. split; [eauto|done].
Qed.

(** X21: [remove_obsolete_files] never raises.  It deletes the files of the
    delete set that [sync_folders] computes from the same two scans, and
    changes nothing else: afterwards every file below the destination has a
    name that is not skipped and the relative path of a file of the source
    that is not skipped. *)
Theorem remove_obsolete_files_effect (src dst : path) (w : world) :
  let delete_tasks :=
    delete_tasks_of (list_to_set (map snd (file_listing (files w) src true)))
      (file_listing (files w) dst false) in
  let w' := (remove_obsolete_files' src dst w).2 in
  (remove_obsolete_files' src dst w).1 = Ok tt ∧
  (∀ q, shape_at (files w') q
        = if bool_decide (q ∈ delete_tasks) then None else shape_at (files w) q) ∧
  (∀ rel, file_under (files w') dst rel →
          should_skip_file (basename rel) = false ∧
          (src ++ rel, rel) ∈ file_listing (files w) src true).
Proof.
  intros delete_tasks w'.
  set (S := list_to_set (map snd (file_listing (files w) src true)) : gset path) in *.
  set (L := file_listing (files w) dst false) in *.
  set (w1 := World (files w) (clock w) ((trace w ++ [Walk src]) ++ [Walk dst])).
  set (Inv := λ (done : list (path * path)) (_ : nat) (wc : world),
         ∀ q, shape_at (files wc) q
              = if bool_decide (q ∈ delete_tasks_of S done) then None
                else shape_at (files w) q).
  assert (hoare (Inv [] 0) (for_fold L (remove_if_obsolete_file' S) 0)
            (λ r wc, match r with Ok c => Inv L c wc | Raise e => False end)) as Hloop.
  { apply (hoare_for_fold L (remove_if_obsolete_file' S) Inv (λ _ _, False)).
    intros done [abs rel] rest c HL. apply hoare_intro. intros wc r wc' Hinv Hrun.
    apply remove_if_obsolete_file_effect in Hrun as [[c' ->] Hstep].
    assert (isdir (files w) abs = false) as Hnd.
    { assert ((abs, rel) ∈ L) as Hin by (rewrite HL; apply elem_of_app; right; by left).
      by apply elem_of_file_listing in Hin as (-> & (_ & _ & _ & ?) & _). }
    assert (isdir (files wc) abs = false) as Hndc.
    { apply eq_true_iff_eq. rewrite isdir_shape, Hinv. case_bool_decide; [done|].
      by rewrite <- isdir_shape, Hnd. }
    rewrite Hndc, andb_true_r in Hstep.
    intros q. rewrite delete_tasks_of_snoc. simpl.
    destruct (to_delete S (abs, rel)).
    - rewrite Hstep. case_decide as Hq.
      + subst q. rewrite bool_decide_eq_true_2; [done|]. apply elem_of_app. right. by left.
      + rewrite Hinv.
        rewrite (bool_decide_ext (q ∈ delete_tasks_of S done ++ [abs])
                   (q ∈ delete_tasks_of S done)); [done|].
        rewrite elem_of_app, list_elem_of_singleton. tauto.
    - rewrite Hstep, Hinv, app_nil_r. done. }
  assert (Inv [] 0 w1) as Hinit.
  { intros q. rewrite bool_decide_eq_false_2; [done|]. intros Hq. by apply elem_of_nil in Hq. }
  destruct (remove_obsolete_files' src dst w) as [r wf'] eqn:Hrun. subst w'. simpl.
  unfold remove_obsolete_files in Hrun.
  rewrite (bind_ok _ _ _ _ _ (scan_files_run src true w)) in Hrun. cbv zeta in Hrun.
  rewrite (bind_ok _ _ _ _ _ (scan_files_run dst false _)) in Hrun.
  simpl in Hrun. fold S L w1 in Hrun.
  apply bind_inv in Hrun as [(c & w2 & Hfold & Hlog)|(e & Hfold & ->)];
    pose proof (hoare_elim _ _ _ _ _ _ Hloop Hinit Hfold) as Hpost; [|done].
  simpl in Hpost.
  assert (r = Ok tt ∧ files wf' = files w2) as [-> Hfiles]
    by (destruct (0 <? c); by apply emit_inv in Hlog as [-> ->]).
  rewrite Hfiles. split; [done|]. split; [exact Hpost|].
  intros rel (Hne & Hreach & Hsome & Hnd).
  assert (∀ q, isdir (files w2) q = true → isdir (files w) q = true) as Hdirs.
  { intros q Hq. apply isdir_shape in Hq. rewrite Hpost in Hq.
    case_bool_decide; [done|]. by apply isdir_shape. }
  assert (file_under (files w) dst rel) as Hfu.
  { split; [done|]. split; [by intros q' Hq'; apply Hdirs, Hreach|].
    pose proof (Hpost (dst ++ rel)) as Hs. case_bool_decide.
    - apply shape_at_None in Hs. destruct Hsome. congruence.
    - split.
      + apply path_exists_true, path_exists_shape. rewrite <- Hs.
        by apply path_exists_shape, path_exists_true.
      + rewrite <- Hnd. apply eq_true_iff_eq. by rewrite !isdir_shape, Hs. }
  assert (dst ++ rel ∉ delete_tasks) as Hkeep.
  { intros Hin. pose proof (Hpost (dst ++ rel)) as Hs.
    rewrite bool_decide_eq_true_2 in Hs by done.
    apply shape_at_None in Hs. destruct Hsome. congruence. }
  destruct (should_skip_file (basename rel)) eqn:Hskip.
  { destruct Hkeep. apply elem_of_delete_tasks. exists rel. split; [|by left].
    apply elem_of_file_listing. done. }
  split; [done|].
  destruct (decide (rel ∈ S)) as [[a Ha]%elem_of_src_rel_paths|Hno].
  - pose proof Ha as (-> & _)%elem_of_file_listing. done.
  - destruct Hkeep. apply elem_of_delete_tasks. exists rel. split; [|by right].
    apply elem_of_file_listing. done.
Qed.

End FilesProof.

(** ** Every copy task is accounted for *)

Lemma filter_no_log (t : list event) :
  Forall (λ ev, is_log ev = false) t → List.filter is_log t = [].
Proof. intros Hall. apply filter_nil_forall. by apply Forall_forall. Qed.

Section Account.
Context `{Hasher}.
Variable cpu_count : positive.

Lemma copy_task_record (dst : path) (t : path * path) (w w' : world) (r : result unit) :
  copy_task dst t w = (r, w') →
  ∃ events outcome,
    trace w' = trace w ++ events ++ [copy_record t outcome] ∧
    Forall (λ ev, is_log ev = false) events.
Proof.
  destruct t as [a rel]. intros Hrun. unfold copy_task, copy_file in Hrun.
  destruct (makedirs_step (λ ev, is_log ev = false) (λ _, True)
              (parent (dst ++ rel)) w) as [(_ & (tm & Htm & Hall) & _) _]; [done..|].
  assert (∀ w1 r2 w2, copy2 a (dst ++ rel) w1 = (r2, w2) →
            ∃ tc, trace w2 = trace w1 ++ tc ∧ Forall (λ ev, is_log ev = false) tc) as Hcp.
  { intros w1 r2 w2
      [(_ & _ & _ & _ & _ & _ & Ht)|[(_ & _ & _ & _ & _ & Ht)|(? & _ & ->)]]%copy2_inv.
    - eexists. split; [exact Ht|]. by repeat constructor.
    - eexists. split; [exact Ht|]. by repeat constructor.
    - exists []. by rewrite app_nil_r. }
  apply try_except_inv in Hrun as [([] & Hrun & ->)|(e & w1 & Hrun & [-> ->]%emit_inv)].
  - apply bind_inv in Hrun as [([] & w2 & Hrun & [_ ->]%emit_inv)|(? & ? & [=])].
    apply bind_inv in Hrun as [([] & w1 & Hmk & Hcopy)|(? & ? & [=])].
    rewrite Hmk in Htm. simpl in Htm. destruct (Hcp _ _ _ Hcopy) as (tc & Htc & Hallc).
    exists (tm ++ tc), None. simpl. split.
    + by rewrite Htc, Htm, <- !app_assoc.
    + by apply Forall_app.
  - simpl.
    apply bind_inv in Hrun as [([] & w2 & Hrun & [[=] _]%emit_inv)|(e' & Hrun & _)].
    apply bind_inv in Hrun as [([] & w2 & Hmk & Hcopy)|(e'' & Hmk & _)].
    + rewrite Hmk in Htm. simpl in Htm. destruct (Hcp _ _ _ Hcopy) as (tc & Htc & Hallc).
      exists (tm ++ tc), (Some e). simpl. split.
      * by rewrite Htc, Htm, <- !app_assoc.
      * by apply Forall_app.
    + rewrite Hmk in Htm. simpl in Htm. exists tm, (Some e). simpl. split; [|done].
      by rewrite Htm, <- !app_assoc.
Qed.

Lemma copy_loop_records (copy_tasks : list (path * path)) (dst : path) (w0 : world) :
  hoare (λ w, w = w0)
    (for_each copy_tasks (copy_task dst))
    (λ r w, r = Ok tt ∧
            ∃ events outcomes,
              trace w = trace w0 ++ events ∧ length outcomes = length copy_tasks ∧
              List.filter is_log events = zip_with copy_record copy_tasks outcomes).
Proof.
  set (Inv := λ (done : list (path * path)) (w : world),
         ∃ events outcomes,
           trace w = trace w0 ++ events ∧ length outcomes = length done ∧
           List.filter is_log events = zip_with copy_record done outcomes).
  eapply hoare_conseq;
    [apply (hoare_for_each copy_tasks (copy_task dst) Inv (λ _ _, False))| |].
  - intros done t rest _. apply hoare_intro.
    intros w r w' (events & outcomes & Ht & Hlen & Hlogs) Hrun.
    pose proof Hrun as (new & outcome & Hnew & Hall)%copy_task_record.
    destruct t as [a rel]. apply copy_task_within in Hrun as [-> _].
    exists (events ++ new ++ [copy_record (a, rel) outcome]), (outcomes ++ [outcome]).
    split_and!.
    + by rewrite Hnew, Ht, <- !app_assoc.
    + rewrite !length_app. simpl. lia.
    + rewrite !List.filter_app, (filter_no_log new), Hlogs by done.
      rewrite zip_with_app by done. simpl. by destruct outcome.
  - intros w ->. exists [], []. by rewrite app_nil_r.
  - intros [[]|e] w; [|done]. by intros H0.
Qed.

(** X22: with a positive thread count the copy phase returns normally
    whatever happens to its tasks: between the start of the pool and the
    record that the phase is done, its log has one record for each task of
    the copy set, either that the file was copied or that the copy failed,
    with the source path and the cause.  A failure stops neither the other
    tasks nor the run. *)
Theorem copy_phase_accounts (copy_tasks : list (path * path)) (dst : path) (threads : Z)
    (w : world) :
  (0 < threads)%Z → copy_tasks ≠ [] →
  (copy_phase cpu_count copy_tasks dst threads w).1 = Ok tt ∧
  ∃ events outcomes,
    trace (copy_phase cpu_count copy_tasks dst threads w).2
    = trace w ++ [Pool (num_processes cpu_count (Z.of_nat (length copy_tasks)))]
              ++ events ++ [Log INFO MsgCopyDone] ∧
    length outcomes = length copy_tasks ∧
    List.filter is_log events ≡ₚ zip_with copy_record copy_tasks outcomes.
Proof.
  intros Hthr Hne. rewrite copy_phase_unfold by done.
  destruct (Z.leb_spec threads 0); [lia|].
  destruct (for_each copy_tasks (copy_task dst) (pooled cpu_count copy_tasks w))
    as [r w1] eqn:Hloop.
  pose proof (hoare_elim _ _ _ _ _ _ (copy_loop_records copy_tasks dst _) eq_refl Hloop)
    as (-> & events & outcomes & Ht & Hlen & Hlogs).
  rewrite (bind_ok _ _ _ _ _ Hloop). simpl. split; [done|].
  exists events, outcomes. split_and!; [|done|by rewrite Hlogs].
  rewrite Ht. simpl. by rewrite <- !app_assoc.
Qed.

(** X23: the copy set of a plan is the list of the files of the source
    whose name is not skipped and for which [should_copy] answers true
    against the file of the same relative path below the destination, in the
    order of the scan. *)
Theorem sync_plan_copy_set (src dst : path) (w w' : world)
    (copy_tasks : list (path * path)) (delete_tasks : list path) :
  sync_plan src dst w = (Ok (copy_tasks, delete_tasks), w') →
  (∃ src_files,
     scan_files src true w'
     = (Ok src_files, World (files w') (clock w') (trace w' ++ [Walk src])) ∧
     copy_tasks
     = List.filter (λ t, match (should_copy t.1 (dst ++ t.2) w').1 with
                         | Ok true => true
                         | _ => false
                         end) src_files) ∧
  (∀ abs_src rel,
     (abs_src, rel) ∈ copy_tasks ↔
     abs_src = src ++ rel ∧ file_under (files w') src rel ∧
     should_skip_file (basename rel) = false ∧
     should_copy abs_src (dst ++ rel) w' = (Ok true, w')).
Proof.
  intros (_ & -> & _)%sync_plan_sets.
  assert (∀ t, wanted (files w') dst t
               = match (should_copy t.1 (dst ++ t.2) w').1 with
                 | Ok true => true
                 | _ => false
                 end) as Hw by (intros t; by rewrite should_copy_run).
  split.
  - exists (file_listing (files w') src true). split; [apply scan_files_run|].
    apply filter_ext. intros t. apply Hw.
  - intros a rel. rewrite elem_of_bool_filter, elem_of_file_listing.
    rewrite should_copy_run. unfold wanted. simpl. split.
    + intros [(-> & Hfu & Hskip) Hv].
      destruct (verdict (files w') (src ++ rel) (dst ++ rel)) as [[]|]; [auto|done..].
    + intros (-> & Hfu & Hskip & [= Hv]). by rewrite Hv.
Qed.

End Account.

(** ** Every delete task is accounted for *)

Lemma delete_file_safe_record (p : path) (w : world) :
  (delete_file_safe p w).1 = Ok tt ∧
  ∃ events outcome,
    trace (delete_file_safe p w).2 = trace w ++ events ++ [delete_record p outcome] ∧
    Forall (λ ev, is_log ev = false) events.
Proof.
  unfold delete_file_safe, try_except, delete_file, bind, gets, remove, ret, log, emit,
    path_exists.
  cbv beta. destruct (files w !! p) as [[m d|m]|] eqn:Hp; cbv beta iota; rewrite ?Hp; simpl.
  - split; [done|]. exists [Remove p], None. simpl. split; [by rewrite <- app_assoc|].
    by repeat constructor.
  - split; [done|]. by exists [], (Some IsADirectoryError).
  - split; [done|]. by exists [], None.
Qed.

Lemma delete_loop_records (delete_tasks : list path) (w0 : world) :
  hoare (λ w, w = w0)
    (for_each delete_tasks delete_file_safe)
    (λ r w, r = Ok tt ∧
            ∃ events outcomes,
              trace w = trace w0 ++ events ∧ length outcomes = length delete_tasks ∧
              List.filter is_log events = zip_with delete_record delete_tasks outcomes).
Proof.
  set (Inv := λ (done : list path) (w : world),
         ∃ events outcomes,
           trace w = trace w0 ++ events ∧ length outcomes = length done ∧
           List.filter is_log events = zip_with delete_record done outcomes).
  eapply hoare_conseq;
    [apply (hoare_for_each delete_tasks delete_file_safe Inv (λ _ _, False))| |].
  - intros done p rest _. apply hoare_intro.
    intros w r w' (events & outcomes & Ht & Hlen & Hlogs) Hrun.
    destruct (delete_file_safe_record p w) as (Hok & new & outcome & Hnew & Hall).
    rewrite Hrun in Hok, Hnew. simpl in Hok, Hnew. subst r.
    exists (events ++ new ++ [delete_record p outcome]), (outcomes ++ [outcome]).
    split_and!.
    + by rewrite Hnew, Ht, <- !app_assoc.
    + rewrite !length_app. simpl. lia.
    + rewrite !List.filter_app, (filter_no_log new), Hlogs by done.
      rewrite zip_with_app by done. simpl. by destruct outcome.
  - intros w ->. exists [], []. by rewrite app_nil_r.
  - intros [[]|e] w; [|done]. by intros H0.
Qed.

(** X25: with a positive thread count the delete phase returns normally
    whatever happens to its tasks: before the record that the phase is
    done, its log has one record for each path of the delete set, either
    that the path was removed or that its removal failed, with the path and
    the cause. *)
Theorem delete_phase_accounts (delete_tasks : list path) (threads : Z) (w : world) :
  (0 < threads)%Z → delete_tasks ≠ [] →
  (delete_phase delete_tasks threads w).1 = Ok tt ∧
  ∃ events outcomes,
    trace (delete_phase delete_tasks threads w).2
    = trace w ++ events ++ [Log INFO MsgDeleteDone] ∧
    length outcomes = length delete_tasks ∧
    List.filter is_log events ≡ₚ zip_with delete_record delete_tasks outcomes.
Proof.
  intros Hthr Hne. unfold delete_phase, thread_pool.
  destruct delete_tasks as [|p0 tasks] eqn:Htasks; [done|]. rewrite <- Htasks. clear Htasks Hne.
  destruct (Z.leb_spec threads 0); [lia|].
  destruct (for_each delete_tasks delete_file_safe w) as [r w1] eqn:Hloop.
  pose proof (hoare_elim _ _ _ _ _ _ (delete_loop_records delete_tasks w) eq_refl Hloop)
    as (-> & events & outcomes & Ht & Hlen & Hlogs).
  rewrite (bind_ok _ _ _ _ _ Hloop). simpl. split; [done|].
  exists events, outcomes. split_and!; [|done|by rewrite Hlogs].
  rewrite Ht. by rewrite <- !app_assoc.
Qed.

Lemma delete_phase_accounts_witness :
  (delete_phase example_delete_tasks 4 example_plan.2).1 = Ok tt.
Proof.
  apply (delete_phase_accounts example_delete_tasks 4 example_plan.2).
  - lia.
  - vm_compute. discriminate.
Defined.

(** ** What a run keeps *)

Lemma keeps_refl (fs fs' : gmap path entry) : same_shape fs fs' → keeps fs fs'.
Proof.
  intros Hs q. split; [by rewrite (same_shape_isdir _ _ _ Hs)|].
  intros m d Hf. exists m, d. apply shape_at_File. rewrite Hs. by apply shape_at_File.
Qed.

Lemma keeps_trans (fs1 fs2 fs3 : gmap path entry) :
  keeps fs1 fs2 → keeps fs2 fs3 → keeps fs1 fs3.
Proof.
  intros H12 H23 q. destruct (H12 q) as [Hd Hf], (H23 q) as [Hd' Hf'].
  split; [auto|]. intros m d (m' & d' & Hq)%Hf. by eapply Hf'.
Qed.

Lemma keeps_upd_file (fs fs' : gmap path entry) (p : path) m d :
  isdir fs p = false → shape_upd fs p (Some (File m d)) fs' → keeps fs fs'.
Proof.
  intros Hnd Hupd q. destruct (decide (q = p)) as [->|Hne].
  - pose proof (shape_upd_same _ _ _ _ Hupd) as Hp. apply shape_at_File in Hp.
    split; [|eauto]. by rewrite Hnd.
  - pose proof (shape_upd_other _ _ _ _ _ Hupd Hne) as Hs. split.
    + by rewrite !isdir_shape, Hs.
    + intros m' d' Hf. exists m', d'. apply shape_at_File. rewrite Hs. by apply shape_at_File.
Qed.

Lemma keeps_dirs_added (L : path → Prop) (fs fs' : gmap path entry) :
  dirs_added L fs fs' → keeps fs fs'.
Proof.
  intros Hadd q. split; [by apply (dirs_added_isdir _ _ _ _ Hadd)|].
  intros m d Hf. exists m, d. by apply (dirs_added_file _ _ _ _ _ _ Hadd).
Qed.

Lemma within_agree (src dst : path) (fs fs' : gmap path entry) :
  separate src dst → within dst fs fs' → agree_below src fs fs'.
Proof.
  intros Hsep Hin x. destruct (Hin (src ++ x)) as [?|[Hd|(Hp & _)]]; [done| |].
  - destruct Hsep as [Hsd Hds]. destruct Hd as [k Hk].
    destruct (prefix_weak_total src dst (src ++ x)) as [?|?];
      [by apply prefix_app_r|by exists k|done..].
  - by apply (separate_above _ _ _ x Hsep) in Hp.
Qed.

Section Keeping.
Context `{Hasher}.
Variable cpu_count : positive.

Lemma copy_phase_keeps (copy_tasks : list (path * path)) (dst : path) (threads : Z)
    (w w' : world) (r : result unit) :
  copy_phase cpu_count copy_tasks dst threads w = (r, w') →
  wf (files w) →
  (∀ a rel, (a, rel) ∈ copy_tasks → path_exists (files w) (parent (dst ++ rel)) = true) →
  keeps (files w) (files w').
Proof.
  intros Hrun Hwf Hpar. destruct (decide (copy_tasks = [])) as [->|Hne].
  { apply emit_inv in Hrun as [_ ->]. by apply keeps_refl. }
  rewrite copy_phase_unfold in Hrun by done.
  destruct (threads <=? 0)%Z; [injection Hrun as _ <-; by apply keeps_refl|].
  set (Inv := λ (_ : list (path * path)) (wc : world),
         wf (files wc) ∧ keeps (files w) (files wc) ∧
         ∀ a rel, (a, rel) ∈ copy_tasks →
                  path_exists (files wc) (parent (dst ++ rel)) = true).
  assert (hoare (Inv []) (for_each copy_tasks (copy_task dst))
            (λ r wc, match r with Ok _ => Inv copy_tasks wc | Raise _ => False end))
    as Hloop.
  { apply (hoare_for_each copy_tasks (copy_task dst) Inv (λ _ _, False)).
    intros done [a rel] rest Hl. apply hoare_intro.
    intros wc rc wc' (Hwfc & Hkeep & Hparc) Hstep.
    assert ((a, rel) ∈ copy_tasks) as Hin
      by (rewrite Hl; apply elem_of_app; right; by left).
    apply copy_task_effect in Hstep as (-> & _ & _ & Hwf' & Hout & _);
      [|done|by eapply Hparc].
    split; [done|]. split.
    - eapply keeps_trans; [exact Hkeep|].
      destruct Hout as [Hsame|(q & m & d & _ & Hnd & Hupd)];
        [by apply keeps_refl|by eapply keeps_upd_file].
    - intros a' rel' Hin'. specialize (Hparc a' rel' Hin').
      apply path_exists_shape. apply path_exists_shape in Hparc.
      destruct Hout as [Hsame|(q & m & d & _ & _ & Hupd)].
      + by rewrite Hsame.
      + rewrite Hupd. by case_decide. }
  assert (Inv [] (pooled cpu_count copy_tasks w)) as Hinit
    by (split_and!; [done|by apply keeps_refl|done]).
  apply bind_inv in Hrun as [([] & w1 & Hrun & [_ ->]%emit_inv)|(e & Hrun & _)];
    pose proof (hoare_elim _ _ _ _ _ _ Hloop Hinit Hrun) as Hpost; [|done].
  by destruct Hpost as (_ & ? & _).
Qed.

(** X26: [remove_obsolete_directories] never touches a file and never
    removes a directory that has a file in it or below it: on a file system
    that is a tree, every file is after the call what it was before, and
    every directory on the way to a file is still there; whatever it removes
    is a directory of the destination that the source does not have. *)
Theorem remove_obsolete_directories_keeps_files (src dst : path) (w w' : world)
    (r : result unit) :
  wf (files w) →
  remove_obsolete_directories src dst w = (r, w') →
  (∀ q m d, files w !! q = Some (File m d) →
            files w' !! q = Some (File m d) ∧
            ∀ p, p `prefix_of` q → p ≠ q → isdir (files w') p = true) ∧
  (∀ q, is_Some (files w !! q) → files w' !! q = None →
        ∃ rel, q = dst ++ rel ∧ isdir (files w) q = true ∧
               dir_under (files w) dst rel ∧ ¬ dir_under (files w) src rel).
Proof.
  intros Hwf (_ & (_ & _ & Hrem & Hwf') & _)%remove_obsolete_directories_effect.
  specialize (Hwf' Hwf). split.
  - intros q m d Hq.
    assert (files w' !! q = Some (File m d)) as Hq'.
    { destruct (Hrem q) as [Hs|(_ & _ & Hd & _)].
      - apply shape_at_File. rewrite Hs. by apply shape_at_File.
      - unfold isdir in Hd. by rewrite Hq in Hd. }
    split; [done|]. intros p [k ->] Hne.
    apply (wf_prefix_isdir _ p k); [done| |].
    + apply path_exists_true. by rewrite Hq'.
    + intros ->. by rewrite app_nil_r in Hne.
  - intros q Hsome Hnone. destruct (Hrem q) as [Hs|((rel & -> & Hd & Hno) & _ & Hdir & _)].
    + apply shape_at_None in Hnone. rewrite Hs in Hnone. apply shape_at_None in Hnone.
      destruct Hsome. congruence.
    + by exists rel.
Qed.

(** X27: on a file system that is a tree, with neither folder inside the
    other, a run of [sync_folders] never takes away what the source still
    has, whatever its result: a file of the destination at the relative
    path of a file of the source that is not skipped is still a file after
    the run, and a directory of the destination at the relative path of a
    directory of the source is still a directory. *)
Theorem sync_folders_keeps_matched (src dst : path) (threads : Z) (w w' : world)
    (r : result unit) :
  wf (files w) → separate src dst →
  sync_folders cpu_count src dst threads w = (r, w') →
  (∀ rel, file_under (files w) dst rel → file_under (files w) src rel →
          should_skip_file (basename rel) = false →
          ∃ m d, files w' !! (dst ++ rel) = Some (File m d)) ∧
  (∀ rel, dir_under (files w) src rel → isdir (files w) (dst ++ rel) = true →
          isdir (files w') (dst ++ rel) = true).
Proof.
  intros Hwf Hsep Hrun.
  set (matched := λ (fs : gmap path entry) (rel : path),
         (∃ m d, fs !! (dst ++ rel) = Some (File m d)) ∧ file_under fs src rel ∧
         should_skip_file (basename rel) = false).
  set (paired := λ (fs : gmap path entry) (rel : path),
         isdir fs (dst ++ rel) = true ∧ dir_under fs src rel).
  cut (∀ rel, (matched (files w) rel → ∃ m d, files w' !! (dst ++ rel) = Some (File m d)) ∧
              (paired (files w) rel → isdir (files w') (dst ++ rel) = true)).
  { intros Hcut. split; intros rel.
    - intros Hfd%file_under_File Hfs Hskip. by apply (Hcut rel).
    - intros Hds Hd. by apply (Hcut rel). }
  assert (∀ fs', keeps (files w) fs' →
            ∀ rel, (matched (files w) rel → ∃ m d, fs' !! (dst ++ rel) = Some (File m d)) ∧
                   (paired (files w) rel → isdir fs' (dst ++ rel) = true)) as Hkept.
  { intros fs' Hk rel. split.
    - intros [(m & d & Hf) _]. by eapply Hk.
    - intros [Hd _]. by apply Hk. }
  apply sync_folders_inv in Hrun
    as [(e & Hplan & _)|(copy_tasks & delete_tasks & w1 & Hplan & Hrest)];
    pose proof (sync_plan_grows _ _ _ _ _ Hplan) as (_ & _ & Hadd & Hwf1);
    specialize (Hwf1 Hwf);
    pose proof (sync_plan_within _ _ _ _ _ Hplan) as Hin1;
    pose proof (keeps_dirs_added _ _ _ Hadd) as Hk1; [by apply Hkept|].
  pose proof (sync_plan_parents _ _ _ _ _ _ Hwf Hplan) as Hpar.
  destruct Hrest as [(e & Hcopy & _)|(w2 & Hcopy & Hrest)];
    pose proof (copy_phase_keeps _ _ _ _ _ _ Hcopy Hwf1 Hpar) as Hk2;
    [apply Hkept; by eapply keeps_trans|].
  assert (keeps (files w) (files w2)) as Hk12 by by eapply keeps_trans.
  assert (within dst (files w) (files w2)) as Hin12
    by (eapply within_trans; [exact Hin1|by eapply copy_phase_within]).
  assert (agree_below src (files w) (files w1)) as Hag1 by by apply (within_agree src dst).
  (* the delete phase *)
  assert (∀ w3 r3, delete_phase delete_tasks threads w2 = (r3, w3) →
            within dst (files w) (files w3) ∧
            ∀ rel, (matched (files w) rel →
                    ∃ m d, files w3 !! (dst ++ rel) = Some (File m d)) ∧
                   (paired (files w) rel → isdir (files w3) (dst ++ rel) = true))
    as Hdelete.
  { intros w3 r3 [(_ & _ & Hrem & _) _]%delete_phase_effect. split.
    { eapply within_trans; [exact Hin12|]. eapply within_removed; [|exact Hrem].
      intros q (rel & -> & _)%(delete_tasks_below _ _ _ _ _ _ Hplan).
      by apply prefix_app_r. }
    intros rel. destruct (Hkept _ Hk12 rel) as [Hf Hd]. split.
    - intros Hm. destruct (Hf Hm) as (m & d & Hq). exists m, d.
      destruct (Hrem (dst ++ rel)) as [Hs|(Hin & _)].
      { apply shape_at_File. rewrite Hs. by apply shape_at_File. }
      exfalso. destruct Hm as (_ & Hfs & Hskip).
      apply sync_plan_sets in Hplan as (_ & _ & ->).
      apply elem_of_delete_tasks in Hin
        as (rel' & (<-%app_inv_head & _ & _)%elem_of_file_listing & [Hs|Hno]);
        [congruence|].
      apply Hno, elem_of_src_rel_paths. exists (src ++ rel).
      apply elem_of_file_listing. split; [done|]. split; [|done].
      by apply (agree_file_under _ _ _ _ Hag1).
    - intros Hp. specialize (Hd Hp).
      destruct (Hrem (dst ++ rel)) as [Hs|(_ & _ & Hnd & _)]; [|congruence].
      apply isdir_shape. rewrite Hs. by apply isdir_shape. }
  destruct Hrest as [(e & Hdel & _)|(w3 & Hdel & Hrod)]; [by eapply Hdelete|].
  destruct (Hdelete _ _ Hdel) as [Hin3 Hkeep3].
  apply remove_obsolete_directories_effect in Hrod as (_ & (_ & _ & Hrem & _) & _).
  simpl in Hrem. intros rel. destruct (Hkeep3 rel) as [Hf Hd]. split.
  - intros Hm. destruct (Hf Hm) as (m & d & Hq). exists m, d.
    destruct (Hrem (dst ++ rel)) as [Hs|(_ & _ & Hdir & _)].
    + apply shape_at_File. rewrite Hs. by apply shape_at_File.
    + unfold isdir in Hdir. by rewrite Hq in Hdir.
  - intros Hp. specialize (Hd Hp).
    destruct (Hrem (dst ++ rel)) as [Hs|((rel' & <-%app_inv_head & _ & Hno) & _)].
    + apply isdir_shape. rewrite Hs. by apply isdir_shape.
    + exfalso. apply Hno. destruct Hp as [_ Hds].
      apply (agree_dir_under _ (files w)); [|done]. by apply (within_agree src dst).
Qed.

End Keeping.

(** ** The theorems at work *)

Lemma sync_folders_changes_destination_only_witness :
  shape_at (files (sync_folders 4 ["src"] ["dst"] 4 example_world).2) (["src"] ++ ["a.txt"])
  = shape_at (files example_world) (["src"] ++ ["a.txt"]).
Proof.
  assert (sync_folders 4 ["src"] ["dst"] 4 example_world
          = (Ok tt, (sync_folders 4 ["src"] ["dst"] 4 example_world).2)) as Hrun
    by (vm_compute; reflexivity).
  destruct (sync_folders_changes_destination_only 4 ["src"] ["dst"] 4 example_world
              _ (Ok tt) Hrun) as [_ Hsrc].
  apply Hsrc. split; intros [k Hk]; discriminate.
Defined.

Lemma sync_folders_mirrors_directories_witness :
  ∃ w', sync_folders 4 ["src"] ["dst"] 4 example_world = (Ok tt, w') ∧
        isdir (files w') ["dst"] = true ∧
        ∀ rel, rel ≠ [] →
               isdir (files w') (["dst"] ++ rel) = true
               ↔ dir_under (files example_world) ["src"] rel.
Proof.
  apply (sync_folders_mirrors_directories 4 ["src"] ["dst"] 4 example_world).
  - apply compatible_check_correct. vm_compute. reflexivity.
  - lia.
Defined.

Lemma sync_folders_copies_files_witness :
  ∃ w', sync_folders 4 ["src"] ["dst"] 4 example_world = (Ok tt, w') ∧
        ∀ rel, file_under (files example_world) ["src"] rel →
               should_skip_file (basename rel) = false →
          ∃ (answer : bool) m d,
            should_copy (["src"] ++ rel) (["dst"] ++ rel) example_world
            = (Ok answer, example_world) ∧
            files example_world !! (if answer then ["src"] ++ rel else ["dst"] ++ rel)
            = Some (File m d) ∧
            files w' !! (["dst"] ++ rel) = Some (File m d).
Proof.
  apply (sync_folders_copies_files 4 ["src"] ["dst"] 4 example_world).
  - apply compatible_check_correct. vm_compute. reflexivity.
  - lia.
Defined.

Lemma sync_folders_purges_witness :
  ∃ w', sync_folders 4 ["src"] ["dst"] 4 example_world = (Ok tt, w') ∧
        ∀ rel m d, files w' !! (["dst"] ++ rel) = Some (File m d) →
                   file_under (files example_world) ["src"] rel ∧
                   should_skip_file (basename rel) = false.
Proof.
  apply (sync_folders_purges 4 ["src"] ["dst"] 4 example_world).
  - apply compatible_check_correct. vm_compute. reflexivity.
  - lia.
Defined.

Lemma sync_folders_file_source_witness :
  ∃ w', sync_folders 4 ["src"] ["dst"] 4 file_source_world = (Ok tt, w') ∧
        isdir (files w') ["dst"] = true ∧
        ∀ rel, rel ≠ [] → files w' !! (["dst"] ++ rel) = None.
Proof.
  apply (sync_folders_file_source 4 ["src"] ["dst"] 4 file_source_world).
  - apply compatible_check_correct. vm_compute. reflexivity.
  - lia.
  - vm_compute. reflexivity.
Defined.

Lemma sync_twice_unchanged_witness :
  ∃ w1 w2, sync_folders 4 ["src"] ["dst"] 4 example_world = (Ok tt, w1) ∧
           sync_folders 4 ["src"] ["dst"] 0 w1 = (Ok tt, w2) ∧
           ∀ q, shape_at (files w2) q = shape_at (files w1) q.
Proof.
  apply (sync_twice_unchanged 4 ["src"] ["dst"] 4 0 example_world).
  - apply compatible_check_correct. vm_compute. reflexivity.
  - lia.
Defined.

Lemma sync_folders_raises_early_witness :
  sync_plan ["src"] ["dst"] blocked_world
  = (Raise IsADirectoryError, (sync_folders 4 ["src"] ["dst"] 4 blocked_world).2) ∧
  shape_at (files (sync_folders 4 ["src"] ["dst"] 4 blocked_world).2) ["dst"; "a"]
  = shape_at (files blocked_world) ["dst"; "a"].
Proof.
  assert (sync_folders 4 ["src"] ["dst"] 4 blocked_world
          = (Raise IsADirectoryError, (sync_folders 4 ["src"] ["dst"] 4 blocked_world).2))
    as Hrun by (vm_compute; reflexivity).
  destruct (sync_folders_raises_early 4 ["src"] ["dst"] 4 blocked_world _ _ Hrun)
    as [[Hplan|[Hthr _]] Hdirs]; [|lia].
  split; [exact Hplan|].
  destruct (Hdirs ["dst"; "a"]) as [Hs|[Hnone _]]; [exact Hs|].
  vm_compute in Hnone. discriminate.
Defined.

Lemma plan_tasks_unique_witness :
  NoDup (map snd example_copy_tasks) ∧
  NoDup (map (λ t, ["dst"] ++ t.2) example_copy_tasks) ∧
  NoDup example_delete_tasks.
Proof. exact (plan_tasks_unique _ _ _ _ _ _ example_plan_eq). Defined.

Lemma copy_file_settles_witness :
  should_copy ["src"; "a.txt"] ["dst"; "a.txt"]
    (copy_file ["src"; "a.txt"] ["dst"; "a.txt"] example_world).2
  = (Ok false, (copy_file ["src"; "a.txt"] ["dst"; "a.txt"] example_world).2).
Proof.
  apply (copy_file_settles ["src"; "a.txt"] ["dst"; "a.txt"] example_world).
  - apply wf_check_correct. vm_compute. reflexivity.
  - vm_compute. reflexivity.
  - vm_compute. reflexivity.
Defined.

Lemma sync_directories_twice_witness :
  sync_directories ["src"] ["dst"] (sync_directories ["src"] ["dst"] example_world).2
  = (Ok tt,
     World (files (sync_directories ["src"] ["dst"] example_world).2)
           (clock (sync_directories ["src"] ["dst"] example_world).2)
           (trace (sync_directories ["src"] ["dst"] example_world).2
            ++ [Walk ["src"]; Log INFO MsgNoNewDir])).
Proof.
  apply (sync_directories_twice ["src"] ["dst"] example_world).
  - split; intros [k Hk]; discriminate.
  - vm_compute. reflexivity.
Defined.

Lemma sync_folders_thread_count_witness :
  sync_folders 4 ["src"] ["dst"] 0 example_world
  = (Raise ValueError, pooled 4 example_copy_tasks example_plan.2).
Proof.
  apply (sync_folders_thread_count 4 ["src"] ["dst"] 0 example_world _ _ example_delete_tasks).
  - lia.
  - exact example_plan_eq.
  - vm_compute. discriminate.
Defined.

Lemma make_chunks_few_witness :
  num_processes 8 (Z.of_nat (length ["a"; "b"; "c"])) = 1%Z ∧
  make_chunks 8 ["a"; "b"; "c"] = [["a"; "b"; "c"]].
Proof. apply (make_chunks_few 8 ["a"; "b"; "c"]). simpl. lia. Defined.

Lemma copy_phase_accounts_witness :
  (copy_phase 4 example_copy_tasks ["dst"] 4 example_plan.2).1 = Ok tt.
Proof.
  apply (copy_phase_accounts 4 example_copy_tasks ["dst"] 4 example_plan.2).
  - lia.
  - vm_compute. discriminate.
Defined.

Lemma sync_plan_copy_set_witness :
  (["src"; "a.txt"], ["a.txt"]) ∈ example_copy_tasks.
Proof.
  destruct (sync_plan_copy_set _ _ _ _ _ _ example_plan_eq) as [_ Hiff].
  apply Hiff. split; [reflexivity|]. split.
  - split; [discriminate|]. split; [by apply reachable_nil|].
    split; [by eexists|reflexivity].
  - split; [reflexivity|]. vm_compute. reflexivity.
Defined.

Lemma sync_folders_into_empty_witness :
  ∃ w', sync_folders 4 ["src"] ["dst"] 4 fresh_world = (Ok tt, w') ∧
        isdir (files w') ["dst"] = true ∧
        (∀ rel, dir_under (files fresh_world) ["src"] rel →
                isdir (files w') (["dst"] ++ rel) = true) ∧
        (∀ rel, file_under (files fresh_world) ["src"] rel →
                should_skip_file (basename rel) = false →
                is_Some (files w' !! (["dst"] ++ rel)) ∧
                files w' !! (["dst"] ++ rel) = files fresh_world !! (["src"] ++ rel)).
Proof.
  apply (sync_folders_into_empty 4 ["src"] ["dst"] 4 fresh_world).
  - apply wf_check_correct. vm_compute. reflexivity.
  - split; intros [k Hk]; discriminate.
  - vm_compute. reflexivity.
  - intros q [k Hk] Hex. destruct q as [|x [|y q]]; [reflexivity| |discriminate].
    injection Hk as <- _. vm_compute in Hex. discriminate.
  - intros rel _. apply not_elem_of_list_to_map_1. simpl.
    intros Hin. repeat (apply elem_of_cons in Hin as [Hin|Hin]; [discriminate|]).
    by apply elem_of_nil in Hin.
  - lia.
Defined.

Lemma remove_obsolete_directories_keeps_files_witness :
  files (remove_obsolete_directories ["src"] ["dst"] stale_world).2
    !! ["dst"; "stale"; "old.txt"] = Some (File 3 [Byte.x6f]) ∧
  isdir (files (remove_obsolete_directories ["src"] ["dst"] stale_world).2)
    ["dst"; "stale"] = true.
Proof.
  assert (wf (files stale_world)) as Hwf
    by (apply wf_check_correct; vm_compute; reflexivity).
  destruct (remove_obsolete_directories_keeps_files ["src"] ["dst"] stale_world _ _ Hwf
              (surjective_pairing _)) as [Hfiles _].
  destruct (Hfiles ["dst"; "stale"; "old.txt"] 3%Z [Byte.x6f]) as [Hq Hp];
    [vm_compute; reflexivity|].
  split; [exact Hq|]. apply Hp; [|discriminate]. by exists ["old.txt"].
Defined.

Lemma sync_folders_keeps_matched_witness :
  ∃ m d, files (sync_folders 4 ["src"] ["dst"] 4 example_world).2
           !! (["dst"] ++ ["a.txt"]) = Some (File m d).
Proof.
  assert (wf (files example_world)) as Hwf
    by (apply wf_check_correct; vm_compute; reflexivity).
  assert (separate ["src"] ["dst"]) as Hsep by (split; intros [k Hk]; discriminate).
  destruct (sync_folders_keeps_matched 4 ["src"] ["dst"] 4 example_world _ _ Hwf Hsep
              (surjective_pairing _)) as [Hfiles _].
  apply Hfiles; [| |vm_compute; reflexivity].
  all: split; [discriminate|]; split; [apply reachable_nil; vm_compute; reflexivity|];
    split; [vm_compute; eauto|vm_compute; reflexivity].
Defined.
